(** * DollWorkflowAI: the task execution engine

    A shallow embedding of [server/types.ts], [server/db.ts] and
    [server/workflow.ts] (class [WorkflowEngine]), and the properties of
    the engine that the specification states.

    Conventions of the embedding.
    - A JavaScript string is a [string]; it is falsy exactly when it is
      empty.  An optional field [f?: T] is an [option T].
    - [GenerateRequest.stage] is typed [WorkflowStage] but arrives as
      the JSON body of [POST /api/generate], so it is a [string].
    - A [number] that counts (the concurrency limit, the in-flight
      counter) is a [Z]; the settings form only produces integers.
    - [tasks.json] is an [option (list TaskItem)]: [None] when the file
      does not exist.  Reads and writes of the file succeed.
    - Values read from the process environment (clock, pid, memory,
      JSON rendering) and the answers of the remote services are fields
      of an [Env] record of oracles.  Console output is not modelled. *)

From Stdlib Require Import ZArith Lia Ascii String List Permutation.
From stdpp Require Import base decidable option list strings pretty gmap.
Import ListNotations.

Local Open Scope string_scope.
Local Open Scope Z_scope.
Local Open Scope list_scope.

(** ** server/types.ts *)

Module WorkflowStage.
Definition HAIRSTYLE_EXTRACTION : string := "hairstyle_extraction".
Definition DOLL_ASSEMBLY : string := "doll_assembly".
Definition DOLL_REPLACEMENT : string := "doll_replacement".
End WorkflowStage.

Record AppSettings := {
  geekaiApiKey : string;
  concurrency : Z;
  workingDirectory : string;
  ossAccessKeyId : string;
  ossAccessKeySecret : string;
  ossEndpoint : string;
  ossBucketName : string;
  ossFolder : string;
  promptHairstyle : string;
  promptAssembly : string;
  promptReplacement : string;
}.

Record ImageItem := {
  img_id : string;
  img_url : string;
  local_path : string;
  img_name : string;
  category : option string;
  selected : option bool;
}.

Inductive TaskStatus := pending | processing | completed | failed.

Record TaskItem := {
  task_id : string;
  type : string;
  status : TaskStatus;
  model : string;
  inputImages : list ImageItem;
  outputImages : list ImageItem;
  startTime : string;
  endTime : option string;
  duration : option string;
  geekai_task_id : option string;
  error_message : option string;
  logs : option (list string);
}.

(** [GenerateRequest]; [_taskId] is the property [submitTask] attaches
    to the request object before it is queued. *)
Record GenerateRequest := {
  stage : string;
  req_model : string;
  size : string;
  aspect_ratio : string;
  input_images : list ImageItem;
  settings : AppSettings;
  _taskId : option string;
}.

Definition PIXEL_MAP_2K : list (string * string) :=
  [ ("1:1", "2048x2048"); ("4:3", "2304x1728"); ("3:4", "1728x2304");
    ("16:9", "2560x1440"); ("9:16", "1440x2560"); ("3:2", "2496x1664");
    ("2:3", "1664x2496"); ("21:9", "3024x1296") ].

#[global] Instance TaskStatus_eq_dec : EqDecision TaskStatus.
Proof. solve_decision. Defined.
#[global] Instance ImageItem_eq_dec : EqDecision ImageItem.
Proof. solve_decision. Defined.

(** ** JavaScript helpers *)

(** [!s] on a string. *)
Definition falsy (s : string) : bool := bool_decide (s = "").

(** [a === b] on strings. *)
Definition str_eq (a b : string) : bool := bool_decide (a = b).

(** [i.category === c]. *)
Definition has_category (c : string) (i : ImageItem) : bool :=
  bool_decide (category i = Some c).

Definition upper_ascii (c : ascii) : ascii :=
  let n := nat_of_ascii c in
  if ((97 <=? n) && (n <=? 122))%nat then ascii_of_nat (n - 32) else c.

(** [s.startsWith(p)]. *)
Fixpoint starts_with (p s : string) : bool :=
  match p with
  | EmptyString => true
  | String a p' =>
      match s with
      | EmptyString => false
      | String b s' => Ascii.eqb a b && starts_with p' s'
      end
  end.

(** [s.toUpperCase()]; characters outside [a-z] are kept, which is what
    JavaScript does on ASCII text. *)
Fixpoint toUpperCase (s : string) : string :=
  match s with
  | EmptyString => EmptyString
  | String c rest => String (upper_ascii c) (toUpperCase rest)
  end.

(** [s.replace(/_/g, ' ')]. *)
Fixpoint replace_underscores (s : string) : string :=
  match s with
  | EmptyString => EmptyString
  | String c rest =>
      String (if Ascii.eqb c "_" then " "%char else c) (replace_underscores rest)
  end.

(** ** WorkflowEngine.validateRequest

    Returns the error string ([None] for [null]) together with the
    request object as the call leaves it: on success of a known stage
    [req.input_images] has been overwritten. *)

Definition set_input_images (req : GenerateRequest) (imgs : list ImageItem)
  : GenerateRequest :=
  {| stage := stage req; req_model := req_model req; size := size req;
     aspect_ratio := aspect_ratio req; input_images := imgs;
     settings := settings req; _taskId := _taskId req |}.

Definition set_taskId (req : GenerateRequest) (tid : string) : GenerateRequest :=
  {| stage := stage req; req_model := req_model req; size := size req;
     aspect_ratio := aspect_ratio req; input_images := input_images req;
     settings := settings req; _taskId := Some tid |}.

Definition ERR_KEY := "GeekAI API Key is missing. Please check Settings.".
Definition ERR_MODEL := "Please select an AI Model.".
Definition ERR_SIZE := "Please select a Size.".
Definition ERR_RATIO := "Please select an Aspect Ratio.".
Definition ERR_HAIR := "Rules: Select exactly 1 Reference image and 1 Mannequin image.".
Definition ERR_ASM := "Rules: Select exactly 1 Hair, 1 Body, and 1 Cloth image.".
Definition ERR_REP := "Rules: Select exactly 1 Reference image and 1 Product image.".

Definition len_ne_1 (l : list ImageItem) : bool :=
  negb (Nat.eqb (length l) 1).

Definition validateRequest (req : GenerateRequest)
  : option string * GenerateRequest :=
  if falsy (geekaiApiKey (settings req)) then (Some ERR_KEY, req)
  else if falsy (req_model req) then (Some ERR_MODEL, req)
  else if falsy (size req) then (Some ERR_SIZE, req)
  else if falsy (aspect_ratio req) then (Some ERR_RATIO, req)
  else
    let imgs := input_images req in
    if str_eq (stage req) WorkflowStage.HAIRSTYLE_EXTRACTION then
      let ref := List.filter (has_category "hair-ref") imgs in
      let man := List.filter (has_category "hair-mannequin") imgs in
      if len_ne_1 ref || len_ne_1 man then (Some ERR_HAIR, req)
      else (None, set_input_images req (ref ++ man))
    else if str_eq (stage req) WorkflowStage.DOLL_ASSEMBLY then
      let hair := List.filter (has_category "asm-hair") imgs in
      let body := List.filter (has_category "asm-body") imgs in
      let cloth := List.filter (has_category "asm-cloth") imgs in
      if len_ne_1 hair || len_ne_1 body || len_ne_1 cloth then (Some ERR_ASM, req)
      else (None, set_input_images req (hair ++ body ++ cloth))
    else if str_eq (stage req) WorkflowStage.DOLL_REPLACEMENT then
      let ref := List.filter (has_category "rep-ref") imgs in
      let prod := List.filter (has_category "rep-prod") imgs in
      if len_ne_1 ref || len_ne_1 prod then (Some ERR_REP, req)
      else (None, set_input_images req (ref ++ prod))
    else (None, req).

(** ** server/db.ts: the task history *)

Abbreviation TasksFile := (option (list TaskItem)).

Definition RESTART_MESSAGE : string :=
  "System restarted during execution (Check logs for details)".

(** The object the [map] callback of [recoverState] returns for an
    interrupted task: [{...t, status, endTime, error_message}]. *)
Definition mark_interrupted (now : string) (t : TaskItem) : TaskItem :=
  {| task_id := task_id t; type := type t; status := failed;
     model := model t; inputImages := inputImages t;
     outputImages := outputImages t; startTime := startTime t;
     endTime := Some now; duration := duration t;
     geekai_task_id := geekai_task_id t;
     error_message := Some RESTART_MESSAGE; logs := logs t |}.

Definition is_interrupted (t : TaskItem) : bool :=
  bool_decide (status t = processing) || bool_decide (status t = pending).

Definition recover_task (now : string) (t : TaskItem) : TaskItem :=
  if is_interrupted t then mark_interrupted now t else t.

(** [DB.recoverState]; [now] is [new Date().toLocaleString()].  The file
    is rewritten only when some task was modified. *)
Definition recoverState (now : string) (file : TasksFile) : TasksFile :=
  match file with
  | None => None
  | Some tasks =>
      let modified := existsb is_interrupted tasks in
      let safeTasks := map (recover_task now) tasks in
      if modified then Some safeTasks else Some tasks
  end.

(** [DB.addTask]: [tasks.unshift(task)] on the stored list, or on [[]]
    when there is no file yet. *)
Definition addTask (task : TaskItem) (file : TasksFile) : TasksFile :=
  Some (task :: default [] file).

(** [Partial<TaskItem>]. *)
Record TaskUpdate := {
  u_id : option string;
  u_type : option string;
  u_status : option TaskStatus;
  u_model : option string;
  u_inputImages : option (list ImageItem);
  u_outputImages : option (list ImageItem);
  u_startTime : option string;
  u_endTime : option string;
  u_duration : option string;
  u_geekai_task_id : option string;
  u_error_message : option string;
  u_logs : option (list string);
}.

Definition no_update : TaskUpdate :=
  {| u_id := None; u_type := None; u_status := None; u_model := None;
     u_inputImages := None; u_outputImages := None; u_startTime := None;
     u_endTime := None; u_duration := None; u_geekai_task_id := None;
     u_error_message := None; u_logs := None |}.

(** [{ ...t, ...updates }]. *)
Definition merge (t : TaskItem) (u : TaskUpdate) : TaskItem :=
  {| task_id := default (task_id t) (u_id u);
     type := default (type t) (u_type u);
     status := default (status t) (u_status u);
     model := default (model t) (u_model u);
     inputImages := default (inputImages t) (u_inputImages u);
     outputImages := default (outputImages t) (u_outputImages u);
     startTime := default (startTime t) (u_startTime u);
     endTime := match u_endTime u with Some x => Some x | None => endTime t end;
     duration := match u_duration u with Some x => Some x | None => duration t end;
     geekai_task_id :=
       match u_geekai_task_id u with Some x => Some x | None => geekai_task_id t end;
     error_message :=
       match u_error_message u with Some x => Some x | None => error_message t end;
     logs := match u_logs u with Some x => Some x | None => logs t end |}.

(** [tasks.findIndex(t => t.id === taskId)] followed by the assignment
    [tasks[index] = {...}]: the first record with that id is replaced. *)
Fixpoint update_first (taskId : string) (u : TaskUpdate) (tasks : list TaskItem)
  : list TaskItem :=
  match tasks with
  | [] => []
  | t :: rest =>
      if str_eq (task_id t) taskId then merge t u :: rest
      else t :: update_first taskId u rest
  end.

(** [DB.updateTask]: nothing happens without a file or without a record
    of that id. *)
Definition updateTask (taskId : string) (u : TaskUpdate) (file : TasksFile)
  : TasksFile :=
  match file with
  | None => None
  | Some tasks => Some (update_first taskId u tasks)
  end.

(** [tasks.find(x => x.id === taskId)]. *)
Definition find_task (taskId : string) (tasks : list TaskItem) : option TaskItem :=
  List.find (fun t => str_eq (task_id t) taskId) tasks.

(** ** WorkflowEngine: queue and admission *)

Record Engine := {
  queue : list GenerateRequest;
  activeCount : Z;
  maxConcurrency : Z;
}.

(** The field initialisers of the class. *)
Definition new_engine : Engine :=
  {| queue := []; activeCount := 0; maxConcurrency := 4 |}.

(** [init]: [this.maxConcurrency = config.concurrency || 4]. *)
Definition init (config : AppSettings) (e : Engine) : Engine :=
  {| queue := queue e; activeCount := activeCount e;
     maxConcurrency := if concurrency config =? 0 then 4 else concurrency config |}.

(** [processQueue].  The second component is the call
    [this.executeTask(taskId, req)] when one is made: at most one per
    call, since the body is straight-line code with two guards. *)
Definition processQueue (e : Engine)
  : Engine * option (option string * GenerateRequest) :=
  if Nat.eqb (length (queue e)) 0 then (e, None)
  else if activeCount e >=? maxConcurrency e then (e, None)
  else
    match queue e with
    | [] => (e, None)
    | req :: rest =>
        ({| queue := rest; activeCount := activeCount e + 1;
            maxConcurrency := maxConcurrency e |},
         Some (_taskId req, req))
    end.

(** The [finally] callback registered on the promise of [executeTask]. *)
Definition onSettled (e : Engine)
  : Engine * option (option string * GenerateRequest) :=
  processQueue {| queue := queue e; activeCount := activeCount e - 1;
                  maxConcurrency := maxConcurrency e |}.

Definition updateConcurrency (limit : Z) (e : Engine)
  : Engine * option (option string * GenerateRequest) :=
  processQueue {| queue := queue e; activeCount := activeCount e;
                  maxConcurrency := limit |}.

(** ** WorkflowEngine.submitTask *)

(** The state [submitTask] works on: the engine, the stored history and
    the pipelines in flight ([executeTask] calls whose promise has not
    settled), oldest first. *)
Record System := {
  engine : Engine;
  tasksFile : TasksFile;
  running : list (option string * GenerateRequest);
}.

Definition start_of (s : option (option string * GenerateRequest))
  : list (option string * GenerateRequest) :=
  match s with Some x => [x] | None => [] end.

(** What the clock and the uuid generator give to one submission:
    [Date.now()], [uuidv4()] and [new Date().toLocaleString()]. *)
Record SubmitEnv := {
  date_now : N;
  uuid : string;
  locale_now : string;
}.

Definition new_task_id (env : SubmitEnv) : string :=
  "task-" +:+ pretty (date_now env) +:+ "-" +:+ substring 0 4 (uuid env).

Definition stage_label (stage : string) : string :=
  toUpperCase (replace_underscores stage).

Definition newTask (env : SubmitEnv) (req : GenerateRequest) : TaskItem :=
  {| task_id := new_task_id env;
     type := stage_label (stage req);
     status := pending;
     model := req_model req;
     inputImages := input_images req;
     outputImages := [];
     startTime := locale_now env;
     endTime := None; duration := None; geekai_task_id := None;
     error_message := None;
     logs := Some [] |}.

(** [submitTask]: [inl msg] is the rejected promise ([throw new
    Error(msg)]), [inr task] the returned record.  The test
    [if (error)] is the test for a message: none of the seven is
    empty. *)
Definition submitTask (env : SubmitEnv) (req : GenerateRequest) (s : System)
  : (string + TaskItem) * System :=
  match validateRequest req with
  | (Some error, _) => (inl error, s)
  | (None, req1) =>
      let task := newTask env req1 in
      let file := addTask task (tasksFile s) in
      let req2 := set_taskId req1 (new_task_id env) in
      let e1 := {| queue := queue (engine s) ++ [req2];
                   activeCount := activeCount (engine s);
                   maxConcurrency := maxConcurrency (engine s) |} in
      let '(e2, started) := processQueue e1 in
      (inr task,
       {| engine := e2; tasksFile := file;
          running := running s ++ start_of started |})
  end.

(** ** The engine as a transition system

    The three places where admission is triggered: a submission, the
    settling of a pipeline, a change of the limit.  [Settle k] is the
    settling of the [k]-th pipeline in flight.  The writes of a running
    pipeline to the history are those of [executeTask] further down;
    they are not replayed here. *)
Inductive Event :=
  | Submit (env : SubmitEnv) (req : GenerateRequest)
  | Settle (k : nat)
  | UpdateConcurrency (limit : Z).

Definition step (s : System) (ev : Event) : option System :=
  match ev with
  | Submit env req => Some (snd (submitTask env req s))
  | Settle k =>
      match running s !! k with
      | None => None
      | Some _ =>
          let '(e, started) := onSettled (engine s) in
          Some {| engine := e; tasksFile := tasksFile s;
                  running := delete k (running s) ++ start_of started |}
      end
  | UpdateConcurrency limit =>
      let '(e, started) := updateConcurrency limit (engine s) in
      Some {| engine := e; tasksFile := tasksFile s;
              running := running s ++ start_of started |}
  end.

Fixpoint run (s : System) (evs : list Event) : option System :=
  match evs with
  | [] => Some s
  | ev :: rest =>
      match step s ev with
      | Some s' => run s' rest
      | None => None
      end
  end.

(** The system once [init] has read the configuration. *)
Definition boot (config : AppSettings) (file : TasksFile) : System :=
  {| engine := init config new_engine; tasksFile := file; running := [] |}.

(** ** The validation rules in the words of the specification *)

(** The number of images carrying a tag. *)
Fixpoint tagged (c : string) (imgs : list ImageItem) : nat :=
  match imgs with
  | [] => 0
  | i :: rest =>
      match category i with
      | Some c' => if String.eqb c' c then S (tagged c rest) else tagged c rest
      | None => tagged c rest
      end
  end.

Definition composition_ok (req : GenerateRequest) : Prop :=
  (stage req = "hairstyle_extraction" ->
     tagged "hair-ref" (input_images req) = 1%nat /\
     tagged "hair-mannequin" (input_images req) = 1%nat) /\
  (stage req = "doll_assembly" ->
     tagged "asm-hair" (input_images req) = 1%nat /\
     tagged "asm-body" (input_images req) = 1%nat /\
     tagged "asm-cloth" (input_images req) = 1%nat) /\
  (stage req = "doll_replacement" ->
     tagged "rep-ref" (input_images req) = 1%nat /\
     tagged "rep-prod" (input_images req) = 1%nat).

Definition required_present (req : GenerateRequest) : Prop :=
  geekaiApiKey (settings req) <> "" /\ req_model req <> "" /\
  size req <> "" /\ aspect_ratio req <> "".

Definition violates_rules (req : GenerateRequest) : Prop :=
  ~ (required_present req /\ composition_ok req).

Definition known_stage (s : string) : Prop :=
  s = "hairstyle_extraction" \/ s = "doll_assembly" \/ s = "doll_replacement".

Definition validation_messages : list string :=
  [ERR_KEY; ERR_MODEL; ERR_SIZE; ERR_RATIO; ERR_HAIR; ERR_ASM; ERR_REP].

(** ** Sample data *)

Definition sample_settings : AppSettings :=
  {| geekaiApiKey := "sk-1"; concurrency := 2; workingDirectory := "./output";
     ossAccessKeyId := "AK"; ossAccessKeySecret := "SK";
     ossEndpoint := "https://oss-cn-hangzhou.aliyuncs.com";
     ossBucketName := "dolls"; ossFolder := "doll-workflow/";
     promptHairstyle := "extract"; promptAssembly := "assemble";
     promptReplacement := "replace" |}.

Definition sample_image (n c : string) : ImageItem :=
  {| img_id := n; img_url := "/files/inputs/" +:+ n;
     local_path := "/srv/data/inputs/" +:+ n; img_name := n;
     category := Some c; selected := Some false |}.

Definition sample_request (st : string) (imgs : list ImageItem) : GenerateRequest :=
  {| stage := st; req_model := "nano-banana"; size := "1K";
     aspect_ratio := "Auto"; input_images := imgs;
     settings := sample_settings; _taskId := None |}.

Definition sample_env (n : N) : SubmitEnv :=
  {| date_now := n; uuid := "9f3c2a10-0000"; locale_now := "1/1/2026, 10:00:00 AM" |}.

Definition img_ref := sample_image "ref.jpg" "rep-ref".
Definition img_prod := sample_image "prod.jpg" "rep-prod".
Definition img_hair := sample_image "hair.jpg" "asm-hair".
Definition img_body := sample_image "body.jpg" "asm-body".
Definition img_cloth := sample_image "cloth.jpg" "asm-cloth".
Definition img_href := sample_image "href.jpg" "hair-ref".
Definition img_man := sample_image "man.jpg" "hair-mannequin".

Definition empty_system : System := boot sample_settings None.

(** ** The pipeline: effects, errors and the monad of [executeTask] *)

(** An HTTP error response as axios attaches it to the error it throws:
    [e.response.status], [e.response.data] (its [message] field and its
    JSON rendering). *)
Record RespData := {
  data_message : option string;
  data_json : string;
}.

Record ErrResponse := {
  resp_status : Z;
  resp_data : option RespData;
}.

(** A thrown value: [e.message] and [e.response]. *)
Record JsError := {
  message : string;
  response : option ErrResponse;
}.

(** [new Error(msg)]. *)
Definition Error (msg : string) : JsError :=
  {| message := msg; response := None |}.

(** The body of a resolved [axios.post]: [res.status], [res.data.task_id]
    and [JSON.stringify(res.data)]. *)
Record PostResponse := {
  res_status : Z;
  res_task_id : option string;
  res_data_json : string;
}.

(** The body of a resolved status query: [res.data.task_status],
    [res.data.data[0].url] ([None] when that expression cannot be
    evaluated) and [res.data.error?.message]. *)
Record GetResponse := {
  task_status : option string;
  data0_url : option string;
  remote_error : option string;
}.

Record Payload := {
  p_model : string;
  p_image : list string;
  p_prompt : string;
  p_size : option string;
  p_aspect_ratio : option string;
}.

(** The environment of one pipeline.  Remote answers are indexed the
    way the loops count: upload by image position and attempt, submit
    by attempt, status query by [pollCount], download by attempt.
    [None] from [oss_put] and [http_download] is success, [Some msg] a
    thrown error with that message. *)
Record Env := {
  env_pid : string;
  env_memInfo : string;
  env_localeNow : string;
  env_dateNow : string;
  env_duration : string -> string;
  JSON_stringify : Payload -> string;
  path_resolve : string -> string -> string;
  oss_put : nat -> nat -> option string;
  geekai_post : nat -> JsError + PostResponse;
  geekai_get : nat -> JsError + GetResponse;
  http_download : nat -> option string;
}.

(** What a pipeline does to the outside, in order.  A [Log] entry is the
    message handed to [DB.addTaskLog]; the clock prefix of the line is
    left out. *)
Inductive Effect :=
  | Log (taskId msg : string)
  | DbUpdate (taskId : string) (u : TaskUpdate)
  | OssPut (index : nat) (key path : string)
  | HttpPost (payload : Payload) (apiKey : string)
  | HttpGet (url apiKey : string)
  | HttpDownload (url filePath : string)
  | Sleep (ms : Z).

Record Machine := {
  tasks : TasksFile;
  trace : list Effect;
}.

(** [OutOfFuel]: the [while (true)] loop was still running when the fuel
    of the model ended. *)
Inductive Result (A : Type) :=
  | Ret (a : A)
  | Throw (e : JsError)
  | OutOfFuel.
Arguments Ret {A} a.
Arguments Throw {A} e.
Arguments OutOfFuel {A}.

Definition M (A : Type) : Type := Machine -> Result A * Machine.

Definition ret {A} (a : A) : M A := fun m => (Ret a, m).

Definition bind {A B} (c : M A) (k : A -> M B) : M B :=
  fun m =>
    match c m with
    | (Ret a, m') => k a m'
    | (Throw e, m') => (Throw e, m')
    | (OutOfFuel, m') => (OutOfFuel, m')
    end.

Definition throw {A} (e : JsError) : M A := fun m => (Throw e, m).

Definition out_of_fuel {A} : M A := fun m => (OutOfFuel, m).

(** [try { body } catch (e) { handler }]: an error thrown by the handler
    itself leaves the statement. *)
Definition try_catch {A} (body : M A) (handler : JsError -> M A) : M A :=
  fun m =>
    match body m with
    | (Throw e, m') => handler e m'
    | r => r
    end.

Declare Scope pipeline_scope.
Delimit Scope pipeline_scope with pipeline.
Notation "x <- c ;; k" := (bind c (fun x => k))
  (at level 100, c at next level, right associativity) : pipeline_scope.
Notation "c ;; k" := (bind c (fun _ => k))
  (at level 100, right associativity) : pipeline_scope.
Local Open Scope pipeline_scope.

Definition emit (e : Effect) : M unit :=
  fun m => (Ret tt, {| tasks := tasks m; trace := trace m ++ [e] |}).

(** [await DB.addTaskLog(taskId, msg)]; it catches its own errors. *)
Definition addTaskLog (taskId msg : string) : M unit := emit (Log taskId msg).

(** [await DB.updateTask(taskId, u)]. *)
Definition dbUpdateTask (taskId : string) (u : TaskUpdate) : M unit :=
  fun m => (Ret tt, {| tasks := updateTask taskId u (tasks m);
                       trace := trace m ++ [DbUpdate taskId u] |}).

(** [await new Promise(r => setTimeout(r, ms))]. *)
Definition sleep (ms : Z) : M unit := emit (Sleep ms).

(** [for (let i = start; i < start + n; i++) body(i)], where the body
    answers [Some a] to leave the loop with [a] ([break] or [return])
    and [None] to go on. *)
Fixpoint for_loop {A} (n : nat) (i : nat) (body : nat -> M (option A))
  : M (option A) :=
  match n with
  | O => ret None
  | S n' =>
      r <- body i ;;
      match r with
      | Some a => ret (Some a)
      | None => for_loop n' (S i) body
      end
  end.

(** ** String helpers of the pipeline *)

(** [folder.replace(/\/$/, '')]. *)
Fixpoint strip_trailing_slash (s : string) : string :=
  match s with
  | EmptyString => EmptyString
  | String c rest =>
      if Ascii.eqb c "/" && falsy rest then EmptyString
      else String c (strip_trailing_slash rest)
  end.

Definition drop_chars (n : nat) (s : string) : string :=
  substring n (String.length s - n) s.

(** [endpoint.replace(/^https?:\/\//, '')]. *)
Definition strip_protocol (s : string) : string :=
  if starts_with "http://" s then drop_chars 7 s
  else if starts_with "https://" s then drop_chars 8 s
  else s.

(** [path.basename(p)] on POSIX paths: the last non-empty segment. *)
Fixpoint basename_from (cur best s : string) : string :=
  match s with
  | EmptyString => if falsy cur then best else cur
  | String c rest =>
      if Ascii.eqb c "/"
      then basename_from "" (if falsy cur then best else cur) rest
      else basename_from (cur +:+ String c "") best rest
  end.

Definition basename (p : string) : string := basename_from "" "" p.

(** [s.split(c)[0]]. *)
Fixpoint before_first (c : ascii) (s : string) : string :=
  match s with
  | EmptyString => EmptyString
  | String d rest => if Ascii.eqb d c then EmptyString else String d (before_first c rest)
  end.

(** [x || fallback] on an optional string. *)
Definition or_else (x : option string) (fallback : string) : string :=
  match x with
  | Some s => if falsy s then fallback else s
  | None => fallback
  end.

(** ** WorkflowEngine.constructPayload *)

Definition lookup_2K (ratio : string) : option string :=
  snd <$> List.find (fun kv => str_eq (fst kv) ratio) PIXEL_MAP_2K.

Definition constructPayload (req : GenerateRequest) (ossLinks : list string)
  : Payload :=
  let st := settings req in
  let prompt :=
    if str_eq (stage req) WorkflowStage.HAIRSTYLE_EXTRACTION then promptHairstyle st
    else if str_eq (stage req) WorkflowStage.DOLL_ASSEMBLY then promptAssembly st
    else if str_eq (stage req) WorkflowStage.DOLL_REPLACEMENT then promptReplacement st
    else "" in
  let isAuto := str_eq (aspect_ratio req) "Auto" in
  let ratio_field := if isAuto then None else Some (aspect_ratio req) in
  let mk p sz ar :=
    {| p_model := req_model req; p_image := ossLinks; p_prompt := p;
       p_size := sz; p_aspect_ratio := ar |} in
  if str_eq (req_model req) "doubao-seedream-4.5"
     || str_eq (req_model req) "doubao-seedream-4.0" then
    if str_eq (size req) "2K" then
      mk prompt
         (Some (if isAuto then "2K"
                else or_else (lookup_2K (aspect_ratio req)) "2048x2048"))
         None
    else
      mk (if isAuto then prompt else prompt +:+ " --ratio " +:+ aspect_ratio req)
         (Some (size req)) None
  else if str_eq (req_model req) "nano-banana-hd"
          || str_eq (req_model req) "nano-banana" then
    mk prompt None ratio_field
  else if str_eq (req_model req) "nano-banana-2" then
    mk prompt (Some (size req)) ratio_field
  else
    mk prompt (Some (size req)) None.

(** ** WorkflowEngine.uploadImagesToOSS *)

Definition oss_key (st : AppSettings) (img : ImageItem) : string :=
  strip_trailing_slash (ossFolder st) +:+ "/" +:+ basename (local_path img).

Definition oss_link (st : AppSettings) (img : ImageItem) : string :=
  "https://" +:+ ossBucketName st +:+ "." +:+ strip_protocol (ossEndpoint st)
    +:+ "/" +:+ oss_key st img.

(** [await client.put(key, img.local_path, { timeout: 60000 })] for the
    image at position [idx], attempt [i]. *)
Definition client_put (env : Env) (idx i : nat) (key path : string) : M unit :=
  emit (OssPut idx key path) ;;
  match oss_put env idx i with
  | None => ret tt
  | Some msg => throw (Error msg)
  end.

(** The body of the retry loop for one image; [Some link] stands for
    [links.push(link); success = true; break]. *)
Definition upload_attempt (env : Env) (st : AppSettings) (taskId : string)
    (idx : nat) (img : ImageItem) (i : nat) : M (option string) :=
  try_catch
    (addTaskLog taskId
       ("Uploading " +:+ img_name img +:+ " (Attempt " +:+ pretty (i + 1)%nat +:+ "/3)...") ;;
     client_put env idx i (oss_key st img) (local_path img) ;;
     ret (Some (oss_link st img)))
    (fun e =>
       addTaskLog taskId
         ("Upload attempt " +:+ pretty (i + 1)%nat +:+ " failed: " +:+ message e) ;;
       if Nat.eqb i 2
       then throw (Error ("OSS Upload Failed for " +:+ img_name img +:+ ": " +:+ message e))
       else (sleep 3000 ;; ret None)).

(** [for (const img of images) { ... }] with the array [links] it fills. *)
Fixpoint upload_each (env : Env) (st : AppSettings) (taskId : string)
    (images : list ImageItem) (idx : nat) (links : list string)
  : M (list string) :=
  match images with
  | [] => ret links
  | img :: rest =>
      r <- for_loop 3 0 (upload_attempt env st taskId idx img) ;;
      upload_each env st taskId rest (S idx)
        (match r with Some link => links ++ [link] | None => links end)
  end.

Definition OSS_INCOMPLETE : string := "OSS Configuration incomplete".

(** [uploadImagesToOSS].  Building the client ([new OSS({...})]) does no
    I/O and is taken to succeed; the guard below is the only check the
    function itself makes on the storage settings. *)
Definition uploadImagesToOSS (env : Env) (images : list ImageItem)
    (st : AppSettings) (taskId : string) : M (list string) :=
  if falsy (ossAccessKeyId st) || falsy (ossBucketName st)
  then throw (Error OSS_INCOMPLETE)
  else upload_each env st taskId images 0 [].

(** ** WorkflowEngine.callGeekAI *)

(** [await axios.post(GEEKAI_API_URL, payload, ...)], attempt [i]. *)
Definition axios_post (env : Env) (i : nat) (payload : Payload) (apiKey : string)
  : M PostResponse :=
  emit (HttpPost payload apiKey) ;;
  match geekai_post env i with
  | inr res => ret res
  | inl e => throw e
  end.

(** [e.response?.data?.message || e.message]. *)
Definition post_error_message (e : JsError) : string :=
  or_else (resp ← response e; d ← resp_data resp; data_message d) (message e).

(** The [catch] block of attempt [i]. *)
Definition call_failed (taskId : string) (i : nat) (e : JsError) : M (option string) :=
  let errMsg := post_error_message e in
  addTaskLog taskId
    ("GeekAI API Call Attempt " +:+ pretty (i + 1)%nat +:+ " Failed: " +:+ errMsg) ;;
  match resp ← response e; resp_data resp with
  | Some d => addTaskLog taskId ("API Error Response Data: " +:+ data_json d)
  | None => ret tt
  end ;;
  if Nat.eqb i 2 then throw (Error ("GeekAI Request Failed: " +:+ errMsg))
  else (sleep 10000 ;; ret None).

Definition call_attempt (env : Env) (payload : Payload) (apiKey taskId : string)
    (i : nat) : M (option string) :=
  try_catch
    (res <- axios_post env i payload apiKey ;;
     addTaskLog taskId ("API Response Status: " +:+ pretty (res_status res)) ;;
     if (res_status res =? 200) && negb (falsy (or_else (res_task_id res) ""))
     then ret (Some (or_else (res_task_id res) ""))
     else throw (Error ("API returned " +:+ pretty (res_status res) +:+ ": "
                          +:+ res_data_json res)))
    (call_failed taskId i).

Definition callGeekAI (env : Env) (payload : Payload) (apiKey taskId : string)
  : M string :=
  r <- for_loop 3 0 (call_attempt env payload apiKey taskId) ;;
  match r with
  | Some id => ret id
  | None => throw (Error "GeekAI Unreachable")
  end.

(** ** WorkflowEngine.pollGeekAIResult *)

(** [await axios.get(url, ...)] for the query number [pollCount]. *)
Definition axios_get (env : Env) (pollCount : nat) (url apiKey : string)
  : M GetResponse :=
  emit (HttpGet url apiKey) ;;
  match geekai_get env pollCount with
  | inr res => ret res
  | inl e => throw e
  end.

Definition TYPE_ERROR : string :=
  "Cannot read properties of undefined (reading '0')".

(** [e.response && e.response.status >= 400 && e.response.status < 500]. *)
Definition is_client_error (e : JsError) : bool :=
  match response e with
  | Some r => (400 <=? resp_status r) && (resp_status r <? 500)
  | None => false
  end.

(** The [catch] block of the polling loop: a 4xx answer is fatal,
    anything else thrown inside the [try] block is passed over. *)
Definition poll_failed (dbTaskId : string) (e : JsError) : M (option string) :=
  if is_client_error e then
    let errMsg :=
      or_else (resp ← response e; d ← resp_data resp; data_message d) "API Error" in
    addTaskLog dbTaskId ("Polling Fatal Error: " +:+ errMsg) ;;
    throw (Error errMsg)
  else ret None.

(** One turn of the [while (true)] loop after the delay: [Some url] is
    [return url], [None] falls through to the next turn. *)
Definition poll_turn (env : Env) (url apiKey dbTaskId : string) (pollCount : nat)
  : M (option string) :=
  try_catch
    (res <- axios_get env pollCount url apiKey ;;
     let status := task_status res in
     (if Nat.eqb (pollCount mod 10) 0
      then addTaskLog dbTaskId
             ("Polling... Current Status: " +:+ default "undefined" status)
      else ret tt) ;;
     if bool_decide (status = Some "succeed") then
       match data0_url res with
       | Some u => ret (Some u)
       | None => throw (Error TYPE_ERROR)
       end
     else if bool_decide (status = Some "failed") then
       let failureMsg := or_else (remote_error res) "Task failed remotely" in
       addTaskLog dbTaskId ("Remote Task Failed: " +:+ failureMsg) ;;
       throw (Error failureMsg)
     else ret None)
    (poll_failed dbTaskId).

Fixpoint poll_loop (env : Env) (url apiKey dbTaskId : string)
    (fuel : nat) (pollCount : nat) : M string :=
  match fuel with
  | O => out_of_fuel
  | S fuel' =>
      sleep 3000 ;;
      r <- poll_turn env url apiKey dbTaskId (S pollCount) ;;
      match r with
      | Some u => ret u
      | None => poll_loop env url apiKey dbTaskId fuel' (S pollCount)
      end
  end.

Definition pollGeekAIResult (env : Env) (fuel : nat)
    (taskId apiKey dbTaskId : string) : M string :=
  poll_loop env ("https://geekai.co/api/v1/images/" +:+ taskId) apiKey dbTaskId fuel 0.

(** ** WorkflowEngine.downloadImage *)

(** The streamed GET and the write of the file, attempt [n]. *)
Definition fetch_to_file (env : Env) (n : nat) (url filePath : string) : M unit :=
  emit (HttpDownload url filePath) ;;
  match http_download env n with
  | None => ret tt
  | Some msg => throw (Error msg)
  end.

Fixpoint download_loop (env : Env) (url filePath taskId : string)
    (fuel : nat) (n : nat) : M string :=
  match fuel with
  | O => out_of_fuel
  | S fuel' =>
      r <- try_catch
             (fetch_to_file env n url filePath ;; ret (Some filePath))
             (fun e =>
                addTaskLog taskId ("Download failed (retrying): " +:+ message e) ;;
                sleep 3000 ;;
                ret None) ;;
      match r with
      | Some p => ret p
      | None => download_loop env url filePath taskId fuel' (S n)
      end
  end.

(** [downloadImage]; [fs.ensureDir(saveDir)] is taken to succeed. *)
Definition downloadImage (env : Env) (fuel : nat) (url saveDir taskId : string)
  : M string :=
  let fileName :=
    "gen_" +:+ env_dateNow env +:+ "_" +:+ basename (before_first "?" url) in
  let filePath := path_resolve env saveDir fileName in
  download_loop env url filePath taskId fuel 0.

(** ** WorkflowEngine.calculateDuration *)

Definition calculateDuration (env : Env) (taskId : string) : M string :=
  fun m =>
    match find_task taskId (default [] (tasks m)) with
    | None => (Ret "0s", m)
    | Some t => (Ret (env_duration env (startTime t)), m)
    end.

(** ** WorkflowEngine.executeTask *)

Definition set_status (st : TaskStatus) : TaskUpdate :=
  {| u_id := None; u_type := None; u_status := Some st; u_model := None;
     u_inputImages := None; u_outputImages := None; u_startTime := None;
     u_endTime := None; u_duration := None; u_geekai_task_id := None;
     u_error_message := None; u_logs := None |}.

Definition set_remote_id (id : string) : TaskUpdate :=
  {| u_id := None; u_type := None; u_status := None; u_model := None;
     u_inputImages := None; u_outputImages := None; u_startTime := None;
     u_endTime := None; u_duration := None; u_geekai_task_id := Some id;
     u_error_message := None; u_logs := None |}.

Definition set_completed (endT dur : string) (out : list ImageItem) : TaskUpdate :=
  {| u_id := None; u_type := None; u_status := Some completed; u_model := None;
     u_inputImages := None; u_outputImages := Some out; u_startTime := None;
     u_endTime := Some endT; u_duration := Some dur; u_geekai_task_id := None;
     u_error_message := None; u_logs := None |}.

Definition set_failed (endT errMsg : string) : TaskUpdate :=
  {| u_id := None; u_type := None; u_status := Some failed; u_model := None;
     u_inputImages := None; u_outputImages := None; u_startTime := None;
     u_endTime := Some endT; u_duration := None; u_geekai_task_id := None;
     u_error_message := Some errMsg; u_logs := None |}.

(** [for (let i = 0; i < ossLinks.length; i++) log(`OSS Link [${i}]: ...`)]. *)
Fixpoint log_links (taskId : string) (i : nat) (links : list string) : M unit :=
  match links with
  | [] => ret tt
  | l :: rest =>
      addTaskLog taskId ("OSS Link [" +:+ pretty i +:+ "]: " +:+ l) ;;
      log_links taskId (S i) rest
  end.

(** What follows the storing of the remote id inside the [try] block:
    poll, download, finalise. *)
Definition wait_and_finish (env : Env) (fuel : nat) (taskId : string)
    (req : GenerateRequest) (taskUuid : string) : M unit :=
  addTaskLog taskId ("Task submitted successfully. Remote ID: " +:+ taskUuid) ;;
  addTaskLog taskId "Polling for results..." ;;
  resultUrl <- pollGeekAIResult env fuel taskUuid (geekaiApiKey (settings req)) taskId ;;
  addTaskLog taskId ("Image generation succeeded. Result URL: " +:+ resultUrl) ;;
  addTaskLog taskId "Downloading result..." ;;
  localPath <- downloadImage env fuel resultUrl (workingDirectory (settings req)) taskId ;;
  addTaskLog taskId ("Image saved to " +:+ localPath) ;;
  let outputImg :=
    {| img_id := "out-" +:+ env_dateNow env;
       img_url := "/files/" +:+ basename localPath;
       local_path := localPath;
       img_name := basename localPath;
       category := None;
       selected := Some false |} in
  duration <- calculateDuration env taskId ;;
  dbUpdateTask taskId (set_completed (env_localeNow env) duration [outputImg]) ;;
  addTaskLog taskId ("Task completed in " +:+ duration +:+ ".").

(** Step 3 of the [try] block and the line after it: submit, then store
    the remote id. *)
Definition submit_and_wait (env : Env) (fuel : nat) (taskId : string)
    (req : GenerateRequest) (payload : Payload) : M unit :=
  addTaskLog taskId "Submitting task to GeekAI API..." ;;
  taskUuid <- callGeekAI env payload (geekaiApiKey (settings req)) taskId ;;
  dbUpdateTask taskId (set_remote_id taskUuid) ;;
  wait_and_finish env fuel taskId req taskUuid.

(** The [try] block from the line after the upload on. *)
Definition after_upload (env : Env) (fuel : nat) (taskId : string)
    (req : GenerateRequest) (ossLinks : list string) : M unit :=
  addTaskLog taskId "OSS upload completed successfully." ;;
  log_links taskId 0 ossLinks ;;
  addTaskLog taskId "Constructing API payload..." ;;
  let payload := constructPayload req ossLinks in
  addTaskLog taskId "--- API REQUEST PAYLOAD ---" ;;
  addTaskLog taskId (JSON_stringify env payload) ;;
  addTaskLog taskId "---------------------------" ;;
  submit_and_wait env fuel taskId req payload.

(** The [try] block of [executeTask]. *)
Definition pipeline (env : Env) (fuel : nat) (taskId : string)
    (req : GenerateRequest) : M unit :=
  dbUpdateTask taskId (set_status processing) ;;
  addTaskLog taskId
    ("Task init. PID: " +:+ env_pid env +:+ ", Mem: " +:+ env_memInfo env) ;;
  addTaskLog taskId
    ("Stage: " +:+ stage req +:+ ", Model: " +:+ req_model req +:+ ", Size: "
       +:+ size req +:+ ", Ratio: " +:+ aspect_ratio req) ;;
  addTaskLog taskId
    ("Starting upload of " +:+ pretty (length (input_images req))
       +:+ " images to Aliyun OSS...") ;;
  ossLinks <- uploadImagesToOSS env (input_images req) (settings req) taskId ;;
  after_upload env fuel taskId req ossLinks.

(** The [catch] block of [executeTask]. *)
Definition on_failure (env : Env) (taskId : string) (error : JsError) : M unit :=
  let errMsg := or_else (Some (message error)) "Unknown error" in
  addTaskLog taskId ("CRITICAL FAILURE: " +:+ errMsg) ;;
  dbUpdateTask taskId (set_failed (env_localeNow env) errMsg).

Definition executeTask (env : Env) (fuel : nat) (taskId : string)
    (req : GenerateRequest) : M unit :=
  try_catch (pipeline env fuel taskId req) (on_failure env taskId).

(** ** Reading a trace *)

Definition is_put (e : Effect) : bool :=
  match e with OssPut _ _ _ => true | _ => false end.
Definition is_put_of (idx : nat) (e : Effect) : bool :=
  match e with OssPut k _ _ => Nat.eqb k idx | _ => false end.
Definition is_post (e : Effect) : bool :=
  match e with HttpPost _ _ => true | _ => false end.
Definition is_get (e : Effect) : bool :=
  match e with HttpGet _ _ => true | _ => false end.
Definition is_network (e : Effect) : bool :=
  match e with
  | OssPut _ _ _ | HttpPost _ _ | HttpGet _ _ | HttpDownload _ _ => true
  | _ => false
  end.
Definition is_sleep (e : Effect) : bool :=
  match e with Sleep _ => true | _ => false end.
Definition is_sleep_of (ms : Z) (e : Effect) : bool :=
  match e with Sleep d => d =? ms | _ => false end.
Definition is_upload_log (e : Effect) : bool :=
  match e with Log _ msg => starts_with "Uploading " msg | _ => false end.

Definition count (p : Effect -> bool) (t : list Effect) : nat :=
  length (List.filter p t).

(** The effects a computation adds to the trace of the machine it
    starts from. *)
Definition new_effects {A} (c : M A) (m : Machine) : list Effect :=
  drop (length (trace m)) (trace (snd (c m))).

Definition start_machine (file : TasksFile) : Machine :=
  {| tasks := file; trace := [] |}.

(** ** Reachable states of the engine *)

(** States reached from boot through events that all satisfy [ok].  The
    configuration read at boot has a limit that is not negative. *)
Inductive reachable_by (ok : System -> Event -> Prop) : System -> Prop :=
  | reach_boot (config : AppSettings) (file : TasksFile) :
      0 <= concurrency config -> reachable_by ok (boot config file)
  | reach_step (s s' : System) (ev : Event) :
      reachable_by ok s -> ok s ev -> step s ev = Some s' -> reachable_by ok s'.

Definition any_event (s : System) (ev : Event) : Prop := True.



(** ** Specifications of computations *)

(** [c] leaves the history alone, and its result [r] and the effects [t]
    it adds do not depend on the machine it starts from. *)
Definition runs_as {A} (c : M A) (r : Result A) (t : list Effect) : Prop :=
  forall m, c m = (r, {| tasks := tasks m; trace := trace m ++ t |}).

(** [c] only ever adds to the trace, and keeps the property [I] of the
    history. *)
Definition grows (I : TasksFile -> Prop) {A} (c : M A) : Prop :=
  forall m, I (tasks m) ->
    I (tasks (snd (c m))) /\ exists t, trace (snd (c m)) = trace m ++ t.

(** The lines [log_links] writes. *)
Fixpoint link_logs (taskId : string) (i : nat) (links : list string) : list Effect :=
  match links with
  | [] => []
  | l :: rest =>
      Log taskId ("OSS Link [" +:+ pretty i +:+ "]: " +:+ l)
        :: link_logs taskId (S i) rest
  end.


(** All three attempts on the image at position [idx] fail, the last
    one with [msg]. *)
Definition attempts_exhausted (env : Env) (idx : nat) (msg : string) : Prop :=
  is_Some (oss_put env idx 0) /\ is_Some (oss_put env idx 1)
  /\ oss_put env idx 2 = Some msg.

(** The two lines the retry loop writes around an attempt. *)
Definition uploading_log (taskId : string) (img : ImageItem) (i : nat) : Effect :=
  Log taskId ("Uploading " +:+ img_name img +:+ " (Attempt " +:+ pretty (i + 1)%nat +:+ "/3)...").

Definition upload_failed_log (taskId : string) (i : nat) (msg : string) : Effect :=
  Log taskId ("Upload attempt " +:+ pretty (i + 1)%nat +:+ " failed: " +:+ msg).

(** What [executeTask] does before the upload, and what its [catch]
    block does with an error. *)
Definition pipeline_header (env : Env) (taskId : string) (req : GenerateRequest)
  : list Effect :=
  [ DbUpdate taskId (set_status processing);
    Log taskId ("Task init. PID: " +:+ env_pid env +:+ ", Mem: " +:+ env_memInfo env);
    Log taskId ("Stage: " +:+ stage req +:+ ", Model: " +:+ req_model req
                  +:+ ", Size: " +:+ size req +:+ ", Ratio: " +:+ aspect_ratio req);
    Log taskId ("Starting upload of " +:+ pretty (length (input_images req))
                  +:+ " images to Aliyun OSS...") ].

Definition failure_update (env : Env) (e : JsError) : TaskUpdate :=
  set_failed (env_localeNow env) (or_else (Some (message e)) "Unknown error").

Definition failure_footer (env : Env) (taskId : string) (e : JsError) : list Effect :=
  [ Log taskId ("CRITICAL FAILURE: " +:+ or_else (Some (message e)) "Unknown error");
    DbUpdate taskId (failure_update env e) ].

(** ** Reading the answers of the generation service *)

(** The remote id an answer to the submit request yields: the transport
    succeeded with status 200 and the body has a non-empty [task_id]. *)
Definition accepted_id (a : JsError + PostResponse) : option string :=
  match a with
  | inr res =>
      if (res_status res =? 200) && negb (falsy (or_else (res_task_id res) ""))
      then Some (or_else (res_task_id res) "")
      else None
  | inl _ => None
  end.

(** The error the [catch] block of [callGeekAI] receives for an answer
    that yields no id. *)
Definition attempt_error (a : JsError + PostResponse) : JsError :=
  match a with
  | inl e => e
  | inr res =>
      Error ("API returned " +:+ pretty (res_status res) +:+ ": " +:+ res_data_json res)
  end.

Definition response_log (taskId : string) (a : JsError + PostResponse) : list Effect :=
  match a with
  | inr res => [Log taskId ("API Response Status: " +:+ pretty (res_status res))]
  | inl _ => []
  end.

Definition call_failure_logs (taskId : string) (i : nat) (e : JsError) : list Effect :=
  Log taskId ("GeekAI API Call Attempt " +:+ pretty (i + 1)%nat +:+ " Failed: "
                +:+ post_error_message e)
  :: match resp ← response e; resp_data resp with
     | Some d => [Log taskId ("API Error Response Data: " +:+ data_json d)]
     | None => []
     end.

(** The progress line of every tenth status query. *)
Definition status_log (dbTaskId : string) (pollCount : nat) (res : GetResponse)
  : list Effect :=
  if Nat.eqb (pollCount mod 10) 0
  then [Log dbTaskId ("Polling... Current Status: "
                        +:+ default "undefined" (task_status res))]
  else [].

(** The lines between the upload and the submit. *)
Definition payload_logs (env : Env) (taskId : string) (req : GenerateRequest)
    (links : list string) : list Effect :=
  [Log taskId "OSS upload completed successfully."]
    ++ link_logs taskId 0 links
    ++ [ Log taskId "Constructing API payload...";
         Log taskId "--- API REQUEST PAYLOAD ---";
         Log taskId (JSON_stringify env (constructPayload req links));
         Log taskId "---------------------------" ].




(** No queued task is waiting for a slot that is free. *)
Definition saturated (s : System) : Prop :=
  queue (engine s) = [] \/ maxConcurrency (engine s) <= activeCount (engine s).

(** The limit is raised by one slot at most while tasks are queued. *)
Definition raised_by_one_at_most (s : System) (ev : Event) : Prop :=
  match ev with
  | UpdateConcurrency limit =>
      limit <= activeCount (engine s) + 1 \/ queue (engine s) = []
  | _ => True
  end.

(** ** More sample data *)

(** Two hair references and no mannequin for hairstyle extraction. *)
Definition bad_hair_request : GenerateRequest :=
  sample_request "hairstyle_extraction"
    [sample_image "a.jpg" "hair-ref"; sample_image "b.jpg" "hair-ref"].

(** Product and reference supplied in the reverse of the role order. *)
Definition reversed_request : GenerateRequest :=
  sample_request "doll_replacement" [img_prod; img_ref].

(** A stage value outside the enumeration, with an arbitrary image list. *)
Definition unknown_request : GenerateRequest :=
  sample_request "style_transfer" [img_cloth; img_ref; img_cloth].


Definition replacement_request : GenerateRequest :=
  sample_request "doll_replacement" [img_ref; img_prod].

Definition settings_with_limit (n : Z) : AppSettings :=
  {| geekaiApiKey := "sk-1"; concurrency := n; workingDirectory := "./output";
     ossAccessKeyId := "AK"; ossAccessKeySecret := "SK";
     ossEndpoint := "https://oss-cn-hangzhou.aliyuncs.com";
     ossBucketName := "dolls"; ossFolder := "doll-workflow/";
     promptHairstyle := "extract"; promptAssembly := "assemble";
     promptReplacement := "replace" |}.

(** Four submissions under a limit of 1, then the limit is raised to 4. *)
Definition raise_scenario : list Event :=
  [ Submit (sample_env 1) replacement_request;
    Submit (sample_env 2) replacement_request;
    Submit (sample_env 3) replacement_request;
    Submit (sample_env 4) replacement_request;
    UpdateConcurrency 4 ].



Definition stored_task (id : string) (st : TaskStatus) : TaskItem :=
  {| task_id := id; type := "DOLL REPLACEMENT"; status := st;
     model := "nano-banana"; inputImages := [img_ref; img_prod];
     outputImages := []; startTime := "1/1/2026, 10:00:00 AM";
     endTime := None; duration := None; geekai_task_id := Some "remote-7";
     error_message := None; logs := Some [] |}.

Definition stored_history : list TaskItem :=
  [ stored_task "task-3" processing; stored_task "task-2" completed;
    stored_task "task-1" pending ].

(** An environment in which the first image needs three upload attempts,
    the first submit answer carries no task id, and the remote task
    succeeds at the third status query. *)
Definition sample_pipeline_env : Env :=
  {| env_pid := "4242";
     env_memInfo := "RSS:80MB Heap:40MB";
     env_localeNow := "1/1/2026, 10:05:00 AM";
     env_dateNow := "1767261900000";
     env_duration := fun _ => "300.0s";
     JSON_stringify := fun p => "{ model: " +:+ p_model p +:+ " }";
     path_resolve := fun dir f => dir +:+ "/" +:+ f;
     oss_put := fun idx i =>
       if Nat.eqb idx 0 && Nat.ltb i 2 then Some "ETIMEDOUT" else None;
     geekai_post := fun i =>
       if Nat.eqb i 0
       then inr {| res_status := 200; res_task_id := None; res_data_json := "{}" |}
       else inr {| res_status := 200; res_task_id := Some "remote-7";
                   res_data_json := "{ task_id: remote-7 }" |};
     geekai_get := fun n =>
       if Nat.ltb n 3
       then inr {| task_status := Some "running"; data0_url := None;
                   remote_error := None |}
       else inr {| task_status := Some "succeed";
                   data0_url := Some "https://cdn.geekai.co/out/7.png?sig=1";
                   remote_error := None |};
     http_download := fun n => None |}.

(** The same environment with a storage that refuses every upload. *)
Definition failing_storage_env : Env :=
  {| env_pid := env_pid sample_pipeline_env;
     env_memInfo := env_memInfo sample_pipeline_env;
     env_localeNow := env_localeNow sample_pipeline_env;
     env_dateNow := env_dateNow sample_pipeline_env;
     env_duration := env_duration sample_pipeline_env;
     JSON_stringify := JSON_stringify sample_pipeline_env;
     path_resolve := path_resolve sample_pipeline_env;
     oss_put := fun _ _ => Some "AccessDenied";
     geekai_post := geekai_post sample_pipeline_env;
     geekai_get := geekai_get sample_pipeline_env;
     http_download := http_download sample_pipeline_env |}.


(** A generation service that reports the remote task as failed at every
    status query. *)
Definition rejecting_remote_env : Env :=
  {| env_pid := env_pid sample_pipeline_env;
     env_memInfo := env_memInfo sample_pipeline_env;
     env_localeNow := env_localeNow sample_pipeline_env;
     env_dateNow := env_dateNow sample_pipeline_env;
     env_duration := env_duration sample_pipeline_env;
     JSON_stringify := JSON_stringify sample_pipeline_env;
     path_resolve := path_resolve sample_pipeline_env;
     oss_put := fun _ _ => None;
     geekai_post := geekai_post sample_pipeline_env;
     geekai_get := fun _ =>
       inr {| task_status := Some "failed"; data0_url := None;
              remote_error := Some "content policy violation" |};
     http_download := http_download sample_pipeline_env |}.

Definition failed_answer : GetResponse :=
  {| task_status := Some "failed"; data0_url := None;
     remote_error := Some "content policy violation" |}.


(** * The rest of the server and its callers *)

(** ** server/db.ts: configuration *)

(** The JSON object of a configuration file: any field may be absent. *)
Record PartialSettings := {
  j_geekaiApiKey : option string;
  j_concurrency : option Z;
  j_workingDirectory : option string;
  j_ossAccessKeyId : option string;
  j_ossAccessKeySecret : option string;
  j_ossEndpoint : option string;
  j_ossBucketName : option string;
  j_ossFolder : option string;
  j_promptHairstyle : option string;
  j_promptAssembly : option string;
  j_promptReplacement : option string;
}.

Definition DEFAULT_CONFIG : AppSettings :=
  {| geekaiApiKey := ""; concurrency := 4; workingDirectory := "./output";
     ossAccessKeyId := ""; ossAccessKeySecret := ""; ossEndpoint := "";
     ossBucketName := ""; ossFolder := "doll-workflow/";
     promptHairstyle := ""; promptAssembly := ""; promptReplacement := "" |}.

(** [{ ...base, ...json }]. *)
Definition spread_settings (base : AppSettings) (json : PartialSettings) : AppSettings :=
  {| geekaiApiKey := default (geekaiApiKey base) (j_geekaiApiKey json);
     concurrency := default (concurrency base) (j_concurrency json);
     workingDirectory := default (workingDirectory base) (j_workingDirectory json);
     ossAccessKeyId := default (ossAccessKeyId base) (j_ossAccessKeyId json);
     ossAccessKeySecret := default (ossAccessKeySecret base) (j_ossAccessKeySecret json);
     ossEndpoint := default (ossEndpoint base) (j_ossEndpoint json);
     ossBucketName := default (ossBucketName base) (j_ossBucketName json);
     ossFolder := default (ossFolder base) (j_ossFolder json);
     promptHairstyle := default (promptHairstyle base) (j_promptHairstyle json);
     promptAssembly := default (promptAssembly base) (j_promptAssembly json);
     promptReplacement := default (promptReplacement base) (j_promptReplacement json) |}.

(** The JSON object written for a full configuration. *)
Definition settings_json (c : AppSettings) : PartialSettings :=
  {| j_geekaiApiKey := Some (geekaiApiKey c);
     j_concurrency := Some (concurrency c);
     j_workingDirectory := Some (workingDirectory c);
     j_ossAccessKeyId := Some (ossAccessKeyId c);
     j_ossAccessKeySecret := Some (ossAccessKeySecret c);
     j_ossEndpoint := Some (ossEndpoint c);
     j_ossBucketName := Some (ossBucketName c);
     j_ossFolder := Some (ossFolder c);
     j_promptHairstyle := Some (promptHairstyle c);
     j_promptAssembly := Some (promptAssembly c);
     j_promptReplacement := Some (promptReplacement c) |}.

(** [data/config.json] and the file of older versions, [data.json];
    [None] when the file does not exist. *)
Record ConfigFiles := {
  config_file : option PartialSettings;
  old_file : option PartialSettings;
}.

(** [DB.getConfig]: the configuration returned and the files as the call
    leaves them. *)
Definition getConfig (fs : ConfigFiles) : AppSettings * ConfigFiles :=
  match config_file fs with
  | None =>
      match old_file fs with
      | Some oldData =>
          (spread_settings DEFAULT_CONFIG oldData,
           {| config_file := Some oldData; old_file := old_file fs |})
      | None =>
          (DEFAULT_CONFIG,
           {| config_file := Some (settings_json DEFAULT_CONFIG);
              old_file := old_file fs |})
      end
  | Some json => (spread_settings DEFAULT_CONFIG json, fs)
  end.

(** [DB.saveConfig]. *)
Definition saveConfig (config : AppSettings) (fs : ConfigFiles) : ConfigFiles :=
  {| config_file := Some (settings_json config); old_file := old_file fs |}.

(** The handler of [POST /api/config]: save, then hand the limit of the
    body to the engine. *)
Definition post_config (body : AppSettings) (fs : ConfigFiles) (e : Engine)
  : ConfigFiles * (Engine * option (option string * GenerateRequest)) :=
  (saveConfig body fs, updateConcurrency (concurrency body) e).

(** The engine a restart builds: the field initialisers, then [init]
    with what [getConfig] returns. *)
Definition restart_engine (fs : ConfigFiles) : Engine :=
  init (fst (getConfig fs)) new_engine.

(** ** server/db.ts: task logs *)

(** The directory [data/logs]: the content of [<id>.log] by task id. *)
Abbreviation LogDir := (gmap string string).

(** [DB.addTaskLog]; [timestamp] is the clock reading of the call. *)
Definition appendTaskLog (timestamp taskId msg : string) (dir : LogDir) : LogDir :=
  <[taskId := default "" (dir !! taskId) +:+ "[" +:+ timestamp +:+ "] " +:+ msg
                +:+ String "010" ""]> dir.

(** [s.split(c)] for a single character. *)
Fixpoint split_on (c : ascii) (s : string) : list string :=
  match s with
  | EmptyString => [EmptyString]
  | String a rest =>
      if Ascii.eqb a c then EmptyString :: split_on c rest
      else match split_on c rest with
           | h :: t => String a h :: t
           | [] => [String a EmptyString]
           end
  end.

(** White space as [trim] sees it in ASCII text: tab, line feed,
    vertical tab, form feed, carriage return, space. *)
Definition is_space (a : ascii) : bool :=
  let n := nat_of_ascii a in
  ((9 <=? n) && (n <=? 13))%nat || Nat.eqb n 32.

(** [line.trim().length > 0]. *)
Fixpoint not_blank (line : string) : bool :=
  match line with
  | EmptyString => false
  | String a rest => negb (is_space a) || not_blank rest
  end.

Definition set_logs (t : TaskItem) (l : list string) : TaskItem :=
  {| task_id := task_id t; type := type t; status := status t;
     model := model t; inputImages := inputImages t;
     outputImages := outputImages t; startTime := startTime t;
     endTime := endTime t; duration := duration t;
     geekai_task_id := geekai_task_id t;
     error_message := error_message t; logs := Some l |}.

(** The callback of the [map] in [getTasks]. *)
Definition hydrate (dir : LogDir) (t : TaskItem) : TaskItem :=
  match dir !! task_id t with
  | Some logContent =>
      set_logs t (List.filter not_blank (split_on "010" logContent))
  | None => t
  end.

(** [DB.getTasks]. *)
Definition getTasks (file : TasksFile) (dir : LogDir) : list TaskItem :=
  match file with
  | None => []
  | Some tasks => map (hydrate dir) tasks
  end.

(** ** server/db.ts: the image catalogue *)

(** [images.json] and the files on disk (by path). *)
Record Catalogue := {
  images_file : option (list ImageItem);
  disk : gset string;
}.

Definition getImages (c : Catalogue) : list ImageItem :=
  default [] (images_file c).

Definition addImage (image : ImageItem) (c : Catalogue) : Catalogue :=
  {| images_file := Some (image :: default [] (images_file c)); disk := disk c |}.



(** ** server/index.ts: [POST /api/upload] *)

(** The record the handler builds for an uploaded file: [body_id] and
    [body_category] are the form fields, [now] is
    [Date.now().toString()]. *)
Definition uploaded_image (body_id body_category : option string)
    (now filename path name : string) : ImageItem :=
  {| img_id := or_else body_id now;
     img_url := "/files/inputs/" +:+ filename;
     local_path := path;
     img_name := name;
     category := Some (or_else body_category "uncategorized");
     selected := Some false |}.

(** ** Admission order *)

(** The [executeTask] calls a step makes. *)
Definition step_starts (s : System) (ev : Event)
  : list (option string * GenerateRequest) :=
  match ev with
  | Submit env req =>
      match validateRequest req with
      | (Some _, _) => []
      | (None, req1) =>
          start_of (snd (processQueue
            {| queue := queue (engine s) ++ [set_taskId req1 (new_task_id env)];
               activeCount := activeCount (engine s);
               maxConcurrency := maxConcurrency (engine s) |}))
      end
  | Settle k =>
      match running s !! k with
      | None => []
      | Some _ => start_of (snd (onSettled (engine s)))
      end
  | UpdateConcurrency limit => start_of (snd (updateConcurrency limit (engine s)))
  end.

(** All the [executeTask] calls of a run, in the order they are made. *)
Fixpoint run_starts (s : System) (evs : list Event)
  : list (option string * GenerateRequest) :=
  match evs with
  | [] => []
  | ev :: rest =>
      step_starts s ev ++
      match step s ev with
      | Some s' => run_starts s' rest
      | None => []
      end
  end.

(** The submissions of a run that pass validation, in order, each as it
    is queued: normalised and with its task id attached. *)
Fixpoint accepted (evs : list Event) : list (option string * GenerateRequest) :=
  match evs with
  | [] => []
  | Submit env req :: rest =>
      match validateRequest req with
      | (None, req1) =>
          (Some (new_task_id env), set_taskId req1 (new_task_id env)) :: accepted rest
      | (Some _, _) => accepted rest
      end
  | _ :: rest => accepted rest
  end.

(** The queue as the calls it will give rise to. *)
Definition waiting (s : System) : list (option string * GenerateRequest) :=
  map (fun req => (_taskId req, req)) (queue (engine s)).

(** ** The front end: types.ts and App.tsx *)

(** [MODEL_CONFIGS]: for each model the aspect ratios and the sizes the
    selectors offer. *)
Definition NANO_RATIOS : list string :=
  ["Auto"; "1:1"; "2:3"; "3:2"; "4:3"; "3:4"; "4:5"; "5:4"; "16:9"; "9:16"; "21:9"].
Definition DOUBAO_RATIOS : list string :=
  ["Auto"; "1:1"; "4:3"; "3:4"; "16:9"; "9:16"; "3:2"; "2:3"; "21:9"].

Definition MODEL_CONFIGS : list (string * (list string * list string)) :=
  [ ("doubao-seedream-4.5", (DOUBAO_RATIOS, ["2K"; "4K"]));
    ("doubao-seedream-4.0", (DOUBAO_RATIOS, ["1K"; "2K"; "4K"]));
    ("jimeng_t2i_v40",
       (["Auto"; "1:1"; "4:3"; "16:9"; "3:2"; "21:9"], ["1K"; "2K"; "4K"]));
    ("nano-banana-hd", (NANO_RATIOS, ["4K"]));
    ("nano-banana", (NANO_RATIOS, ["1K"]));
    ("nano-banana-2", (NANO_RATIOS, ["1K"; "2K"; "4K"])) ].

(** A choice the selectors allow. *)
Definition offered (m sz ratio : string) : Prop :=
  exists ratios sizes,
    In (m, (ratios, sizes)) MODEL_CONFIGS /\ In ratio ratios /\ In sz sizes.

(** [s.replace(/<suf>$/, '')] for a literal suffix. *)
Fixpoint strip_suffix (suf s : string) : string :=
  if String.eqb s suf then EmptyString
  else match s with
       | EmptyString => EmptyString
       | String a rest => String a (strip_suffix suf rest)
       end.

Definition set_url (img : ImageItem) (u : string) : ImageItem :=
  {| img_id := img_id img; img_url := u; local_path := local_path img;
     img_name := img_name img; category := category img;
     selected := selected img |}.

Definition set_selected (img : ImageItem) (b : bool) : ImageItem :=
  {| img_id := img_id img; img_url := img_url img; local_path := local_path img;
     img_name := img_name img; category := category img;
     selected := Some b |}.

(** [i.selected] as a condition. *)
Definition is_selected (i : ImageItem) : bool :=
  match selected i with Some b => b | None => false end.

(** [resolveImg] of [fetchData]. *)
Definition resolveImg (apiEndpoint : string) (img : ImageItem) : ImageItem :=
  if falsy (img_url img) then img
  else if starts_with "http" (img_url img) then img
  else set_url img (strip_suffix "/api" apiEndpoint +:+ img_url img).

(** [mergePreservingSelection]. *)
Definition mergePreservingSelection (prevItems newItems : list ImageItem)
  : list ImageItem :=
  let selectedIds : gset string :=
    list_to_set (map img_id (List.filter is_selected prevItems)) in
  map (fun item => set_selected item (bool_decide (img_id item ∈ selectedIds)))
      newItems.

(** The state update of [fetchData] for the input grid of one category. *)
Definition refresh_grid (cat : string) (prev allImages : list ImageItem)
  : list ImageItem :=
  mergePreservingSelection prev (List.filter (has_category cat) allImages).

(** [resolvedTasks] of [fetchData]. *)
Definition resolve_task (apiEndpoint : string) (t : TaskItem) : TaskItem :=
  {| task_id := task_id t; type := type t; status := status t;
     model := model t;
     inputImages := map (resolveImg apiEndpoint) (inputImages t);
     outputImages := map (resolveImg apiEndpoint) (outputImages t);
     startTime := startTime t; endTime := endTime t; duration := duration t;
     geekai_task_id := geekai_task_id t;
     error_message := error_message t; logs := logs t |}.

(** The three output lists [fetchData] fills from the tasks:
    [newHairOut], [newAsmOut], [newRepOut]. *)
Record Outputs := {
  newHairOut : list ImageItem;
  newAsmOut : list ImageItem;
  newRepOut : list ImageItem;
}.

(** The callback of [resolvedTasks.forEach]. *)
Definition distribute_task (acc : Outputs) (t : TaskItem) : Outputs :=
  if bool_decide (status t = completed) then
    if str_eq (type t) "HAIRSTYLE EXTRACTION" then
      {| newHairOut := newHairOut acc ++ outputImages t;
         newAsmOut := newAsmOut acc; newRepOut := newRepOut acc |}
    else if str_eq (type t) "DOLL ASSEMBLY" then
      {| newHairOut := newHairOut acc;
         newAsmOut := newAsmOut acc ++ outputImages t; newRepOut := newRepOut acc |}
    else if str_eq (type t) "DOLL REPLACEMENT" then
      {| newHairOut := newHairOut acc; newAsmOut := newAsmOut acc;
         newRepOut := newRepOut acc ++ outputImages t |}
    else acc
  else acc.

Definition distribute (tasks : list TaskItem) : Outputs :=
  fold_left distribute_task tasks
    {| newHairOut := []; newAsmOut := []; newRepOut := [] |}.

(** The output list the front end keeps for a stage. *)
Definition outputs_of_stage (stage : string) (o : Outputs) : list ImageItem :=
  if str_eq stage WorkflowStage.HAIRSTYLE_EXTRACTION then newHairOut o
  else if str_eq stage WorkflowStage.DOLL_ASSEMBLY then newAsmOut o
  else if str_eq stage WorkflowStage.DOLL_REPLACEMENT then newRepOut o
  else [].

(** [handleSelect] of the image grid. *)
Definition handleSelect (id : string) (prev : list ImageItem) : list ImageItem :=
  map (fun img => if str_eq (img_id img) id
                  then set_selected img (negb (is_selected img)) else img) prev.

(** The three values of [connectionStatus]. *)
Inductive ConnectionStatus := Connected | Disconnected | Checking.

#[global] Instance ConnectionStatus_eq_dec : EqDecision ConnectionStatus.
Proof. solve_decision. Defined.

(** [handleGenerate]: the request posted to [/api/generate], or [None]
    when the handler returns after an alert. *)
Definition handleGenerate (connectionStatus : ConnectionStatus) (st : AppSettings)
    (stage model size aspectRatio : string) (selectedInputs : list ImageItem)
  : option GenerateRequest :=
  if bool_decide (connectionStatus = Disconnected) then None
  else if falsy (geekaiApiKey st) then None
  else Some {| stage := stage; req_model := model; size := size;
               aspect_ratio := aspectRatio; input_images := selectedInputs;
               settings := st; _taskId := None |}.

(** The part of the state of [App] the generate buttons read. *)
Record AppState := {
  connectionStatus : ConnectionStatus;
  app_settings : AppSettings;
  hairRefImages : list ImageItem;
  hairMannequinImages : list ImageItem;
  assemblyHairImages : list ImageItem;
  assemblyBodyImages : list ImageItem;
  assemblyClothImages : list ImageItem;
  replaceRefImages : list ImageItem;
  replaceProdImages : list ImageItem;
}.

Definition first_selected (l : list ImageItem) : option ImageItem :=
  List.find is_selected l.

Definition onGenerateHair (a : AppState) (model size ratio : string)
  : option GenerateRequest :=
  match first_selected (hairRefImages a), first_selected (hairMannequinImages a) with
  | Some ref, Some man =>
      handleGenerate (connectionStatus a) (app_settings a)
        WorkflowStage.HAIRSTYLE_EXTRACTION model size ratio [ref; man]
  | _, _ => None
  end.

Definition onGenerateAssembly (a : AppState) (model size ratio : string)
  : option GenerateRequest :=
  match first_selected (assemblyHairImages a), first_selected (assemblyBodyImages a),
        first_selected (assemblyClothImages a) with
  | Some hair, Some body, Some cloth =>
      handleGenerate (connectionStatus a) (app_settings a)
        WorkflowStage.DOLL_ASSEMBLY model size ratio [hair; body; cloth]
  | _, _, _ => None
  end.

Definition onGenerateReplace (a : AppState) (model size ratio : string)
  : option GenerateRequest :=
  match first_selected (replaceRefImages a), first_selected (replaceProdImages a) with
  | Some ref, Some prod =>
      handleGenerate (connectionStatus a) (app_settings a)
        WorkflowStage.DOLL_REPLACEMENT model size ratio [ref; prod]
  | _, _ => None
  end.

(** The grids hold what [fetchData] put there: each list is a refresh of
    its category, possibly followed by selection clicks. *)
Definition grids_by_category (a : AppState) : Prop :=
  Forall (fun i => category i = Some "hair-ref") (hairRefImages a)
  /\ Forall (fun i => category i = Some "hair-mannequin") (hairMannequinImages a)
  /\ Forall (fun i => category i = Some "asm-hair") (assemblyHairImages a)
  /\ Forall (fun i => category i = Some "asm-body") (assemblyBodyImages a)
  /\ Forall (fun i => category i = Some "asm-cloth") (assemblyClothImages a)
  /\ Forall (fun i => category i = Some "rep-ref") (replaceRefImages a)
  /\ Forall (fun i => category i = Some "rep-prod") (replaceProdImages a).

(** ** The front end: components/ImageGrid.tsx *)

Definition ITEMS_PER_PAGE : nat := 20.

(** [Math.ceil(images.length / ITEMS_PER_PAGE)]. *)
Definition totalPages {A} (images : list A) : nat :=
  (length images + (ITEMS_PER_PAGE - 1)) / ITEMS_PER_PAGE.

(** [images.slice(start, end)] for indices within [0 <= start <= end]. *)
Definition slice {A} (start stop : nat) (l : list A) : list A :=
  take (stop - start) (drop start l).

(** [currentImages] for the page [currentPage], counted from 1. *)
Definition currentImages {A} (images : list A) (currentPage : nat) : list A :=
  let start := ((currentPage - 1) * ITEMS_PER_PAGE)%nat in
  slice start (start + ITEMS_PER_PAGE) images.

(** The pages 1 to [n], one after the other. *)
Fixpoint pages_upto {A} (images : list A) (n : nat) : list A :=
  match n with
  | O => []
  | S n' => pages_upto images n' ++ currentImages images (S n')
  end.

(** ** Reading the pipeline *)




(** The output record [executeTask] stores for a downloaded file. *)
Definition output_image (env : Env) (localPath : string) : ImageItem :=
  {| img_id := "out-" +:+ env_dateNow env;
     img_url := "/files/" +:+ basename localPath;
     local_path := localPath;
     img_name := basename localPath;
     category := None;
     selected := Some false |}.

(** An update that leaves the identity of a record alone: its id, type,
    model, input images and start time. *)
Definition keeps_identity (u : TaskUpdate) : Prop :=
  u_id u = None /\ u_type u = None /\ u_model u = None
  /\ u_inputImages u = None /\ u_startTime u = None.

Definition same_identity (t0 t : TaskItem) : Prop :=
  task_id t = task_id t0 /\ type t = type t0 /\ model t = model t0
  /\ inputImages t = inputImages t0 /\ startTime t = startTime t0.

(** The history [f] is the history [f0] with changes to records of
    [taskId] only, none of them to the identity of a record. *)
Definition only_touches (taskId : string) (f0 f : TasksFile) : Prop :=
  match f0, f with
  | None, None => True
  | Some l0, Some l =>
      Forall2 (fun t0 t => same_identity t0 t /\ (task_id t0 <> taskId -> t = t0)) l0 l
  | _, _ => False
  end.

(** ** Reading the task logs *)

(** [s.includes(c)]. *)
Fixpoint has_char (c : ascii) (s : string) : bool :=
  match s with
  | EmptyString => false
  | String a rest => Ascii.eqb a c || has_char c rest
  end.

(** The text of a log line without its line feed. *)
Definition log_line (entry : string * string) : string :=
  "[" +:+ fst entry +:+ "] " +:+ snd entry.

(** A sequence of [addTaskLog] calls for one task, each with its clock
    reading and its message. *)
Definition appendTaskLogs (taskId : string) (entries : list (string * string))
    (dir : LogDir) : LogDir :=
  fold_left (fun d entry => appendTaskLog (fst entry) taskId (snd entry) d) entries dir.

Definition single_line (entry : string * string) : Prop :=
  has_char "010" (fst entry) = false /\ has_char "010" (snd entry) = false.

(** ** Reading a request *)

(** The seven category tags the validation rules look for. *)
Definition role_tags : list string :=
  ["hair-ref"; "hair-mannequin"; "asm-hair"; "asm-body"; "asm-cloth";
   "rep-ref"; "rep-prod"].

(** An image that plays no role in any stage. *)
Definition foreign (i : ImageItem) : Prop :=
  forall c, In c role_tags -> category i <> Some c.

(** The request with another choice in the aspect ratio selector. *)
Definition with_ratio (req : GenerateRequest) (r : string) : GenerateRequest :=
  {| stage := stage req; req_model := req_model req; size := size req;
     aspect_ratio := r; input_images := input_images req;
     settings := settings req; _taskId := _taskId req |}.

(** The three places where [constructPayload] puts an aspect ratio,
    read against the payload [p0] of the same request with [Auto]. *)
Definition ratio_in_field (r : string) (p0 p : Payload) : Prop :=
  p_aspect_ratio p = Some r /\ p_prompt p = p_prompt p0 /\ p_size p = p_size p0.

Definition ratio_in_prompt (r : string) (p0 p : Payload) : Prop :=
  p_prompt p = p_prompt p0 +:+ " --ratio " +:+ r
  /\ p_aspect_ratio p = None /\ p_size p = p_size p0.

Definition ratio_in_size (r : string) (p0 p : Payload) : Prop :=
  lookup_2K r <> None /\ p_size p = lookup_2K r
  /\ p_aspect_ratio p = None /\ p_prompt p = p_prompt p0.








(** ** Reading the front end *)

(** The output images of the completed tasks stored under [label], in
    the order of the history. *)
Definition completed_of (label : string) (tasks : list TaskItem) : list ImageItem :=
  flat_map outputImages
    (List.filter (fun t => bool_decide (status t = completed) && str_eq (type t) label)
       tasks).

(** A front end state after a refresh and two selection clicks. *)
Definition sample_app : AppState :=
  let all := [img_ref; img_hair; sample_image "ref2.jpg" "rep-ref"; img_prod] in
  {| connectionStatus := Connected;
     app_settings := sample_settings;
     hairRefImages := refresh_grid "hair-ref" [] all;
     hairMannequinImages := refresh_grid "hair-mannequin" [] all;
     assemblyHairImages := refresh_grid "asm-hair" [] all;
     assemblyBodyImages := refresh_grid "asm-body" [] all;
     assemblyClothImages := refresh_grid "asm-cloth" [] all;
     replaceRefImages := handleSelect "ref2.jpg" (refresh_grid "rep-ref" [] all);
     replaceProdImages := handleSelect "prod.jpg" (refresh_grid "rep-prod" [] all) |}.

(** ** The selectors of a section (components/PromptModal.tsx) *)

(** The three pieces of state behind the selectors of one section. *)
Record Selectors := {
  sel_model : string;
  sel_size : string;
  sel_ratio : string;
}.

(** The initial state: [AIModel.NANO_BANANA] with its default size and
    ratio. *)
Definition initial_selectors : Selectors :=
  {| sel_model := "nano-banana"; sel_size := "1K"; sel_ratio := "Auto" |}.

Inductive SelectorEvent :=
  | ModelChange (m : string)
  | SizeChange (s : string)
  | AspectRatioChange (r : string).

(** [MODEL_CONFIGS[selectedModel]]. *)
Definition currentConfig (st : Selectors) : option (list string * list string) :=
  snd <$> List.find (fun kv => str_eq (fst kv) (sel_model st)) MODEL_CONFIGS.

(** The options the three [select] elements list. *)
Definition listed (st : Selectors) (ev : SelectorEvent) : Prop :=
  match ev with
  | ModelChange m => In m (map fst MODEL_CONFIGS)
  | SizeChange s => exists cfg, currentConfig st = Some cfg /\ In s (snd cfg)
  | AspectRatioChange r => exists cfg, currentConfig st = Some cfg /\ In r (fst cfg)
  end.

(** The handlers [App] passes: the plain state setters. *)
Definition select (st : Selectors) (ev : SelectorEvent) : Selectors :=
  match ev with
  | ModelChange m =>
      {| sel_model := m; sel_size := sel_size st; sel_ratio := sel_ratio st |}
  | SizeChange s =>
      {| sel_model := sel_model st; sel_size := s; sel_ratio := sel_ratio st |}
  | AspectRatioChange r =>
      {| sel_model := sel_model st; sel_size := sel_size st; sel_ratio := r |}
  end.

(** The states a user can bring the selectors to. *)
Inductive selectable : Selectors -> Prop :=
  | selectable_initial : selectable initial_selectors
  | selectable_select st ev :
      selectable st -> listed st ev -> selectable (select st ev).

(** Four changes from the initial state: the model to [nano-banana-2],
    the size to 2K, the ratio to 4:5, the model to
    [doubao-seedream-4.5]. *)
Definition mixed_selection : Selectors :=
  select (select (select (select initial_selectors
    (ModelChange "nano-banana-2")) (SizeChange "2K")) (AspectRatioChange "4:5"))
    (ModelChange "doubao-seedream-4.5").

(** [handleSelectAll] of the image grid; [current] is [currentImages]. *)
Definition handleSelectAll (current prev : list ImageItem) : list ImageItem :=
  let allSelected := forallb is_selected current in
  map (fun img =>
         if existsb (fun c => str_eq (img_id c) (img_id img)) current
         then set_selected img (negb allSelected) else img) prev.

(** [allImages] of [fetchData]: the answer of [GET /api/images] with the
    URLs resolved. *)
Definition fetched_images (apiEndpoint : string) (c : Catalogue) : list ImageItem :=
  map (resolveImg apiEndpoint) (getImages c).

(** The record of a task once its pipeline has ended well. *)
Definition settled_completed (env : Env) (t : TaskItem) : Prop :=
  status t = completed
  /\ (exists localPath, outputImages t = [output_image env localPath])
  /\ endTime t = Some (env_localeNow env)
  /\ exists d, duration t = Some d.

(** The record of a task once its pipeline has ended with an error. *)
Definition settled_failed (env : Env) (t : TaskItem) : Prop :=
  status t = failed
  /\ endTime t = Some (env_localeNow env)
  /\ exists msg, error_message t = Some msg /\ msg <> "".

(** The history has a record for [taskId] with the identity of [t0]. *)
Definition has_record (taskId : string) (t0 : TaskItem) (f : TasksFile) : Prop :=
  exists t, find_task taskId (default [] f) = Some t /\ same_identity t0 t.
(** * Properties *)

(** ** Validation *)



Lemma falsy_false (s : string) : falsy s = false <-> s <> "".
Proof. unfold falsy. apply bool_decide_eq_false. Qed.

Lemma len_ne_1_false (l : list ImageItem) : len_ne_1 l = false <-> length l = 1%nat.
Proof.
  unfold len_ne_1. rewrite negb_false_iff. apply Nat.eqb_eq.
Qed.

(** The filter the code runs is the count the specification speaks of. *)
Lemma tagged_filter (c : string) (imgs : list ImageItem) :
  length (List.filter (has_category c) imgs) = tagged c imgs.
Proof.
  induction imgs as [|i imgs IH]; simpl; [reflexivity|].
  unfold has_category at 1.
  destruct (category i) as [c'|] eqn:Hc.
  - destruct (String.eqb_spec c' c) as [->|Hne].
    + rewrite bool_decide_eq_true_2 by reflexivity. simpl. now rewrite IH.
    + rewrite bool_decide_eq_false_2 by congruence. exact IH.
  - rewrite bool_decide_eq_false_2 by congruence. exact IH.
Qed.

Lemma singleton_of_length_1 {A} (l : list A) :
  length l = 1%nat -> exists x, l = [x].
Proof. destruct l as [|x [|y l]]; simpl; try discriminate. eauto. Qed.

Lemma filter_singleton (c : string) (imgs : list ImageItem) :
  length (List.filter (has_category c) imgs) = 1%nat ->
  exists x, List.filter (has_category c) imgs = [x]
            /\ category x = Some c /\ In x imgs.
Proof.
  intros H. destruct (singleton_of_length_1 _ H) as [x Hx].
  exists x. split; [exact Hx|].
  assert (Hin : In x (List.filter (has_category c) imgs)) by (rewrite Hx; now left).
  apply filter_In in Hin. destruct Hin as [Hin Hcat].
  unfold has_category in Hcat. apply bool_decide_eq_true in Hcat. auto.
Qed.

Lemma filter_Permutation_bool {A} (f : A -> bool) (l l' : list A) :
  Permutation l l' -> Permutation (List.filter f l) (List.filter f l').
Proof.
  induction 1 as [|x l l' _ IH|x y l|l l' l'' _ IH1 _ IH2]; simpl.
  - constructor.
  - destruct (f x); [now constructor | exact IH].
  - destruct (f x), (f y); try reflexivity. apply perm_swap.
  - now transitivity (List.filter f l').
Qed.

(** A filter that keeps exactly one image keeps the same one whatever
    the order of the input. *)
Lemma filter_unique_order (c : string) (l l' : list ImageItem) :
  Permutation l l' ->
  length (List.filter (has_category c) l) = 1%nat ->
  List.filter (has_category c) l' = List.filter (has_category c) l.
Proof.
  intros HP H1. destruct (singleton_of_length_1 _ H1) as [x Hx].
  pose proof (filter_Permutation_bool (has_category c) _ _ HP) as HPf.
  rewrite Hx in HPf |- *. now apply Permutation_length_1_inv.
Qed.

Lemma filter_length_order (c : string) (l l' : list ImageItem) :
  Permutation l l' ->
  length (List.filter (has_category c) l') = length (List.filter (has_category c) l).
Proof.
  intros HP. symmetry. apply Permutation_length.
  now apply filter_Permutation_bool.
Qed.

Ltac split_guards :=
  repeat match goal with
    | H : context [if falsy ?s then _ else _] |- _ =>
        let E := fresh "E" in destruct (falsy s) eqn:E
    | H : context [if str_eq ?a ?b then _ else _] |- _ =>
        let E := fresh "E" in destruct (str_eq a b) eqn:E
    | H : context [if ?a || ?b then _ else _] |- _ =>
        let E := fresh "E" in destruct (a || b) eqn:E
    | |- context [if falsy ?s then _ else _] =>
        let E := fresh "E" in destruct (falsy s) eqn:E
    | |- context [if str_eq ?a ?b then _ else _] =>
        let E := fresh "E" in destruct (str_eq a b) eqn:E
    | |- context [if ?a || ?b then _ else _] =>
        let E := fresh "E" in destruct (a || b) eqn:E
    end.

Lemma str_eq_true (a b : string) : str_eq a b = true <-> a = b.
Proof. unfold str_eq. apply bool_decide_eq_true. Qed.

Lemma str_eq_false (a b : string) : str_eq a b = false <-> a <> b.
Proof. unfold str_eq. apply bool_decide_eq_false. Qed.

(** Every error [validateRequest] returns is one of its seven messages,
    and the request object is left as it was. *)
Lemma validateRequest_error (req r : GenerateRequest) (e : string) :
  validateRequest req = (Some e, r) -> In e validation_messages /\ r = req.
Proof.
  unfold validateRequest, validation_messages. intros H.
  split_guards; inversion H; subst; simpl; auto 10.
Qed.

(** A request that passes satisfies the rules of the specification. *)
Lemma validateRequest_ok_rules (req r : GenerateRequest) :
  validateRequest req = (None, r) -> required_present req /\ composition_ok req.
Proof.
  unfold validateRequest, required_present, composition_ok.
  unfold WorkflowStage.HAIRSTYLE_EXTRACTION, WorkflowStage.DOLL_ASSEMBLY,
    WorkflowStage.DOLL_REPLACEMENT.
  intros H. split_guards; try discriminate;
    repeat match goal with
      | E : falsy _ = false |- _ => apply falsy_false in E
      | E : str_eq _ _ = true |- _ => apply str_eq_true in E
      | E : str_eq _ _ = false |- _ => apply str_eq_false in E
      | E : _ || _ = false |- _ => apply orb_false_elim in E; destruct E
      | E : len_ne_1 _ = false |- _ =>
          apply len_ne_1_false in E; rewrite tagged_filter in E
      end;
    (split; [tauto|]);
    repeat split; intros; try congruence; auto.
Qed.

(** A request that satisfies the rules passes. *)
Lemma validateRequest_rules_ok (req : GenerateRequest) :
  required_present req -> composition_ok req ->
  exists r, validateRequest req = (None, r).
Proof.
  unfold required_present, composition_ok.
  intros (Hk & Hm & Hs & Ha) (Hh & Hd & Hr).
  unfold validateRequest.
  rewrite (proj2 (falsy_false _) Hk), (proj2 (falsy_false _) Hm),
    (proj2 (falsy_false _) Hs), (proj2 (falsy_false _) Ha).
  cbv zeta. unfold len_ne_1. rewrite !tagged_filter.
  unfold WorkflowStage.HAIRSTYLE_EXTRACTION, WorkflowStage.DOLL_ASSEMBLY,
    WorkflowStage.DOLL_REPLACEMENT.
  destruct (str_eq (stage req) "hairstyle_extraction") eqn:E1.
  { apply str_eq_true in E1. destruct (Hh E1) as [-> ->]. simpl. eauto. }
  destruct (str_eq (stage req) "doll_assembly") eqn:E2.
  { apply str_eq_true in E2. destruct (Hd E2) as (-> & -> & ->). simpl. eauto. }
  destruct (str_eq (stage req) "doll_replacement") eqn:E3.
  { apply str_eq_true in E3. destruct (Hr E3) as [-> ->]. simpl. eauto. }
  eauto.
Qed.

Lemma submitTask_rejects (env : SubmitEnv) (req r : GenerateRequest)
    (s : System) (e : string) :
  validateRequest req = (Some e, r) -> submitTask env req s = (inl e, s).
Proof. intros H. unfold submitTask. now rewrite H. Qed.

Lemma submitTask_accepts (env : SubmitEnv) (req r : GenerateRequest) (s : System) :
  validateRequest req = (None, r) ->
  exists s', submitTask env req s = (inr (newTask env r), s')
             /\ tasksFile s' = Some (newTask env r :: default [] (tasksFile s))
             /\ (engine s', running s') =
                (let '(e, st) :=
                   processQueue
                     {| queue := queue (engine s) ++ [set_taskId r (new_task_id env)];
                        activeCount := activeCount (engine s);
                        maxConcurrency := maxConcurrency (engine s) |} in
                 (e, (running s ++ start_of st)%list)).
Proof.
  intros H. unfold submitTask. rewrite H.
  destruct (processQueue _) as [e st] eqn:Hp.
  eexists. split; [reflexivity|]. simpl. split; reflexivity.
Qed.


(** ** Submission *)

(** C3. A submission that violates a validation rule (an empty
    credential, model, size or aspect ratio, or a wrong image
    composition for its stage) is rejected with one of the validation
    messages, none of which is empty, and leaves the whole system as it
    was: the stored history, the queue, the counter and the pipelines
    in flight. *)
Theorem submit_invalid_rejected (env : SubmitEnv) (req : GenerateRequest) (s : System) :
  violates_rules req ->
  exists msg,
    submitTask env req s = (inl msg, s)
    /\ In msg validation_messages /\ msg <> ""
    /\ tasksFile (snd (submitTask env req s)) = tasksFile s
    /\ queue (engine (snd (submitTask env req s))) = queue (engine s).
Proof.
  intros Hv. destruct (validateRequest req) as [[e|] r] eqn:Hval.
  - destruct (validateRequest_error _ _ _ Hval) as [Hin _].
    exists e. rewrite (submitTask_rejects env _ _ s _ Hval). simpl.
    repeat split; auto.
    unfold validation_messages in Hin. simpl in Hin.
    intros ->. repeat (destruct Hin as [Hin|Hin]; [discriminate Hin|]). exact Hin.
  - exfalso. apply Hv. eapply validateRequest_ok_rules; eauto.
Qed.

Lemma submit_invalid_rejected_witness :
  violates_rules bad_hair_request /\
  exists msg,
    submitTask (sample_env 1) bad_hair_request empty_system = (inl msg, empty_system)
    /\ In msg validation_messages /\ msg <> ""
    /\ tasksFile (snd (submitTask (sample_env 1) bad_hair_request empty_system))
       = tasksFile empty_system
    /\ queue (engine (snd (submitTask (sample_env 1) bad_hair_request empty_system)))
       = queue (engine empty_system).
Proof.
  assert (Hv : violates_rules bad_hair_request).
  { intros [_ (Hh & _)]. destruct (Hh eq_refl) as [H _]. vm_compute in H. discriminate H. }
  split; [exact Hv|].
  exact (submit_invalid_rejected (sample_env 1) bad_hair_request empty_system Hv).
Defined.

(** C4. For an accepted submission of one of the three stages, the
    stored [inputImages] is the role order of the stage, each position
    holding the supplied image of that role, whatever the order the
    images were supplied in: submitting any reordering of the same
    images gives the same record and the same system. *)
Theorem submit_normalizes_order (env : SubmitEnv) (req : GenerateRequest)
    (s s' : System) (task : TaskItem) :
  submitTask env req s = (inr task, s') ->
  known_stage (stage req) ->
  (stage req = "hairstyle_extraction" ->
   exists r m, inputImages task = [r; m]
     /\ category r = Some "hair-ref" /\ category m = Some "hair-mannequin"
     /\ In r (input_images req) /\ In m (input_images req))
  /\ (stage req = "doll_assembly" ->
   exists h b c, inputImages task = [h; b; c]
     /\ category h = Some "asm-hair" /\ category b = Some "asm-body"
     /\ category c = Some "asm-cloth"
     /\ In h (input_images req) /\ In b (input_images req) /\ In c (input_images req))
  /\ (stage req = "doll_replacement" ->
   exists r p, inputImages task = [r; p]
     /\ category r = Some "rep-ref" /\ category p = Some "rep-prod"
     /\ In r (input_images req) /\ In p (input_images req))
  /\ (forall imgs', Permutation (input_images req) imgs' ->
        submitTask env (set_input_images req imgs') s = (inr task, s')).
Proof.
  intros Hsub Hknown.
  unfold submitTask in Hsub |- *.
  destruct (validateRequest req) as [[e|] r1] eqn:Hval; [discriminate Hsub|].
  assert (Hperm : forall imgs', Permutation (input_images req) imgs' ->
            validateRequest (set_input_images req imgs') = (None, r1)).
  { intros imgs' HP. revert Hval. unfold validateRequest. simpl.
    unfold WorkflowStage.HAIRSTYLE_EXTRACTION, WorkflowStage.DOLL_ASSEMBLY,
      WorkflowStage.DOLL_REPLACEMENT.
    destruct (falsy (geekaiApiKey (settings req))); [discriminate|].
    destruct (falsy (req_model req)); [discriminate|].
    destruct (falsy (size req)); [discriminate|].
    destruct (falsy (aspect_ratio req)); [discriminate|].
    unfold len_ne_1. rewrite !(filter_length_order _ _ _ HP).
    destruct (str_eq (stage req) "hairstyle_extraction") eqn:E1.
    { destruct (Nat.eqb_spec
                  (length (List.filter (has_category "hair-ref") (input_images req))) 1)
        as [H1|];
        [|discriminate].
      destruct (Nat.eqb_spec
                  (length (List.filter (has_category "hair-mannequin") (input_images req))) 1)
        as [H2|];
        [|discriminate].
      simpl. rewrite (filter_unique_order _ _ _ HP H1), (filter_unique_order _ _ _ HP H2).
      intros E; inversion E; reflexivity. }
    destruct (str_eq (stage req) "doll_assembly") eqn:E2.
    { destruct (Nat.eqb_spec
                  (length (List.filter (has_category "asm-hair") (input_images req))) 1)
        as [H1|];
        [|discriminate].
      destruct (Nat.eqb_spec
                  (length (List.filter (has_category "asm-body") (input_images req))) 1)
        as [H2|];
        [|discriminate].
      destruct (Nat.eqb_spec
                  (length (List.filter (has_category "asm-cloth") (input_images req))) 1)
        as [H3|];
        [|discriminate].
      simpl. rewrite (filter_unique_order _ _ _ HP H1), (filter_unique_order _ _ _ HP H2),
        (filter_unique_order _ _ _ HP H3).
      intros E; inversion E; reflexivity. }
    destruct (str_eq (stage req) "doll_replacement") eqn:E3.
    { destruct (Nat.eqb_spec
                  (length (List.filter (has_category "rep-ref") (input_images req))) 1)
        as [H1|];
        [|discriminate].
      destruct (Nat.eqb_spec
                  (length (List.filter (has_category "rep-prod") (input_images req))) 1)
        as [H2|];
        [|discriminate].
      simpl. rewrite (filter_unique_order _ _ _ HP H1), (filter_unique_order _ _ _ HP H2).
      intros E; inversion E; reflexivity. }
    apply str_eq_false in E1, E2, E3.
    exfalso. destruct Hknown as [H|[H|H]]; congruence. }
  destruct (processQueue _) as [e2 started] eqn:Hpq.
  inversion Hsub; subst task s'; clear Hsub.
  assert (Himgs : inputImages (newTask env r1) = input_images r1) by reflexivity.
  rewrite Himgs.
  unfold validateRequest in Hval.
  unfold WorkflowStage.HAIRSTYLE_EXTRACTION, WorkflowStage.DOLL_ASSEMBLY,
    WorkflowStage.DOLL_REPLACEMENT in Hval.
  destruct (falsy (geekaiApiKey (settings req))); [discriminate|].
  destruct (falsy (req_model req)); [discriminate|].
  destruct (falsy (size req)); [discriminate|].
  destruct (falsy (aspect_ratio req)); [discriminate|].
  cbv zeta in Hval.
  repeat split.
  - intros Hst. rewrite Hst in Hval. simpl in Hval.
    destruct (len_ne_1 _) eqn:L1 in Hval; [discriminate|].
    destruct (len_ne_1 _) eqn:L2 in Hval; [discriminate|].
    apply len_ne_1_false in L1, L2.
    destruct (filter_singleton _ _ L1) as (r & Hr & Hrc & Hri).
    destruct (filter_singleton _ _ L2) as (m & Hm & Hmc & Hmi).
    simpl in Hval. inversion Hval; subst r1. simpl.
    exists r, m. rewrite Hr, Hm. auto.
  - intros Hst. rewrite Hst in Hval. simpl in Hval.
    destruct (len_ne_1 _) eqn:L1 in Hval; [discriminate|].
    destruct (len_ne_1 _) eqn:L2 in Hval; [discriminate|].
    destruct (len_ne_1 _) eqn:L3 in Hval; [discriminate|].
    apply len_ne_1_false in L1, L2, L3.
    destruct (filter_singleton _ _ L1) as (h & Hh & Hhc & Hhi).
    destruct (filter_singleton _ _ L2) as (b & Hb & Hbc & Hbi).
    destruct (filter_singleton _ _ L3) as (c & Hc & Hcc & Hci).
    simpl in Hval. inversion Hval; subst r1. simpl.
    exists h, b, c. rewrite Hh, Hb, Hc. auto 10.
  - intros Hst. rewrite Hst in Hval. simpl in Hval.
    destruct (len_ne_1 _) eqn:L1 in Hval; [discriminate|].
    destruct (len_ne_1 _) eqn:L2 in Hval; [discriminate|].
    apply len_ne_1_false in L1, L2.
    destruct (filter_singleton _ _ L1) as (r & Hr & Hrc & Hri).
    destruct (filter_singleton _ _ L2) as (p & Hp & Hpc & Hpi).
    simpl in Hval. inversion Hval; subst r1. simpl.
    exists r, p. rewrite Hr, Hp. auto.
  - intros imgs' HP. rewrite (Hperm imgs' HP). simpl in Hpq |- *.
    rewrite Hpq. reflexivity.
Qed.

Lemma submit_normalizes_order_witness :
  submitTask (sample_env 1) reversed_request empty_system
  = (inr (newTask (sample_env 1) (set_input_images reversed_request [img_ref; img_prod])),
     snd (submitTask (sample_env 1) reversed_request empty_system))
  /\ known_stage (stage reversed_request)
  /\ submitTask (sample_env 1)
       (set_input_images reversed_request [img_ref; img_prod]) empty_system
     = (inr (newTask (sample_env 1) (set_input_images reversed_request [img_ref; img_prod])),
        snd (submitTask (sample_env 1) reversed_request empty_system)).
Proof.
  assert (H1 : submitTask (sample_env 1) reversed_request empty_system
    = (inr (newTask (sample_env 1) (set_input_images reversed_request [img_ref; img_prod])),
       snd (submitTask (sample_env 1) reversed_request empty_system)))
    by (vm_compute; reflexivity).
  assert (H2 : known_stage (stage reversed_request))
    by (right; right; reflexivity).
  split; [exact H1|]. split; [exact H2|].
  apply (proj2 (proj2 (proj2
           (submit_normalizes_order _ _ _ _ _ H1 H2)))).
  apply perm_swap.
Defined.

(** ** Admission, one call at a time *)

Lemma processQueue_cases (e : Engine) :
  (processQueue e = (e, None)
   /\ (queue e = [] \/ maxConcurrency e <= activeCount e))
  \/ (exists req rest,
        queue e = req :: rest /\ activeCount e < maxConcurrency e
        /\ processQueue e =
           ({| queue := rest; activeCount := activeCount e + 1;
               maxConcurrency := maxConcurrency e |},
            Some (_taskId req, req))).
Proof.
  unfold processQueue.
  destruct (queue e) as [|req rest] eqn:Hq; simpl.
  - left. auto.
  - destruct (Z.geb_spec (activeCount e) (maxConcurrency e)) as [Hge|Hlt].
    + left. split; [reflexivity|]. right. lia.
    + right. exists req, rest. repeat split; auto.
Qed.

(** C9. A request whose stage is none of the three known ones passes
    validation as soon as credential, model, size and aspect ratio are
    non-empty: no composition is checked and the request object is left
    as it is.  The submission is accepted, the record is stored at the
    front of the history with the image list exactly as supplied, and
    the request is queued (it sits in the queue, or was admitted from
    it at once). *)
Theorem unknown_stage_accepted (env : SubmitEnv) (req : GenerateRequest) (s : System) :
  ~ known_stage (stage req) ->
  required_present req ->
  validateRequest req = (None, req)
  /\ exists s',
       submitTask env req s = (inr (newTask env req), s')
       /\ inputImages (newTask env req) = input_images req
       /\ tasksFile s' = Some (newTask env req :: default [] (tasksFile s))
       /\ (In (set_taskId req (new_task_id env)) (queue (engine s'))
           \/ In (Some (new_task_id env), set_taskId req (new_task_id env))
                (running s')).
Proof.
  intros Hunk (Hk & Hm & Hs & Ha).
  assert (Hval : validateRequest req = (None, req)).
  { unfold validateRequest.
    rewrite (proj2 (falsy_false _) Hk), (proj2 (falsy_false _) Hm),
      (proj2 (falsy_false _) Hs), (proj2 (falsy_false _) Ha).
    unfold WorkflowStage.HAIRSTYLE_EXTRACTION, WorkflowStage.DOLL_ASSEMBLY,
      WorkflowStage.DOLL_REPLACEMENT. cbv zeta.
    unfold known_stage in Hunk.
    rewrite !(proj2 (str_eq_false _ _)) by tauto. reflexivity. }
  split; [exact Hval|].
  destruct (submitTask_accepts env req req s Hval) as (s' & Hsub & Hfile & Heng).
  exists s'. repeat split; auto.
  set (req2 := set_taskId req (new_task_id env)) in *.
  set (e1 := {| queue := queue (engine s) ++ [req2];
                activeCount := activeCount (engine s);
                maxConcurrency := maxConcurrency (engine s) |}) in *.
  destruct (processQueue_cases e1) as [[Hp _]|(r & rest & Hq & _ & Hp)];
    rewrite Hp in Heng; inversion Heng as [[He Hr]].
  - left. rewrite He. unfold e1. simpl. apply in_or_app. right. now left.
  - rewrite He, Hr. unfold e1 in Hq. simpl in Hq |- *.
    destruct (queue (engine s)) as [|q0 qs]; simpl in Hq; inversion Hq; subst.
    + right. apply in_or_app. right. left. reflexivity.
    + left. apply in_or_app. right. now left.
Qed.

Lemma unknown_stage_accepted_witness :
  ~ known_stage (stage unknown_request)
  /\ required_present unknown_request
  /\ validateRequest unknown_request = (None, unknown_request).
Proof.
  assert (H1 : ~ known_stage (stage unknown_request))
    by (intros [H|[H|H]]; discriminate H).
  assert (H2 : required_present unknown_request)
    by (repeat split; discriminate).
  split; [exact H1|]. split; [exact H2|].
  exact (proj1 (unknown_stage_accepted (sample_env 1) unknown_request empty_system H1 H2)).
Defined.



(** ** Startup recovery *)

Lemma existsb_false_all {A} (f : A -> bool) (l : list A) (i : nat) (x : A) :
  existsb f l = false -> l !! i = Some x -> f x = false.
Proof.
  intros Hex Hl. apply list_elem_of_lookup_2 in Hl. apply list_elem_of_In in Hl.
  destruct (f x) eqn:Hf; [|reflexivity].
  assert (existsb f l = true) by (apply existsb_exists; eauto). congruence.
Qed.

Lemma is_interrupted_true (t : TaskItem) :
  is_interrupted t = true <-> status t = pending \/ status t = processing.
Proof.
  unfold is_interrupted. destruct (status t); simpl; split; intros H;
    try reflexivity; try discriminate; auto;
    destruct H; discriminate.
Qed.

Lemma is_interrupted_false (t : TaskItem) :
  is_interrupted t = false <-> status t = completed \/ status t = failed.
Proof.
  unfold is_interrupted. destruct (status t); simpl; split; intros H;
    try reflexivity; try discriminate; auto;
    destruct H; discriminate.
Qed.

Lemma recovered_lookup (now : string) (tasks : list TaskItem) (i : nat) (t : TaskItem) :
  tasks !! i = Some t ->
  map (recover_task now) tasks !! i = Some (recover_task now t).
Proof.
  intros H. change (map (recover_task now) tasks) with (recover_task now <$> tasks).
  rewrite list_lookup_fmap, H. reflexivity.
Qed.

(** C5. After the recovery pass the history has the same length and,
    position by position: a task stored as pending or processing is now
    failed, carries an end time and the restart message, and keeps every
    other field; a task stored as completed or failed is the same
    record.  Without a history file the pass does nothing. *)
Theorem recoverState_marks_interrupted (now : string) (tasks : list TaskItem) :
  recoverState now None = None
  /\ exists tasks',
       recoverState now (Some tasks) = Some tasks'
       /\ length tasks' = length tasks
       /\ forall i t, tasks !! i = Some t ->
            ((status t = pending \/ status t = processing) ->
             exists t', tasks' !! i = Some t'
               /\ status t' = failed
               /\ endTime t' = Some now
               /\ error_message t' =
                  Some "System restarted during execution (Check logs for details)"
               /\ task_id t' = task_id t /\ type t' = type t
               /\ model t' = model t /\ inputImages t' = inputImages t
               /\ outputImages t' = outputImages t /\ startTime t' = startTime t
               /\ duration t' = duration t
               /\ geekai_task_id t' = geekai_task_id t /\ logs t' = logs t)
            /\ ((status t = completed \/ status t = failed) ->
                tasks' !! i = Some t).
Proof.
  split; [reflexivity|].
  unfold recoverState.
  destruct (existsb is_interrupted tasks) eqn:Hmod.
  - exists (map (recover_task now) tasks).
    split; [reflexivity|]. split; [apply length_map|].
    intros i t Hi. pose proof (recovered_lookup now _ _ _ Hi) as Hrec.
    split; intros Hst.
    + apply is_interrupted_true in Hst.
      exists (mark_interrupted now t).
      unfold recover_task in Hrec. rewrite Hst in Hrec.
      split; [exact Hrec|]. simpl. repeat split; reflexivity.
    + apply is_interrupted_false in Hst.
      unfold recover_task in Hrec. now rewrite Hst in Hrec.
  - exists tasks. split; [reflexivity|]. split; [reflexivity|].
    intros i t Hi. pose proof (existsb_false_all _ _ _ _ Hmod Hi) as Hnot.
    split; intros Hst.
    + apply is_interrupted_true in Hst. congruence.
    + exact Hi.
Qed.

Lemma recoverState_marks_interrupted_witness :
  stored_history !! 0%nat = Some (stored_task "task-3" processing)
  /\ recoverState "1/2/2026, 9:00:00 AM" (Some stored_history)
     = Some [ mark_interrupted "1/2/2026, 9:00:00 AM" (stored_task "task-3" processing);
              stored_task "task-2" completed;
              mark_interrupted "1/2/2026, 9:00:00 AM" (stored_task "task-1" pending) ]
  /\ exists t', status t' = failed
       /\ geekai_task_id t' = Some "remote-7"
       /\ error_message t' = Some RESTART_MESSAGE.
Proof.
  split; [reflexivity|]. split; [reflexivity|].
  destruct (recoverState_marks_interrupted "1/2/2026, 9:00:00 AM" stored_history)
    as (_ & tasks' & _ & _ & Hall).
  destruct (Hall 0%nat (stored_task "task-3" processing) eq_refl) as [Hint _].
  destruct (Hint (or_intror eq_refl))
    as (t' & _ & Hs & _ & He & _ & _ & _ & _ & _ & _ & _ & Hg & _).
  exists t'. simpl in Hg. auto.
Defined.

(** ** Admission *)

Lemma processQueue_at_most_one (e : Engine) :
  (length (queue e) <= S (length (queue (fst (processQueue e)))))%nat
  /\ (length (start_of (snd (processQueue e))) <= 1)%nat.
Proof.
  destruct (processQueue_cases e) as [[Hp _]|(req & rest & Hq & _ & Hp)];
    rewrite Hp; simpl.
  - lia.
  - rewrite Hq. simpl. lia.
Qed.

(** C2. [updateConcurrency] stores the new limit and calls
    [processQueue] once, and [processQueue] has no loop: whatever the
    limit, at most one queued task is started.  With four submissions
    under a limit of 1 and the limit then raised to 4, one more task
    starts; two stay queued although only two of the four slots are
    taken. *)
Theorem raise_limit_starts_one (e : Engine) (limit : Z) :
  (length (queue e) <= S (length (queue (fst (updateConcurrency limit e)))))%nat
  /\ (length (start_of (snd (updateConcurrency limit e))) <= 1)%nat
  /\ exists s,
       run (boot (settings_with_limit 1) None) raise_scenario = Some s
       /\ maxConcurrency (engine s) = 4
       /\ activeCount (engine s) = 2
       /\ length (running s) = 2%nat
       /\ length (queue (engine s)) = 2%nat.
Proof.
  split; [|split].
  - unfold updateConcurrency.
    exact (proj1 (processQueue_at_most_one
                    {| queue := queue e; activeCount := activeCount e;
                       maxConcurrency := limit |})).
  - unfold updateConcurrency. apply processQueue_at_most_one.
  - eexists. split; [vm_compute; reflexivity|]. repeat split.
Qed.






(** One start for each trigger is enough on submission and on
    settling: as long as the limit is not raised by more than one slot
    while tasks are queued, no queued task waits for a free slot. *)
Lemma admission_saturates (s : System) :
  reachable_by raised_by_one_at_most s -> saturated s.
Proof.
  unfold saturated.
  induction 1 as [config file Hc|s s' ev Hreach IH Hok Hstep]; [now left|].
  destruct ev as [env req|k|limit]; simpl in Hstep.
  - inversion Hstep; subst s'; clear Hstep.
    destruct (validateRequest req) as [[msg|] r] eqn:Hval.
    + now rewrite (submitTask_rejects env _ _ s _ Hval).
    + destruct (submitTask_accepts env req r s Hval) as (s1 & Hs1 & _ & Heng).
      rewrite Hs1. simpl.
      destruct (processQueue_cases
          {| queue := queue (engine s) ++ [set_taskId r (new_task_id env)];
             activeCount := activeCount (engine s);
             maxConcurrency := maxConcurrency (engine s) |})
        as [[Hp [Hq|Hfull]]|(q & rest & Hq & Hlt & Hp)];
        rewrite Hp in Heng; inversion Heng as [[He Hr]]; rewrite He; simpl in *.
      * destruct (queue (engine s)); discriminate Hq.
      * now right.
      * destruct IH as [Hempty|Hfull]; [|lia].
        rewrite Hempty in Hq. simpl in Hq. inversion Hq. now left.
  - destruct (running s !! k); [|discriminate].
    unfold onSettled in Hstep.
    destruct (processQueue_cases
        {| queue := queue (engine s); activeCount := activeCount (engine s) - 1;
           maxConcurrency := maxConcurrency (engine s) |})
      as [[Hp Hsat]|(q & rest & Hq & Hlt & Hp)];
      rewrite Hp in Hstep; inversion Hstep; subst s'; simpl in *.
    + exact Hsat.
    + destruct IH as [Hempty|Hfull]; [congruence|]. right. lia.
  - unfold updateConcurrency in Hstep.
    destruct (processQueue_cases
        {| queue := queue (engine s); activeCount := activeCount (engine s);
           maxConcurrency := limit |})
      as [[Hp Hsat]|(q & rest & Hq & Hlt & Hp)];
      rewrite Hp in Hstep; inversion Hstep; subst s'; simpl in *.
    + exact Hsat.
    + destruct Hok as [Hone|Hempty]; [right; lia|congruence].
Qed.

(** ** Reasoning about the pipeline monad *)

Lemma machine_eta (m : Machine) : {| tasks := tasks m; trace := trace m |} = m.
Proof. now destruct m. Qed.

Lemma runs_as_ret {A} (a : A) : runs_as (ret a) (Ret a) [].
Proof. intros m. unfold ret. rewrite app_nil_r. now rewrite machine_eta. Qed.

Lemma runs_as_throw {A} (e : JsError) : runs_as (@throw A e) (Throw e) [].
Proof. intros m. unfold throw. rewrite app_nil_r. now rewrite machine_eta. Qed.

Lemma runs_as_emit (e : Effect) : runs_as (emit e) (Ret tt) [e].
Proof. intros m. reflexivity. Qed.

Lemma runs_as_bind {A B} (c : M A) (k : A -> M B) a t1 r t2 :
  runs_as c (Ret a) t1 -> runs_as (k a) r t2 ->
  runs_as (bind c k) r (t1 ++ t2).
Proof.
  intros Hc Hk m. unfold bind. rewrite Hc, Hk. simpl. now rewrite app_assoc.
Qed.

Lemma runs_as_bind_throw {A B} (c : M A) (k : A -> M B) e t :
  runs_as c (Throw e) t -> runs_as (bind c k) (Throw e) t.
Proof. intros Hc m. unfold bind. now rewrite Hc. Qed.

Lemma runs_as_try_ret {A} (body : M A) (h : JsError -> M A) a t :
  runs_as body (Ret a) t -> runs_as (try_catch body h) (Ret a) t.
Proof. intros Hb m. unfold try_catch. now rewrite Hb. Qed.

Lemma runs_as_try_catch {A} (body : M A) (h : JsError -> M A) e t1 r t2 :
  runs_as body (Throw e) t1 -> runs_as (h e) r t2 ->
  runs_as (try_catch body h) r (t1 ++ t2).
Proof.
  intros Hb Hh m. unfold try_catch. rewrite Hb, Hh. simpl. now rewrite app_assoc.
Qed.

Lemma runs_as_for_break {A} (n i : nat) (body : nat -> M (option A)) a t :
  runs_as (body i) (Ret (Some a)) t ->
  runs_as (for_loop (S n) i body) (Ret (Some a)) t.
Proof.
  intros Hb. simpl. rewrite <- (app_nil_r t).
  eapply runs_as_bind; [exact Hb|]. apply runs_as_ret.
Qed.

Lemma runs_as_for_next {A} (n i : nat) (body : nat -> M (option A)) t1 r t2 :
  runs_as (body i) (Ret None) t1 ->
  runs_as (for_loop n (S i) body) r t2 ->
  runs_as (for_loop (S n) i body) r (t1 ++ t2).
Proof. intros Hb Hn. simpl. eapply runs_as_bind; [exact Hb|exact Hn]. Qed.

Lemma runs_as_for_throw {A} (n i : nat) (body : nat -> M (option A)) e t :
  runs_as (body i) (Throw e) t ->
  runs_as (for_loop (S n) i body) (Throw e) t.
Proof. intros Hb. simpl. now apply runs_as_bind_throw. Qed.

Lemma runs_as_result {A} (c : M A) r t m : runs_as c r t -> fst (c m) = r.
Proof. intros H. now rewrite H. Qed.

Lemma runs_as_trace {A} (c : M A) r t m :
  runs_as c r t -> trace (snd (c m)) = trace m ++ t.
Proof. intros H. now rewrite H. Qed.

Lemma runs_as_tasks {A} (c : M A) r t m : runs_as c r t -> tasks (snd (c m)) = tasks m.
Proof. intros H. now rewrite H. Qed.


Lemma count_app (p : Effect -> bool) (t1 t2 : list Effect) :
  count p (t1 ++ t2) = (count p t1 + count p t2)%nat.
Proof. unfold count. now rewrite List.filter_app, length_app. Qed.

(** ** Upload to object storage *)


(** ** Upload to object storage *)

Ltac run_machine :=
  repeat (first [ rewrite <- app_assoc | progress simpl ]);
  try reflexivity.

Lemma upload_attempt_ok env st taskId idx img i :
  oss_put env idx i = None ->
  runs_as (upload_attempt env st taskId idx img i)
    (Ret (Some (oss_link st img)))
    [uploading_log taskId img i; OssPut idx (oss_key st img) (local_path img)].
Proof.
  intros H m.
  unfold upload_attempt, try_catch, bind, addTaskLog, client_put, emit, bind, ret.
  rewrite H. run_machine.
Qed.

Lemma upload_attempt_retry env st taskId idx img i msg :
  oss_put env idx i = Some msg -> i <> 2%nat ->
  runs_as (upload_attempt env st taskId idx img i)
    (Ret None)
    [uploading_log taskId img i; OssPut idx (oss_key st img) (local_path img);
     upload_failed_log taskId i msg; Sleep 3000].
Proof.
  intros H Hi m.
  unfold upload_attempt, try_catch, bind, addTaskLog, client_put, emit, bind,
    ret, throw, sleep.
  rewrite H. simpl.
  destruct (Nat.eqb_spec i 2) as [->|_]; [contradiction|]. run_machine.
Qed.

Lemma upload_attempt_last env st taskId idx img msg :
  oss_put env idx 2%nat = Some msg ->
  runs_as (upload_attempt env st taskId idx img 2)
    (Throw (Error ("OSS Upload Failed for " +:+ img_name img +:+ ": " +:+ msg)))
    [uploading_log taskId img 2; OssPut idx (oss_key st img) (local_path img);
     upload_failed_log taskId 2 msg].
Proof.
  intros H m.
  unfold upload_attempt, try_catch, bind, addTaskLog, client_put, emit, bind,
    ret, throw, sleep.
  rewrite H. run_machine.
Qed.

(** What the retry loop does for one image: a link after at most three
    attempts, or an error naming the file after exactly three. *)
Lemma upload_image_spec env st taskId idx img :
  exists r t,
    runs_as (for_loop 3 0 (upload_attempt env st taskId idx img)) r t
    /\ (count (is_put_of idx) t <= 3)%nat
    /\ count is_put t = count (is_put_of idx) t
    /\ count is_network t = count is_put t
    /\ count is_upload_log t = count is_put t
    /\ count is_sleep t = count (is_sleep_of 3000) t
    /\ count is_put t = S (count is_sleep t)
    /\ (r = Ret (Some (oss_link st img))
        \/ exists msg, attempts_exhausted env idx msg
             /\ count (is_put_of idx) t = 3%nat
             /\ r = Throw (Error ("OSS Upload Failed for " +:+ img_name img
                                    +:+ ": " +:+ msg))).
Proof.
  unfold attempts_exhausted.
  destruct (oss_put env idx 0) as [m0|] eqn:H0.
  2:{ eexists _, _. split.
      { apply runs_as_for_break. now apply upload_attempt_ok. }
      unfold count. simpl. rewrite Nat.eqb_refl. simpl.
      repeat split; auto; try reflexivity; try lia. }
  destruct (oss_put env idx 1) as [m1|] eqn:H1.
  2:{ eexists _, _. split.
      { eapply runs_as_for_next; [eapply upload_attempt_retry; [eassumption|lia]|].
        apply runs_as_for_break. now apply upload_attempt_ok. }
      unfold count. simpl. rewrite Nat.eqb_refl. simpl.
      repeat split; auto; try reflexivity; try lia. }
  destruct (oss_put env idx 2) as [m2|] eqn:H2.
  2:{ eexists _, _. split.
      { eapply runs_as_for_next; [eapply upload_attempt_retry; [eassumption|lia]|].
        eapply runs_as_for_next; [eapply upload_attempt_retry; [eassumption|lia]|].
        apply runs_as_for_break. now apply upload_attempt_ok. }
      unfold count. simpl. rewrite Nat.eqb_refl. simpl.
      repeat split; auto; try reflexivity; try lia. }
  eexists _, _. split.
  { eapply runs_as_for_next; [eapply upload_attempt_retry; [eassumption|lia]|].
    eapply runs_as_for_next; [eapply upload_attempt_retry; [eassumption|lia]|].
    apply runs_as_for_throw. eapply upload_attempt_last; eassumption. }
  unfold count. simpl. rewrite Nat.eqb_refl. simpl.
  repeat split; auto; try reflexivity; try lia.
  right. exists m2. repeat split; eauto.
Qed.

Lemma count_put_of_le (idx : nat) (t : list Effect) :
  (count (is_put_of idx) t <= count is_put t)%nat.
Proof.
  unfold count. induction t as [|e t IH]; simpl; [lia|].
  destruct e; simpl; try exact IH.
  destruct (Nat.eqb index idx); simpl; lia.
Qed.

Lemma count_put_of_other (idx j : nat) (t : list Effect) :
  count is_put t = count (is_put_of idx) t -> j <> idx ->
  count (is_put_of j) t = 0%nat.
Proof.
  unfold count. induction t as [|e t IH]; simpl; [reflexivity|].
  intros H Hj.
  pose proof (count_put_of_le idx t) as Hle. unfold count in Hle.
  destruct e; simpl in *; auto.
  destruct (Nat.eqb_spec index idx) as [->|Hne]; simpl in *.
  - destruct (Nat.eqb_spec idx j); [congruence|]. apply IH; [lia|exact Hj].
  - lia.
Qed.

Lemma upload_each_spec env st taskId images :
  forall idx links, exists r t,
    runs_as (upload_each env st taskId images idx links) r t
    /\ (forall j, (count (is_put_of j) t <= 3)%nat)
    /\ (forall j, (j < idx)%nat -> count (is_put_of j) t = 0%nat)
    /\ count is_network t = count is_put t
    /\ count is_upload_log t = count is_put t
    /\ count is_sleep t = count (is_sleep_of 3000) t
    /\ ((r = Ret (links ++ map (oss_link st) images)
         /\ count is_put t = (count is_sleep t + length images)%nat)
        \/ exists k img msg,
             images !! k = Some img
             /\ attempts_exhausted env (idx + k) msg
             /\ count (is_put_of (idx + k)) t = 3%nat
             /\ r = Throw (Error ("OSS Upload Failed for " +:+ img_name img
                                    +:+ ": " +:+ msg))).
Proof.
  induction images as [|img rest IH]; intros idx links.
  - exists (Ret links), []. split; [apply runs_as_ret|].
    repeat split; auto. left. rewrite app_nil_r. auto.
  - destruct (upload_image_spec env st taskId idx img)
      as (r1 & t1 & Hrun1 & Hle1 & Hown1 & Hnet1 & Hlog1 & Hsl1 & Hps1 & Hres1).
    destruct Hres1 as [->|(msg & Hex & H3 & ->)].
    + destruct (IH (S idx) (links ++ [oss_link st img]))
        as (r2 & t2 & Hrun2 & Hle2 & Hlow2 & Hnet2 & Hlog2 & Hsl2 & Hres2).
      exists r2, (t1 ++ t2). split.
      { simpl. eapply runs_as_bind; [exact Hrun1|exact Hrun2]. }
      rewrite !count_app.
      split.
      { intros j. rewrite count_app. destruct (Nat.eq_dec j idx) as [->|Hne].
        - rewrite (Hlow2 idx) by lia. lia.
        - rewrite (count_put_of_other idx j t1 Hown1 Hne). apply Hle2. }
      split.
      { intros j Hj. rewrite count_app.
        rewrite (count_put_of_other idx j t1 Hown1) by lia.
        rewrite Hlow2 by lia. reflexivity. }
      split; [lia|]. split; [lia|]. split; [lia|].
      destruct Hres2 as [[-> Hcnt]|(k & img' & msg & Hk & Hex & H3 & ->)].
      * left. split.
        { simpl. now rewrite <- app_assoc. }
        simpl. lia.
      * right. exists (S k), img', msg. split; [exact Hk|].
        replace (idx + S k)%nat with (S idx + k)%nat by lia.
        split; [exact Hex|]. split; [|reflexivity].
        rewrite count_app.
        rewrite (count_put_of_other idx (S idx + k) t1 Hown1) by lia.
        exact H3.
    + exists (Throw (Error ("OSS Upload Failed for " +:+ img_name img +:+ ": " +:+ msg))), t1.
      split.
      { simpl. now apply runs_as_bind_throw. }
      split.
      { intros j. destruct (Nat.eq_dec j idx) as [->|Hne]; [exact Hle1|].
        rewrite (count_put_of_other idx j t1 Hown1 Hne). lia. }
      split.
      { intros j Hj. apply (count_put_of_other idx j t1 Hown1). lia. }
      split; [exact Hnet1|]. split; [exact Hlog1|]. split; [exact Hsl1|].
      right. exists 0%nat, img, msg. rewrite Nat.add_0_r. auto.
Qed.

(** ** The pipeline around its steps *)

Lemma on_failure_run env taskId e m :
  on_failure env taskId e m
  = (Ret tt,
     {| tasks := updateTask taskId (failure_update env e) (tasks m);
        trace := trace m ++ failure_footer env taskId e |}).
Proof.
  unfold on_failure, bind, addTaskLog, dbUpdateTask, emit, failure_footer,
    failure_update. cbn [tasks trace].
  now rewrite <- app_assoc.
Qed.

Lemma pipeline_run_header env fuel taskId req m :
  pipeline env fuel taskId req m
  = bind (uploadImagesToOSS env (input_images req) (settings req) taskId)
      (after_upload env fuel taskId req)
      {| tasks := updateTask taskId (set_status processing) (tasks m);
         trace := trace m ++ pipeline_header env taskId req |}.
Proof.
  unfold pipeline.
  unfold bind at 1. unfold dbUpdateTask at 1.
  unfold bind at 1. unfold addTaskLog at 1, emit at 1.
  unfold bind at 1. unfold addTaskLog at 1, emit at 1.
  unfold bind at 1. unfold addTaskLog at 1, emit at 1.
  cbn [tasks trace]. unfold pipeline_header.
  rewrite <- !app_assoc. reflexivity.
Qed.






(** ** Submitting to the generation service *)

Ltac unfold_monad :=
  unfold try_catch, bind, ret, throw, addTaskLog, sleep, emit in *.

Lemma call_attempt_ok env payload apiKey taskId i id :
  accepted_id (geekai_post env i) = Some id ->
  runs_as (call_attempt env payload apiKey taskId i) (Ret (Some id))
    (HttpPost payload apiKey :: response_log taskId (geekai_post env i)).
Proof.
  intros H m. unfold call_attempt, axios_post, accepted_id, response_log in *.
  unfold_monad.
  destruct (geekai_post env i) as [e|res]; [discriminate|].
  cbn [tasks trace fst snd].
  destruct ((res_status res =? 200) && negb (falsy (or_else (res_task_id res) "")));
    [|discriminate].
  inversion H; subst id. cbn [tasks trace]. now rewrite <- app_assoc.
Qed.

Lemma call_failed_run (taskId : string) (i : nat) (e : JsError) (m : Machine) :
  call_failed taskId i e m
  = if Nat.eqb i 2
    then (Throw (Error ("GeekAI Request Failed: " +:+ post_error_message e)),
          {| tasks := tasks m;
             trace := trace m ++ call_failure_logs taskId i e |})
    else (Ret (@None string),
          {| tasks := tasks m;
             trace := trace m ++ call_failure_logs taskId i e ++ [Sleep 10000] |}).
Proof.
  unfold call_failed. cbv zeta. unfold call_failure_logs. unfold_monad.
  destruct (resp ← response e; resp_data resp) as [d|];
    destruct (Nat.eqb i 2); cbn [tasks trace];
    repeat rewrite <- app_assoc; reflexivity.
Qed.

Lemma call_attempt_failed env payload apiKey taskId i :
  accepted_id (geekai_post env i) = None ->
  forall m,
    call_attempt env payload apiKey taskId i m
    = if Nat.eqb i 2
      then (Throw (Error ("GeekAI Request Failed: "
                            +:+ post_error_message (attempt_error (geekai_post env i)))),
            {| tasks := tasks m;
               trace := trace m ++ HttpPost payload apiKey
                          :: response_log taskId (geekai_post env i)
                          ++ call_failure_logs taskId i (attempt_error (geekai_post env i)) |})
      else (Ret None,
            {| tasks := tasks m;
               trace := trace m ++ HttpPost payload apiKey
                          :: response_log taskId (geekai_post env i)
                          ++ call_failure_logs taskId i (attempt_error (geekai_post env i))
                          ++ [Sleep 10000] |}).
Proof.
  intros H m. unfold call_attempt. unfold try_catch at 1.
  unfold axios_post, accepted_id, response_log, attempt_error in *.
  destruct (geekai_post env i) as [e|res].
  - unfold bind at 1. unfold bind at 1. unfold emit at 1. unfold throw at 1.
    rewrite call_failed_run. cbn [tasks trace].
    destruct (Nat.eqb i 2); repeat rewrite <- app_assoc; reflexivity.
  - destruct ((res_status res =? 200) && negb (falsy (or_else (res_task_id res) "")))
      eqn:Hc; [discriminate|].
    unfold bind at 1. unfold bind at 1. unfold emit at 1. unfold ret at 1.
    unfold bind at 1. unfold addTaskLog at 1, emit at 1.
    rewrite Hc. unfold throw at 1.
    rewrite call_failed_run. cbn [tasks trace].
    destruct (Nat.eqb i 2); repeat rewrite <- app_assoc; reflexivity.
Qed.

Lemma call_attempt_retry env payload apiKey taskId i :
  accepted_id (geekai_post env i) = None -> i <> 2%nat ->
  runs_as (call_attempt env payload apiKey taskId i) (Ret None)
    (HttpPost payload apiKey :: response_log taskId (geekai_post env i)
       ++ call_failure_logs taskId i (attempt_error (geekai_post env i))
       ++ [Sleep 10000]).
Proof.
  intros H Hi m. rewrite (call_attempt_failed _ _ _ _ _ H).
  destruct (Nat.eqb_spec i 2); [contradiction|reflexivity].
Qed.

Lemma call_attempt_last env payload apiKey taskId :
  accepted_id (geekai_post env 2) = None ->
  runs_as (call_attempt env payload apiKey taskId 2)
    (Throw (Error ("GeekAI Request Failed: "
                     +:+ post_error_message (attempt_error (geekai_post env 2)))))
    (HttpPost payload apiKey :: response_log taskId (geekai_post env 2)
       ++ call_failure_logs taskId 2 (attempt_error (geekai_post env 2))).
Proof.
  intros H m. rewrite (call_attempt_failed _ _ _ _ _ H). reflexivity.
Qed.

Lemma count_cons (p : Effect -> bool) (e : Effect) (t : list Effect) :
  count p (e :: t) = ((if p e then 1 else 0) + count p t)%nat.
Proof. unfold count. simpl. destruct (p e); reflexivity. Qed.

Lemma count_logs_only (p : Effect -> bool) (t : list Effect) :
  (forall taskId msg, p (Log taskId msg) = false) ->
  Forall (fun e => exists taskId msg, e = Log taskId msg) t ->
  count p t = 0%nat.
Proof.
  intros Hp Ht. induction Ht as [|e t (taskId & msg & ->) _ IH]; [reflexivity|].
  rewrite count_cons, Hp. exact IH.
Qed.

Lemma response_log_logs taskId a :
  Forall (fun e => exists tid msg, e = Log tid msg) (response_log taskId a).
Proof. destruct a; simpl; repeat constructor; eauto. Qed.

Lemma call_failure_logs_logs taskId i e :
  Forall (fun e => exists tid msg, e = Log tid msg) (call_failure_logs taskId i e).
Proof.
  unfold call_failure_logs.
  destruct (resp ← response e; resp_data resp); repeat constructor; eauto.
Qed.

Lemma link_logs_logs taskId i links :
  Forall (fun e => exists tid msg, e = Log tid msg) (link_logs taskId i links).
Proof.
  revert i. induction links as [|l links IH]; intros i; simpl; constructor; eauto.
Qed.

Lemma count_nil (p : Effect -> bool) : count p [] = 0%nat.
Proof. reflexivity. Qed.

Ltac count_effects :=
  repeat first
    [ rewrite count_app
    | rewrite count_cons
    | rewrite count_nil
    | rewrite (count_logs_only _ (response_log _ _));
        [|intros; reflexivity|apply response_log_logs]
    | rewrite (count_logs_only _ (call_failure_logs _ _ _));
        [|intros; reflexivity|apply call_failure_logs_logs]
    | rewrite (count_logs_only _ (link_logs _ _ _));
        [|intros; reflexivity|apply link_logs_logs] ];
  cbn [is_post is_network is_get is_sleep is_sleep_of is_put Z.eqb Pos.eqb Nat.add].

(** What [callGeekAI] does, by the first answer that yields an id. *)
Lemma callGeekAI_spec env payload apiKey taskId :
  exists r t,
    runs_as (callGeekAI env payload apiKey taskId) r t
    /\ (count is_post t <= 3)%nat
    /\ count is_network t = count is_post t
    /\ count is_get t = 0%nat
    /\ count is_sleep t = count (is_sleep_of 10000) t
    /\ count is_post t = S (count is_sleep t)
    /\ ((exists i id,
           (i < 3)%nat
           /\ accepted_id (geekai_post env i) = Some id
           /\ (forall j, (j < i)%nat -> accepted_id (geekai_post env j) = None)
           /\ r = Ret id /\ count is_post t = S i)
        \/ ((forall j, (j < 3)%nat -> accepted_id (geekai_post env j) = None)
            /\ count is_post t = 3%nat
            /\ r = Throw (Error ("GeekAI Request Failed: "
                   +:+ post_error_message (attempt_error (geekai_post env 2)))))).
Proof.
  unfold callGeekAI.
  destruct (accepted_id (geekai_post env 0)) as [id0|] eqn:H0.
  { eexists _, _. split.
    { eapply runs_as_bind.
      - apply runs_as_for_break. eapply call_attempt_ok; eassumption.
      - apply runs_as_ret. }
    count_effects. repeat split; try lia.
    left. exists 0%nat, id0. repeat split; auto; lia. }
  destruct (accepted_id (geekai_post env 1)) as [id1|] eqn:H1.
  { eexists _, _. split.
    { eapply runs_as_bind.
      - eapply runs_as_for_next; [apply call_attempt_retry; [exact H0|lia]|].
        apply runs_as_for_break. eapply call_attempt_ok; eassumption.
      - apply runs_as_ret. }
    count_effects. repeat split; try lia.
    left. exists 1%nat, id1. repeat split; auto; try lia.
    intros j Hj. assert (j = 0%nat) as -> by lia. exact H0. }
  destruct (accepted_id (geekai_post env 2)) as [id2|] eqn:H2.
  { eexists _, _. split.
    { eapply runs_as_bind.
      - eapply runs_as_for_next; [apply call_attempt_retry; [exact H0|lia]|].
        eapply runs_as_for_next; [apply call_attempt_retry; [exact H1|lia]|].
        apply runs_as_for_break. eapply call_attempt_ok; eassumption.
      - apply runs_as_ret. }
    count_effects. repeat split; try lia.
    left. exists 2%nat, id2. repeat split; auto; try lia.
    intros j Hj. assert (j = 0 \/ j = 1)%nat as [-> | ->] by lia; assumption. }
  eexists _, _. split.
  { apply runs_as_bind_throw.
    eapply runs_as_for_next; [apply call_attempt_retry; [exact H0|lia]|].
    eapply runs_as_for_next; [apply call_attempt_retry; [exact H1|lia]|].
    apply runs_as_for_throw. apply call_attempt_last; assumption. }
  count_effects. repeat split; try lia.
  right. repeat split; auto.
  intros j Hj. assert (j = 0 \/ j = 1 \/ j = 2)%nat as [-> | [-> | ->]] by lia; assumption.
Qed.

Lemma log_links_run taskId links :
  forall i, runs_as (log_links taskId i links) (Ret tt) (link_logs taskId i links).
Proof.
  induction links as [|l links IH]; intros i; simpl.
  - apply runs_as_ret.
  - match goal with
    | |- runs_as _ _ (?e :: ?t) => change (e :: t) with ([e] ++ t)
    end.
    eapply runs_as_bind; [apply runs_as_emit|apply IH].
Qed.

(** ** Polling and download *)

Lemma axios_get_ok env n url apiKey res :
  geekai_get env n = inr res ->
  runs_as (axios_get env n url apiKey) (Ret res) [HttpGet url apiKey].
Proof.
  intros H. unfold axios_get. rewrite H.
  change [HttpGet url apiKey] with ([HttpGet url apiKey] ++ []).
  eapply runs_as_bind; [apply runs_as_emit|apply runs_as_ret].
Qed.

Lemma axios_get_err env n url apiKey e :
  geekai_get env n = inl e ->
  runs_as (axios_get env n url apiKey) (Throw e) [HttpGet url apiKey].
Proof.
  intros H. unfold axios_get. rewrite H.
  change [HttpGet url apiKey] with ([HttpGet url apiKey] ++ []).
  eapply runs_as_bind; [apply runs_as_emit|apply runs_as_throw].
Qed.

Lemma poll_failed_fatal dbTaskId e :
  is_client_error e = true ->
  runs_as (poll_failed dbTaskId e)
    (Throw (Error (or_else (resp ← response e; d ← resp_data resp; data_message d)
                     "API Error")))
    [Log dbTaskId ("Polling Fatal Error: "
       +:+ or_else (resp ← response e; d ← resp_data resp; data_message d) "API Error")].
Proof.
  intros H. unfold poll_failed. rewrite H. cbv zeta.
  match goal with |- runs_as _ _ [?l] => change [l] with ([l] ++ []) end.
  eapply runs_as_bind; [apply runs_as_emit|apply runs_as_throw].
Qed.

Lemma poll_failed_glitch dbTaskId e :
  is_client_error e = false -> runs_as (poll_failed dbTaskId e) (Ret None) [].
Proof. intros H. unfold poll_failed. rewrite H. apply runs_as_ret. Qed.

Lemma status_log_run dbTaskId n res :
  runs_as (if Nat.eqb (n mod 10) 0
           then addTaskLog dbTaskId
                  ("Polling... Current Status: " +:+ default "undefined" (task_status res))
           else ret tt)
    (Ret tt) (status_log dbTaskId n res).
Proof.
  unfold status_log. destruct (Nat.eqb (n mod 10) 0).
  - apply runs_as_emit.
  - apply runs_as_ret.
Qed.

(** A successful answer ends the polling with the result URL. *)
Lemma poll_turn_succeed env url apiKey dbTaskId n res u :
  geekai_get env n = inr res ->
  task_status res = Some "succeed" -> data0_url res = Some u ->
  runs_as (poll_turn env url apiKey dbTaskId n) (Ret (Some u))
    ([HttpGet url apiKey] ++ status_log dbTaskId n res ++ []).
Proof.
  intros Hget Hst Hu. unfold poll_turn. apply runs_as_try_ret.
  eapply runs_as_bind; [eapply axios_get_ok; eassumption|]. cbv zeta.
  eapply runs_as_bind; [apply status_log_run|].
  rewrite Hst, Hu. rewrite bool_decide_eq_true_2 by reflexivity.
  apply runs_as_ret.
Qed.

(** A 4xx answer ends the polling with an error. *)
Lemma poll_turn_client_error env url apiKey dbTaskId n e :
  geekai_get env n = inl e -> is_client_error e = true ->
  runs_as (poll_turn env url apiKey dbTaskId n)
    (Throw (Error (or_else (resp ← response e; d ← resp_data resp; data_message d)
                     "API Error")))
    ([HttpGet url apiKey] ++
     [Log dbTaskId ("Polling Fatal Error: "
        +:+ or_else (resp ← response e; d ← resp_data resp; data_message d) "API Error")]).
Proof.
  intros Hget Hc. unfold poll_turn. eapply runs_as_try_catch.
  - apply runs_as_bind_throw. eapply axios_get_err; eassumption.
  - eapply poll_failed_fatal; eassumption.
Qed.

(** An answer that reports the remote task as failed is logged, and the
    error thrown for it is caught by the [catch] block of the loop, which
    passes over it: the turn ends without a result and without an
    error. *)
Lemma poll_turn_remote_failed env url apiKey dbTaskId n res :
  geekai_get env n = inr res ->
  task_status res = Some "failed" ->
  runs_as (poll_turn env url apiKey dbTaskId n) (Ret None)
    (([HttpGet url apiKey] ++ status_log dbTaskId n res
       ++ [Log dbTaskId ("Remote Task Failed: "
                           +:+ or_else (remote_error res) "Task failed remotely")] ++ [])
     ++ []).
Proof.
  intros Hget Hst. unfold poll_turn. eapply runs_as_try_catch.
  - eapply runs_as_bind; [eapply axios_get_ok; eassumption|]. cbv zeta.
    eapply runs_as_bind; [apply status_log_run|].
    rewrite Hst.
    rewrite (bool_decide_eq_false_2 (Some "failed" = Some "succeed")) by discriminate.
    rewrite (bool_decide_eq_true_2 (Some "failed" = Some "failed")) by reflexivity.
    eapply runs_as_bind; [apply runs_as_emit|apply runs_as_throw].
  - apply poll_failed_glitch. reflexivity.
Qed.

Lemma poll_turn_total env url apiKey dbTaskId n :
  exists r t, runs_as (poll_turn env url apiKey dbTaskId n) r t.
Proof.
  destruct (geekai_get env n) as [e|res] eqn:Hget.
  - destruct (is_client_error e) eqn:Hc.
    + eexists _, _. eapply poll_turn_client_error; eassumption.
    + eexists _, _. unfold poll_turn. eapply runs_as_try_catch.
      * apply runs_as_bind_throw. eapply axios_get_err; eassumption.
      * eapply poll_failed_glitch; eassumption.
  - destruct (decide (task_status res = Some "failed")) as [Hf|Hf].
    { eexists _, _. eapply poll_turn_remote_failed; eassumption. }
    destruct (decide (task_status res = Some "succeed")) as [Hs|Hs].
    + destruct (data0_url res) as [u|] eqn:Hu.
      { eexists _, _. eapply poll_turn_succeed; eassumption. }
      eexists _, _. unfold poll_turn. eapply runs_as_try_catch.
      * eapply runs_as_bind; [eapply axios_get_ok; eassumption|]. cbv zeta.
        eapply runs_as_bind; [apply status_log_run|].
        rewrite Hs, Hu. rewrite bool_decide_eq_true_2 by reflexivity.
        apply runs_as_throw.
      * apply poll_failed_glitch. reflexivity.
    + eexists _, _. unfold poll_turn. apply runs_as_try_ret.
      eapply runs_as_bind; [eapply axios_get_ok; eassumption|]. cbv zeta.
      eapply runs_as_bind; [apply status_log_run|].
      rewrite (bool_decide_eq_false_2 _ Hs), (bool_decide_eq_false_2 _ Hf).
      apply runs_as_ret.
Qed.

Lemma poll_loop_total env url apiKey dbTaskId fuel :
  forall n, exists r t, runs_as (poll_loop env url apiKey dbTaskId fuel n) r t.
Proof.
  induction fuel as [|fuel IH]; intros n.
  - exists OutOfFuel, []. intros m. unfold poll_loop, out_of_fuel.
    rewrite app_nil_r. now rewrite machine_eta.
  - destruct (poll_turn_total env url apiKey dbTaskId (S n)) as (r1 & t1 & H1).
    destruct (IH (S n)) as (r2 & t2 & H2).
    destruct r1 as [[u|]| e |].
    + eexists _, _. simpl.
      eapply runs_as_bind; [apply runs_as_emit|].
      eapply runs_as_bind; [exact H1|]. apply runs_as_ret.
    + eexists _, _. simpl.
      eapply runs_as_bind; [apply runs_as_emit|].
      eapply runs_as_bind; [exact H1|]. exact H2.
    + eexists _, _. simpl.
      eapply runs_as_bind; [apply runs_as_emit|].
      apply runs_as_bind_throw. exact H1.
    + exists OutOfFuel, (Sleep 3000 :: t1). intros m. simpl.
      unfold bind at 1, sleep, emit. unfold bind. rewrite H1. cbn [tasks trace].
      now rewrite <- app_assoc.
Qed.

Lemma download_loop_total env url filePath taskId fuel :
  forall n, exists r t, runs_as (download_loop env url filePath taskId fuel n) r t.
Proof.
  induction fuel as [|fuel IH]; intros n.
  - exists OutOfFuel, []. intros m. unfold download_loop, out_of_fuel.
    rewrite app_nil_r. now rewrite machine_eta.
  - destruct (IH (S n)) as (r2 & t2 & H2). simpl.
    destruct (http_download env n) as [msg|] eqn:Hd.
    + eexists _, _. eapply runs_as_bind.
      * eapply runs_as_try_catch.
        -- apply runs_as_bind_throw. unfold fetch_to_file. rewrite Hd.
           eapply runs_as_bind; [apply runs_as_emit|apply runs_as_throw].
        -- eapply runs_as_bind; [apply runs_as_emit|].
           eapply runs_as_bind; [apply runs_as_emit|apply runs_as_ret].
      * exact H2.
    + eexists _, _. eapply runs_as_bind.
      * apply runs_as_try_ret.
        eapply runs_as_bind; [|apply runs_as_ret].
        unfold fetch_to_file. rewrite Hd.
        eapply runs_as_bind; [apply runs_as_emit|apply runs_as_ret].
      * apply runs_as_ret.
Qed.

(** ** What the rest of the pipeline keeps *)

Lemma grows_runs_as (I : TasksFile -> Prop) {A} (c : M A) r t :
  runs_as c r t -> grows I c.
Proof.
  intros H m HI. split.
  - now rewrite (runs_as_tasks _ _ _ m H).
  - exists t. now apply (runs_as_trace _ r).
Qed.

Lemma grows_bind (I : TasksFile -> Prop) {A B} (c : M A) (k : A -> M B) :
  grows I c -> (forall a, grows I (k a)) -> grows I (bind c k).
Proof.
  intros Hc Hk m HI. unfold bind.
  destruct (Hc m HI) as [HI1 [t1 Ht1]].
  destruct (c m) as [[a|e|] m1]; simpl in *.
  - destruct (Hk a m1 HI1) as [HI2 [t2 Ht2]].
    split; [exact HI2|]. exists (t1 ++ t2). rewrite Ht2, Ht1. now rewrite app_assoc.
  - split; [exact HI1|]. eauto.
  - split; [exact HI1|]. eauto.
Qed.

Lemma grows_try_catch (I : TasksFile -> Prop) {A} (body : M A) (h : JsError -> M A) :
  grows I body -> (forall e, grows I (h e)) -> grows I (try_catch body h).
Proof.
  intros Hb Hh m HI. unfold try_catch.
  destruct (Hb m HI) as [HI1 [t1 Ht1]].
  destruct (body m) as [[a|e|] m1]; simpl in *.
  - split; [exact HI1|]. eauto.
  - destruct (Hh e m1 HI1) as [HI2 [t2 Ht2]].
    split; [exact HI2|]. exists (t1 ++ t2). rewrite Ht2, Ht1. now rewrite app_assoc.
  - split; [exact HI1|]. eauto.
Qed.

Lemma grows_dbUpdateTask (I : TasksFile -> Prop) taskId u :
  (forall f, I f -> I (updateTask taskId u f)) -> grows I (dbUpdateTask taskId u).
Proof.
  intros H m HI. simpl. split; [now apply H|].
  now exists [DbUpdate taskId u].
Qed.

Lemma grows_log (I : TasksFile -> Prop) taskId msg : grows I (addTaskLog taskId msg).
Proof. eapply grows_runs_as. apply runs_as_emit. Qed.

Lemma grows_calculateDuration (I : TasksFile -> Prop) env taskId :
  grows I (calculateDuration env taskId).
Proof.
  intros m HI. unfold calculateDuration.
  destruct (find_task taskId (default [] (tasks m))); simpl;
    (split; [exact HI|]); exists []; now rewrite app_nil_r.
Qed.

Lemma find_task_update_first taskId u (l : list TaskItem) :
  u_id u = None ->
  find_task taskId (update_first taskId u l)
  = (fun t => merge t u) <$> find_task taskId l.
Proof.
  intros Hu. unfold find_task. induction l as [|t l IH]; simpl; [reflexivity|].
  destruct (str_eq (task_id t) taskId) eqn:E; simpl.
  - rewrite Hu. simpl. rewrite E. reflexivity.
  - rewrite E. exact IH.
Qed.

Lemma find_task_updateTask taskId u (file : TasksFile) :
  u_id u = None ->
  find_task taskId (default [] (updateTask taskId u file))
  = (fun t => merge t u) <$> find_task taskId (default [] file).
Proof.
  intros Hu. destruct file as [l|]; simpl; [|reflexivity].
  now apply find_task_update_first.
Qed.





Lemma after_upload_run env fuel taskId req links m :
  after_upload env fuel taskId req links m
  = submit_and_wait env fuel taskId req (constructPayload req links)
      {| tasks := tasks m;
         trace := trace m ++ payload_logs env taskId req links |}.
Proof.
  unfold after_upload.
  unfold bind at 1. unfold addTaskLog at 1, emit at 1.
  unfold bind at 1. rewrite (log_links_run taskId links 0).
  unfold bind at 1. unfold addTaskLog at 1, emit at 1. cbv zeta.
  unfold bind at 1. unfold addTaskLog at 1, emit at 1.
  unfold bind at 1. unfold addTaskLog at 1, emit at 1.
  unfold bind at 1. unfold addTaskLog at 1, emit at 1.
  cbn [tasks trace]. unfold payload_logs.
  repeat rewrite <- app_assoc. reflexivity.
Qed.


Lemma submit_and_wait_ret env fuel taskId req payload id tc m :
  runs_as (callGeekAI env payload (geekaiApiKey (settings req)) taskId) (Ret id) tc ->
  submit_and_wait env fuel taskId req payload m
  = wait_and_finish env fuel taskId req id
      {| tasks := updateTask taskId (set_remote_id id) (tasks m);
         trace := trace m ++ Log taskId "Submitting task to GeekAI API..." :: tc
                    ++ [DbUpdate taskId (set_remote_id id)] |}.
Proof.
  intros Hc. unfold submit_and_wait.
  unfold bind at 1. unfold addTaskLog at 1, emit at 1.
  unfold bind at 1. rewrite Hc.
  unfold bind at 1. unfold dbUpdateTask at 1. cbn [tasks trace].
  repeat rewrite <- app_assoc. reflexivity.
Qed.

Lemma pipeline_after_upload env fuel taskId req links tu m :
  runs_as (uploadImagesToOSS env (input_images req) (settings req) taskId)
    (Ret links) tu ->
  pipeline env fuel taskId req m
  = submit_and_wait env fuel taskId req (constructPayload req links)
      {| tasks := updateTask taskId (set_status processing) (tasks m);
         trace := trace m ++ pipeline_header env taskId req ++ tu
                    ++ payload_logs env taskId req links |}.
Proof.
  intros Hup. rewrite pipeline_run_header. unfold bind at 1. rewrite Hup.
  rewrite after_upload_run. cbn [tasks trace].
  repeat rewrite <- app_assoc. reflexivity.
Qed.







(** ** Polling a task the remote reports as failed *)

Lemma poll_loop_step_failed env url apiKey dbTaskId fuel n res m :
  geekai_get env (S n) = inr res ->
  task_status res = Some "failed" ->
  poll_loop env url apiKey dbTaskId (S fuel) n m
  = poll_loop env url apiKey dbTaskId fuel (S n)
      {| tasks := tasks m;
         trace := trace m ++ Sleep 3000 :: HttpGet url apiKey
                    :: status_log dbTaskId (S n) res
                    ++ [Log dbTaskId ("Remote Task Failed: "
                          +:+ or_else (remote_error res) "Task failed remotely")] |}.
Proof.
  intros Hget Hst. cbn [poll_loop].
  unfold bind at 1. unfold sleep at 1, emit at 1.
  unfold bind at 1.
  rewrite (poll_turn_remote_failed env url apiKey dbTaskId (S n) res Hget Hst).
  cbn [tasks trace]. repeat rewrite <- app_assoc. rewrite !app_nil_r. reflexivity.
Qed.

Lemma poll_rejecting_forever url apiKey dbTaskId fuel :
  forall n m,
    fst (poll_loop rejecting_remote_env url apiKey dbTaskId fuel n m) = OutOfFuel
    /\ count is_get (trace (snd (poll_loop rejecting_remote_env url apiKey dbTaskId fuel n m)))
       = (count is_get (trace m) + fuel)%nat.
Proof.
  induction fuel as [|fuel IH]; intros n m.
  - simpl. split; [reflexivity|lia].
  - rewrite (poll_loop_step_failed rejecting_remote_env url apiKey dbTaskId fuel n
               failed_answer m eq_refl eq_refl).
    destruct (IH (S n)
      {| tasks := tasks m;
         trace := trace m ++ Sleep 3000 :: HttpGet url apiKey
                    :: status_log dbTaskId (S n) failed_answer
                    ++ [Log dbTaskId ("Remote Task Failed: "
                          +:+ or_else (remote_error failed_answer) "Task failed remotely")] |})
      as [Hr Hc].
    split; [exact Hr|]. rewrite Hc. cbn [trace].
    rewrite count_app, !count_cons, count_app. cbn [is_get].
    assert (Hlog : count is_get (status_log dbTaskId (S n) failed_answer) = 0%nat).
    { unfold status_log. destruct (Nat.eqb (S n mod 10) 0); reflexivity. }
    rewrite Hlog. rewrite count_cons, count_nil. cbn [is_get]. lia.
Qed.

(** C1. When a status query answers that the remote task failed, the
    loop logs the reason and throws it, but inside its own [try] block:
    its [catch] block takes the error for a passing network fault,
    since it carries no HTTP response, and the loop goes on to the next
    query.  Against a remote that reports failure at every query the
    poll never ends: whatever the fuel, it is still running, having
    sent one query for each unit of fuel. *)
Theorem poll_continues_after_remote_failure :
  (forall env url apiKey dbTaskId fuel n res m,
     geekai_get env (S n) = inr res ->
     task_status res = Some "failed" ->
     poll_loop env url apiKey dbTaskId (S fuel) n m
     = poll_loop env url apiKey dbTaskId fuel (S n)
         {| tasks := tasks m;
            trace := trace m ++ Sleep 3000 :: HttpGet url apiKey
                       :: status_log dbTaskId (S n) res
                       ++ [Log dbTaskId ("Remote Task Failed: "
                             +:+ or_else (remote_error res) "Task failed remotely")] |})
  /\ (forall fuel,
        fst (pollGeekAIResult rejecting_remote_env fuel "remote-7" "sk-1" "task-1"
               (start_machine None)) = OutOfFuel
        /\ count is_get
             (trace (snd (pollGeekAIResult rejecting_remote_env fuel "remote-7" "sk-1"
                            "task-1" (start_machine None)))) = fuel).
Proof.
  split.
  - intros. now apply poll_loop_step_failed.
  - intros fuel. unfold pollGeekAIResult.
    destruct (poll_rejecting_forever ("https://geekai.co/api/v1/images/" +:+ "remote-7")
                "sk-1" "task-1" fuel 0 (start_machine None)) as [Hr Hc].
    split; [exact Hr|]. rewrite Hc. reflexivity.
Qed.

Lemma poll_continues_after_remote_failure_witness :
  geekai_get rejecting_remote_env 1 = inr failed_answer
  /\ task_status failed_answer = Some "failed"
  /\ fst (poll_loop rejecting_remote_env "u" "sk-1" "task-1" 1 0 (start_machine None))
     = fst (poll_loop rejecting_remote_env "u" "sk-1" "task-1" 0 1
              {| tasks := None;
                 trace := [Sleep 3000; HttpGet "u" "sk-1";
                           Log "task-1" "Remote Task Failed: content policy violation"] |}).
Proof.
  split; [reflexivity|]. split; [reflexivity|].
  rewrite (proj1 poll_continues_after_remote_failure rejecting_remote_env
             "u" "sk-1" "task-1" 0%nat 0%nat failed_answer (start_machine None)
             eq_refl eq_refl).
  reflexivity.
Defined.

(** A remote success ends the poll with the result URL. *)
Lemma poll_returns_url_on_success env url apiKey dbTaskId fuel n res u :
  geekai_get env (S n) = inr res ->
  task_status res = Some "succeed" -> data0_url res = Some u ->
  runs_as (poll_loop env url apiKey dbTaskId (S fuel) n) (Ret u)
    (Sleep 3000 :: HttpGet url apiKey :: status_log dbTaskId (S n) res).
Proof.
  intros Hget Hst Hu. cbn [poll_loop].
  change (Sleep 3000 :: HttpGet url apiKey :: status_log dbTaskId (S n) res)
    with ([Sleep 3000] ++ HttpGet url apiKey :: status_log dbTaskId (S n) res).
  eapply runs_as_bind; [apply runs_as_emit|].
  rewrite <- (app_nil_r (HttpGet url apiKey :: status_log dbTaskId (S n) res)).
  pose proof (poll_turn_succeed env url apiKey dbTaskId (S n) res u Hget Hst Hu) as H.
  rewrite app_nil_r in H.
  eapply runs_as_bind; [exact H|apply runs_as_ret].
Qed.

(** A 4xx answer of the status endpoint ends the poll with an error. *)
Lemma poll_stops_on_client_error env url apiKey dbTaskId fuel n e :
  geekai_get env (S n) = inl e -> is_client_error e = true ->
  exists t,
    runs_as (poll_loop env url apiKey dbTaskId (S fuel) n)
      (Throw (Error (or_else (resp ← response e; d ← resp_data resp; data_message d)
                       "API Error"))) t
    /\ count is_get t = 1%nat.
Proof.
  intros Hget Hc. eexists. split.
  - cbn [poll_loop]. eapply runs_as_bind; [apply runs_as_emit|].
    apply runs_as_bind_throw. eapply poll_turn_client_error; eassumption.
  - reflexivity.
Qed.

(** Against a remote that reports failure at every query the pipeline
    never settles: the task stays in [processing] and its slot is never
    given back. *)
Lemma remote_failure_never_settles (fuel : nat) :
  fst (executeTask rejecting_remote_env fuel "task-1" replacement_request
         (start_machine (Some [stored_task "task-1" pending]))) = OutOfFuel.
Proof.
  destruct (upload_each_spec rejecting_remote_env sample_settings "task-1"
              [img_ref; img_prod] 0 []) as (ru & tu & Hup & _).
  assert (Hru : ru = Ret (map (oss_link sample_settings) [img_ref; img_prod])).
  { rewrite <- (runs_as_result _ _ _ (start_machine None) Hup). vm_compute. reflexivity. }
  subst ru.
  destruct (callGeekAI_spec rejecting_remote_env
              (constructPayload replacement_request
                 (map (oss_link sample_settings) [img_ref; img_prod]))
              "sk-1" "task-1") as (rc & tc & Hcall & _).
  assert (Hrc : rc = Ret "remote-7").
  { rewrite <- (runs_as_result _ _ _ (start_machine None) Hcall). vm_compute. reflexivity. }
  subst rc.
  unfold executeTask, try_catch.
  rewrite (pipeline_after_upload rejecting_remote_env fuel "task-1" replacement_request
             _ tu _ Hup).
  rewrite (submit_and_wait_ret rejecting_remote_env fuel "task-1" replacement_request
             _ _ _ _ Hcall).
  unfold wait_and_finish.
  unfold bind at 1. unfold addTaskLog at 1, emit at 1.
  unfold bind at 1. unfold addTaskLog at 1, emit at 1.
  unfold bind at 1. unfold pollGeekAIResult.
  match goal with
  | |- context [poll_loop ?e ?u ?k ?d ?f ?n ?m] =>
      pose proof (proj1 (poll_rejecting_forever u k d f n m)) as Hpoll;
      destruct (poll_loop e u k d f n m) as [rp mp]
  end.
  simpl in Hpoll. subst rp. reflexivity.
Qed.

(** ** Settling *)

Lemma bind_ret_inv {A B} (c : M A) (k : A -> M B) m b m' :
  bind c k m = (Ret b, m') ->
  exists a m1, c m = (Ret a, m1) /\ k a m1 = (Ret b, m').
Proof.
  unfold bind. destruct (c m) as [[a|e|] m1]; intros H; try discriminate. eauto.
Qed.

Lemma pipeline_ret env fuel taskId req m m' :
  pipeline env fuel taskId req m = (Ret tt, m') ->
  exists m0 duration out,
    tasks m' = updateTask taskId (set_completed (env_localeNow env) duration out) (tasks m0).
Proof.
  intros H.
  repeat (apply bind_ret_inv in H; destruct H as (? & ? & ? & H)).
  unfold addTaskLog, emit in H. inversion H; subst m'; clear H.
  match goal with
  | Hdb : dbUpdateTask _ (set_completed _ _ _) _ = (Ret _, _) |- _ =>
      unfold dbUpdateTask in Hdb; inversion Hdb; subst; clear Hdb
  end.
  simpl. eauto.
Qed.

(** The promise of [executeTask] is never rejected, and when it is
    fulfilled the record of the task, if the history has one, is in a
    terminal state. *)
Lemma executeTask_settles_terminal env fuel taskId req m :
  (forall e, fst (executeTask env fuel taskId req m) <> Throw e)
  /\ (fst (executeTask env fuel taskId req m) = Ret tt ->
      forall t,
        find_task taskId (default [] (tasks (snd (executeTask env fuel taskId req m))))
        = Some t ->
        status t = completed \/ status t = failed).
Proof.
  unfold executeTask, try_catch.
  destruct (pipeline env fuel taskId req m) as [[[]|e|] m1] eqn:Hp.
  - split; [discriminate|]. intros _ t. simpl.
    destruct (pipeline_ret _ _ _ _ _ _ Hp) as (m2 & duration & out & ->).
    rewrite find_task_updateTask by reflexivity.
    destruct (find_task taskId (default [] (tasks m2))); simpl; [|discriminate].
    intros H. inversion H. now left.
  - rewrite on_failure_run. split; [discriminate|]. intros _ t. simpl.
    rewrite find_task_updateTask by reflexivity.
    destruct (find_task taskId (default [] (tasks m1))); simpl; [|discriminate].
    intros H. inversion H. now right.
  - split; [discriminate|]. discriminate.
Qed.

(** * Further properties *)

(** ** The task history *)

Lemma update_first_absent taskId u (l : list TaskItem) :
  find_task taskId l = None -> update_first taskId u l = l.
Proof.
  unfold find_task. induction l as [|t l IH]; simpl; [reflexivity|].
  destruct (str_eq (task_id t) taskId); [discriminate|].
  intros H. now rewrite IH.
Qed.

Lemma update_first_length taskId u (l : list TaskItem) :
  length (update_first taskId u l) = length l.
Proof.
  induction l as [|t l IH]; simpl; [reflexivity|].
  destruct (str_eq (task_id t) taskId); simpl; [reflexivity|now rewrite IH].
Qed.

Lemma update_first_other taskId u (l : list TaskItem) i t :
  l !! i = Some t -> task_id t <> taskId ->
  update_first taskId u l !! i = Some t.
Proof.
  revert i. induction l as [|t0 l IH]; intros i Hi Hne; [discriminate|].
  simpl. destruct (str_eq (task_id t0) taskId) eqn:E.
  - apply str_eq_true in E. destruct i as [|i]; simpl in *.
    + inversion Hi; subst. contradiction.
    + exact Hi.
  - destruct i as [|i]; simpl in *; [exact Hi|]. now apply IH.
Qed.

(** X1. [updateTask] changes nothing when there is no history file or
    no record of that id.  Otherwise the history keeps its length, the
    first record of that id is replaced by its merge with the update
    (so a later lookup of the id finds the merged record, when the
    update does not rename it), and every record of another id stays
    where it is, unchanged. *)
Theorem updateTask_touches_one_record taskId u (file : TasksFile) :
  (find_task taskId (default [] file) = None -> updateTask taskId u file = file)
  /\ length (default [] (updateTask taskId u file)) = length (default [] file)
  /\ (u_id u = None ->
      find_task taskId (default [] (updateTask taskId u file))
      = (fun t => merge t u) <$> find_task taskId (default [] file))
  /\ (forall i t, default [] file !! i = Some t -> task_id t <> taskId ->
        default [] (updateTask taskId u file) !! i = Some t).
Proof.
  destruct file as [l|]; simpl.
  - split.
    { intros H. now rewrite update_first_absent. }
    split; [apply update_first_length|]. split.
    + intros Hu. now apply find_task_update_first.
    + intros i t. apply update_first_other.
  - repeat split; auto; intros i t H; discriminate H.
Qed.

Lemma updateTask_touches_one_record_witness :
  find_task "task-9" (default [] (Some stored_history)) = None
  /\ updateTask "task-9" (set_status failed) (Some stored_history) = Some stored_history
  /\ find_task "task-2"
       (default [] (updateTask "task-2" (set_status failed) (Some stored_history)))
     = Some (merge (stored_task "task-2" completed) (set_status failed)).
Proof.
  split; [reflexivity|]. split.
  - exact (proj1 (updateTask_touches_one_record "task-9" (set_status failed)
                    (Some stored_history)) eq_refl).
  - rewrite (proj1 (proj2 (proj2 (updateTask_touches_one_record "task-2"
               (set_status failed) (Some stored_history)))) eq_refl).
    reflexivity.
Defined.

Lemma update_first_comm a b u v (l : list TaskItem) :
  a <> b -> u_id u = None -> u_id v = None ->
  update_first a u (update_first b v l) = update_first b v (update_first a u l).
Proof.
  intros Hab Hu Hv. induction l as [|t l IH]; simpl; [reflexivity|].
  destruct (str_eq (task_id t) b) eqn:Eb; destruct (str_eq (task_id t) a) eqn:Ea;
    simpl.
  - apply str_eq_true in Eb, Ea. congruence.
  - rewrite ?Hv; simpl; rewrite ?Ea, ?Eb; reflexivity.
  - rewrite ?Hu; simpl; rewrite ?Ea, ?Eb; reflexivity.
  - rewrite ?Ea, ?Eb. now rewrite IH.
Qed.

(** X2. Updates of two different tasks commute, as long as neither
    renames its record: the history is the same whichever pipeline
    writes first. *)
Theorem updateTask_commutes a b u v (file : TasksFile) :
  a <> b -> u_id u = None -> u_id v = None ->
  updateTask a u (updateTask b v file) = updateTask b v (updateTask a u file).
Proof.
  intros Hab Hu Hv. destruct file as [l|]; simpl; [|reflexivity].
  now rewrite update_first_comm.
Qed.

Lemma updateTask_commutes_witness :
  updateTask "task-3" (set_remote_id "r") (updateTask "task-1" (set_status failed)
                                             (Some stored_history))
  = updateTask "task-1" (set_status failed) (updateTask "task-3" (set_remote_id "r")
                                               (Some stored_history)).
Proof.
  apply updateTask_commutes; [discriminate|reflexivity|reflexivity].
Defined.

(** X3. The record a submission stores is the one later updates of
    its id reach: a lookup of the id finds the new record, and an update
    of the id merges into it and leaves the older history as it was,
    even when an older record carries the same id. *)
Theorem submitted_record_is_updated env req (s s' : System) task u :
  submitTask env req s = (inr task, s') ->
  find_task (task_id task) (default [] (tasksFile s')) = Some task
  /\ updateTask (task_id task) u (tasksFile s')
     = Some (merge task u :: default [] (tasksFile s)).
Proof.
  intros Hsub.
  destruct (validateRequest req) as [[e|] r] eqn:Hval.
  - rewrite (submitTask_rejects env _ _ s _ Hval) in Hsub. discriminate Hsub.
  - destruct (submitTask_accepts env req r s Hval) as (s1 & Hs1 & Hfile & _).
    rewrite Hs1 in Hsub. inversion Hsub; subst task s1; clear Hsub.
    rewrite Hfile. unfold find_task. simpl.
    rewrite (proj2 (str_eq_true _ _) eq_refl). auto.
Qed.

Lemma submitted_record_is_updated_witness :
  submitTask (sample_env 1) replacement_request
    {| engine := new_engine;
       tasksFile := Some [stored_task (new_task_id (sample_env 1)) completed];
       running := [] |}
  = (inr (newTask (sample_env 1) replacement_request),
     snd (submitTask (sample_env 1) replacement_request
            {| engine := new_engine;
               tasksFile := Some [stored_task (new_task_id (sample_env 1)) completed];
               running := [] |}))
  /\ updateTask (new_task_id (sample_env 1)) (set_status processing)
       (tasksFile (snd (submitTask (sample_env 1) replacement_request
            {| engine := new_engine;
               tasksFile := Some [stored_task (new_task_id (sample_env 1)) completed];
               running := [] |})))
     = Some [merge (newTask (sample_env 1) replacement_request) (set_status processing);
             stored_task (new_task_id (sample_env 1)) completed].
Proof.
  assert (H : submitTask (sample_env 1) replacement_request
    {| engine := new_engine;
       tasksFile := Some [stored_task (new_task_id (sample_env 1)) completed];
       running := [] |}
  = (inr (newTask (sample_env 1) replacement_request),
     snd (submitTask (sample_env 1) replacement_request
            {| engine := new_engine;
               tasksFile := Some [stored_task (new_task_id (sample_env 1)) completed];
               running := [] |}))) by (vm_compute; reflexivity).
  split; [exact H|].
  exact (proj2 (submitted_record_is_updated _ _ _ _ _ (set_status processing) H)).
Defined.

(** ** Startup recovery, again *)

Lemma recover_task_terminal now t : is_interrupted (recover_task now t) = false.
Proof.
  unfold recover_task. destruct (is_interrupted t) eqn:E; [reflexivity|exact E].
Qed.

Lemma existsb_map_false {A} (f : A -> bool) (g : A -> A) (l : list A) :
  (forall x, f (g x) = false) -> existsb f (map g l) = false.
Proof.
  intros H. induction l as [|x l IH]; simpl; [reflexivity|]. now rewrite H, IH.
Qed.

Lemma existsb_false_map_id {A} (f : A -> bool) (g : A -> A) (l : list A) :
  (forall x, f x = false -> g x = x) -> existsb f l = false -> map g l = l.
Proof.
  intros H. induction l as [|x l IH]; simpl; [reflexivity|].
  intros E. apply orb_false_elim in E. destruct E as [Ex El].
  now rewrite (H x Ex), (IH El).
Qed.

(** X4. After the recovery pass no stored task is pending or
    processing, whatever the history was, and a second pass, at any
    later time, changes nothing. *)
Theorem recoverState_settles now now' (file : TasksFile) :
  (forall t, In t (default [] (recoverState now file)) ->
             status t = completed \/ status t = failed)
  /\ recoverState now' (recoverState now file) = recoverState now file.
Proof.
  destruct file as [tasks|]; simpl; [|split; [intros t []|reflexivity]].
  destruct (existsb is_interrupted tasks) eqn:Hmod; simpl.
  - assert (Hnone : existsb is_interrupted (map (recover_task now) tasks) = false)
      by (apply existsb_map_false; intros; apply recover_task_terminal).
    split.
    + intros t Hin. apply is_interrupted_false.
      destruct (is_interrupted t) eqn:E; [|reflexivity].
      assert (existsb is_interrupted (map (recover_task now) tasks) = true)
        by (apply existsb_exists; eauto).
      congruence.
    + now rewrite Hnone.
  - split.
    + intros t Hin. apply is_interrupted_false.
      destruct (is_interrupted t) eqn:E; [|reflexivity].
      assert (existsb is_interrupted tasks = true) by (apply existsb_exists; eauto).
      congruence.
    + now rewrite Hmod.
Qed.

(** ** Task logs *)

Lemma append_assoc_s (a b c : string) : (a +:+ b) +:+ c = a +:+ (b +:+ c).
Proof.
  induction a as [|x a IH]; [reflexivity|].
  change (String x ((a +:+ b) +:+ c) = String x (a +:+ (b +:+ c))).
  f_equal. exact IH.
Qed.

Lemma has_char_app c (a b : string) :
  has_char c (a +:+ b) = has_char c a || has_char c b.
Proof.
  induction a as [|x a IH]; [reflexivity|].
  change (Ascii.eqb x c || has_char c (a +:+ b)
          = Ascii.eqb x c || has_char c a || has_char c b).
  rewrite IH. apply orb_assoc.
Qed.

Lemma split_on_nonempty c s : split_on c s <> [].
Proof.
  induction s as [|a s IH]; simpl; [discriminate|].
  destruct (Ascii.eqb a c); [discriminate|].
  destruct (split_on c s); [contradiction|discriminate].
Qed.

Lemma split_on_line c (l rest : string) :
  has_char c l = false ->
  split_on c (l +:+ String c rest) = l :: split_on c rest.
Proof.
  induction l as [|a l IH].
  - intros _. change (split_on c (String c rest) = "" :: split_on c rest).
    simpl. now rewrite Ascii.eqb_refl.
  - intros H. simpl in H. apply orb_false_elim in H. destruct H as [Ha Hl].
    change (split_on c (String a (l +:+ String c rest))
            = String a l :: split_on c rest).
    simpl. rewrite Ha, (IH Hl). reflexivity.
Qed.

(** The content of a log that received [entries], cut into lines. *)
Lemma split_on_lines (entries : list (string * string)) :
  Forall single_line entries ->
  split_on "010"
    (fold_right (fun e acc => log_line e +:+ String "010" acc) "" entries)
  = map log_line entries ++ [""].
Proof.
  induction 1 as [|e entries [Hts Hmsg] _ IH]; simpl; [reflexivity|].
  rewrite split_on_line, IH; [reflexivity|].
  unfold log_line. rewrite !has_char_app, Hts, Hmsg. reflexivity.
Qed.

Lemma appendTaskLogs_content taskId (entries : list (string * string)) :
  forall (dir : LogDir),
    entries <> [] ->
    appendTaskLogs taskId entries dir !! taskId
    = Some (default "" (dir !! taskId)
              +:+ fold_right (fun e acc => log_line e +:+ String "010" acc) "" entries).
Proof.
  unfold appendTaskLogs.
  induction entries as [|e entries IH]; intros dir Hne; [contradiction|].
  simpl. destruct entries as [|e' entries'].
  - simpl. unfold appendTaskLog. rewrite lookup_insert_eq. f_equal.
    unfold log_line. now rewrite !append_assoc_s.
  - rewrite IH by discriminate. f_equal.
    unfold appendTaskLog at 1. rewrite lookup_insert_eq. simpl.
    unfold log_line. now rewrite !append_assoc_s.
Qed.

Lemma appendTaskLogs_other taskId other (entries : list (string * string)) :
  other <> taskId ->
  forall (dir : LogDir), appendTaskLogs taskId entries dir !! other = dir !! other.
Proof.
  intros Hne. unfold appendTaskLogs.
  induction entries as [|e entries IH]; intros dir; simpl; [reflexivity|].
  rewrite IH. unfold appendTaskLog. now rewrite lookup_insert_ne.
Qed.

Lemma log_line_not_blank e : not_blank (log_line e) = true.
Proof. reflexivity. Qed.

Lemma filter_log_lines (entries : list (string * string)) :
  List.filter not_blank (map log_line entries ++ [""]) = map log_line entries.
Proof.
  induction entries as [|e entries IH]; simpl; [reflexivity|].
  rewrite IH. reflexivity.
Qed.

(** X5. What [addTaskLog] appends is what [getTasks] shows.  After a
    non-empty sequence of log calls for a task whose log did not exist,
    none of them with a line feed in its message, the task is listed
    with exactly these lines as its [logs], in the order of the calls,
    and with every other field as stored; tasks of other ids are listed
    as they were before the calls. *)
Theorem logs_round_trip taskId (entries : list (string * string))
    (dir : LogDir) (tasks : list TaskItem) :
  dir !! taskId = None ->
  entries <> [] ->
  Forall single_line entries ->
  forall i t,
    tasks !! i = Some t ->
    (task_id t = taskId ->
     getTasks (Some tasks) (appendTaskLogs taskId entries dir) !! i
     = Some (set_logs t (map log_line entries)))
    /\ (task_id t <> taskId ->
        getTasks (Some tasks) (appendTaskLogs taskId entries dir) !! i
        = getTasks (Some tasks) dir !! i).
Proof.
  intros Hfresh Hne Hsingle i t Hi. unfold getTasks.
  change (map (hydrate (appendTaskLogs taskId entries dir)) tasks)
    with (hydrate (appendTaskLogs taskId entries dir) <$> tasks).
  change (map (hydrate dir) tasks) with (hydrate dir <$> tasks).
  rewrite !list_lookup_fmap, Hi. simpl. split; intros Hid.
  - f_equal. unfold hydrate. rewrite Hid.
    rewrite (appendTaskLogs_content taskId entries dir Hne), Hfresh.
    change (default "" None +:+ ?x) with x.
    rewrite (split_on_lines entries Hsingle), filter_log_lines. reflexivity.
  - f_equal. unfold hydrate. now rewrite appendTaskLogs_other.
Qed.

Lemma logs_round_trip_witness :
  getTasks (Some stored_history)
    (appendTaskLogs "task-2" [("10:00:01", "Task init."); ("10:00:02", "Polling...")] ∅)
    !! 1%nat
  = Some (set_logs (stored_task "task-2" completed)
            ["[10:00:01] Task init."; "[10:00:02] Polling..."]).
Proof.
  refine (proj1 (logs_round_trip "task-2"
            [("10:00:01", "Task init."); ("10:00:02", "Polling...")] ∅ stored_history
            _ _ _ 1%nat (stored_task "task-2" completed) eq_refl) eq_refl).
  - reflexivity.
  - discriminate.
  - repeat constructor.
Defined.

(** ** The image catalogue *)





(** ** Configuration *)

Lemma spread_settings_json base c : spread_settings base (settings_json c) = c.
Proof. now destruct c. Qed.

Lemma getConfig_after_save (fs : ConfigFiles) (c : AppSettings) :
  getConfig (saveConfig c fs) = (c, saveConfig c fs).
Proof. unfold getConfig, saveConfig. simpl. now rewrite spread_settings_json. Qed.

(** X7. A saved configuration is read back as it was saved, and reading
    never disturbs what a read returns: after any [getConfig] (which
    may have written the file, from the older file or from the
    defaults) a second [getConfig] returns the same configuration and
    leaves the files alone.  The older file is never written. *)
Theorem config_round_trip (fs : ConfigFiles) (c : AppSettings) :
  getConfig (saveConfig c fs) = (c, saveConfig c fs)
  /\ getConfig (snd (getConfig fs)) = (fst (getConfig fs), snd (getConfig fs))
  /\ old_file (snd (getConfig fs)) = old_file fs
  /\ old_file (saveConfig c fs) = old_file fs.
Proof.
  unfold getConfig, saveConfig. simpl. rewrite spread_settings_json.
  split; [reflexivity|].
  destruct (config_file fs) as [json|] eqn:Hc; simpl.
  - rewrite Hc. auto.
  - destruct (old_file fs) as [oldData|]; simpl; auto.
Qed.

(** X8. [POST /api/config] gives the engine the limit of the body as it
    is, while a restart reads the saved limit through [|| 4]: the two
    agree unless the limit is 0.  A limit of 0 or less stops admission
    (nothing is started, the queue is kept) until the restart, after
    which a saved 0 counts as 4. *)
Theorem saved_limit_and_restart (body : AppSettings) (fs : ConfigFiles) (e : Engine) :
  maxConcurrency (fst (snd (post_config body fs e))) = concurrency body
  /\ maxConcurrency (restart_engine (fst (post_config body fs e)))
     = (if concurrency body =? 0 then 4 else concurrency body)
  /\ (concurrency body <= 0 -> 0 <= activeCount e ->
      snd (post_config body fs e)
      = ({| queue := queue e; activeCount := activeCount e;
            maxConcurrency := concurrency body |}, None)).
Proof.
  unfold post_config, restart_engine. cbn [fst snd].
  rewrite (getConfig_after_save fs body). cbn [fst init concurrency maxConcurrency].
  split; [|split; [reflexivity|]].
  - unfold updateConcurrency.
    destruct (processQueue_cases
        {| queue := queue e; activeCount := activeCount e;
           maxConcurrency := concurrency body |})
      as [[Hp _]|(q & rest & _ & _ & Hp)]; rewrite Hp; reflexivity.
  - intros Hle Hact. unfold updateConcurrency.
    destruct (processQueue_cases
        {| queue := queue e; activeCount := activeCount e;
           maxConcurrency := concurrency body |})
      as [[Hp _]|(q & rest & _ & Hlt & Hp)]; [exact Hp|].
    simpl in Hlt. lia.
Qed.

Lemma saved_limit_and_restart_witness :
  concurrency (settings_with_limit 0) <= 0
  /\ 0 <= activeCount new_engine
  /\ maxConcurrency (restart_engine
       (fst (post_config (settings_with_limit 0)
               {| config_file := None; old_file := None |} new_engine))) = 4
  /\ snd (post_config (settings_with_limit 0)
            {| config_file := None; old_file := None |} new_engine)
     = ({| queue := []; activeCount := 0; maxConcurrency := 0 |}, None).
Proof.
  split; [simpl; lia|]. split; [simpl; lia|]. split.
  - exact (proj1 (proj2 (saved_limit_and_restart (settings_with_limit 0)
                           {| config_file := None; old_file := None |} new_engine))).
  - apply (proj2 (proj2 (saved_limit_and_restart (settings_with_limit 0)
                           {| config_file := None; old_file := None |} new_engine)));
      simpl; lia.
Defined.

(** ** Validation, again *)

Lemma set_input_images_twice req l1 l2 :
  set_input_images (set_input_images req l1) l2 = set_input_images req l2.
Proof. reflexivity. Qed.

Lemma filter_foreign c (extra : list ImageItem) :
  In c role_tags -> Forall foreign extra ->
  List.filter (has_category c) extra = [].
Proof.
  intros Hc. induction 1 as [|i extra Hi _ IH]; simpl; [reflexivity|].
  unfold has_category at 1. rewrite bool_decide_eq_false_2 by (now apply Hi).
  exact IH.
Qed.

Lemma filter_with_foreign c (imgs extra l : list ImageItem) :
  In c role_tags -> Forall foreign extra ->
  Permutation (imgs ++ extra) l ->
  length (List.filter (has_category c) imgs) = 1%nat ->
  List.filter (has_category c) l = List.filter (has_category c) imgs.
Proof.
  intros Hc Hext HP H1.
  assert (Hf : List.filter (has_category c) (imgs ++ extra)
               = List.filter (has_category c) imgs).
  { rewrite List.filter_app, (filter_foreign c extra Hc Hext). apply app_nil_r. }
  rewrite <- Hf. apply filter_unique_order; [exact HP|]. now rewrite Hf.
Qed.

(** The shape of a request that passed validation. *)
Lemma validateRequest_ok_shape req r :
  validateRequest req = (None, r) ->
  required_present req
  /\ ((stage req = "hairstyle_extraction"
       /\ exists x m,
            List.filter (has_category "hair-ref") (input_images req) = [x]
            /\ List.filter (has_category "hair-mannequin") (input_images req) = [m]
            /\ r = set_input_images req [x; m])
      \/ (stage req = "doll_assembly"
          /\ exists h b c,
               List.filter (has_category "asm-hair") (input_images req) = [h]
               /\ List.filter (has_category "asm-body") (input_images req) = [b]
               /\ List.filter (has_category "asm-cloth") (input_images req) = [c]
               /\ r = set_input_images req [h; b; c])
      \/ (stage req = "doll_replacement"
          /\ exists x p,
               List.filter (has_category "rep-ref") (input_images req) = [x]
               /\ List.filter (has_category "rep-prod") (input_images req) = [p]
               /\ r = set_input_images req [x; p])
      \/ (~ known_stage (stage req) /\ r = req)).
Proof.
  intros Hval.
  split; [exact (proj1 (validateRequest_ok_rules _ _ Hval))|].
  unfold validateRequest in Hval.
  unfold WorkflowStage.HAIRSTYLE_EXTRACTION, WorkflowStage.DOLL_ASSEMBLY,
    WorkflowStage.DOLL_REPLACEMENT in Hval.
  destruct (falsy (geekaiApiKey (settings req))); [discriminate|].
  destruct (falsy (req_model req)); [discriminate|].
  destruct (falsy (size req)); [discriminate|].
  destruct (falsy (aspect_ratio req)); [discriminate|].
  cbv zeta in Hval.
  destruct (str_eq (stage req) "hairstyle_extraction") eqn:E1.
  { apply str_eq_true in E1.
    destruct (len_ne_1 _) eqn:L1 in Hval; [discriminate|].
    destruct (len_ne_1 _) eqn:L2 in Hval; [discriminate|].
    apply len_ne_1_false in L1, L2.
    destruct (singleton_of_length_1 _ L1) as [x Hx].
    destruct (singleton_of_length_1 _ L2) as [m Hm].
    rewrite Hx, Hm in Hval. simpl in Hval. inversion Hval. left. eauto 10. }
  destruct (str_eq (stage req) "doll_assembly") eqn:E2.
  { apply str_eq_true in E2.
    destruct (len_ne_1 _) eqn:L1 in Hval; [discriminate|].
    destruct (len_ne_1 _) eqn:L2 in Hval; [discriminate|].
    destruct (len_ne_1 _) eqn:L3 in Hval; [discriminate|].
    apply len_ne_1_false in L1, L2, L3.
    destruct (singleton_of_length_1 _ L1) as [h Hh].
    destruct (singleton_of_length_1 _ L2) as [b Hb].
    destruct (singleton_of_length_1 _ L3) as [c Hc].
    rewrite Hh, Hb, Hc in Hval. simpl in Hval. inversion Hval.
    right. left. eauto 10. }
  destruct (str_eq (stage req) "doll_replacement") eqn:E3.
  { apply str_eq_true in E3.
    destruct (len_ne_1 _) eqn:L1 in Hval; [discriminate|].
    destruct (len_ne_1 _) eqn:L2 in Hval; [discriminate|].
    apply len_ne_1_false in L1, L2.
    destruct (singleton_of_length_1 _ L1) as [x Hx].
    destruct (singleton_of_length_1 _ L2) as [p Hp].
    rewrite Hx, Hp in Hval. simpl in Hval. inversion Hval.
    right. right. left. eauto 10. }
  apply str_eq_false in E1, E2, E3.
  inversion Hval. right. right. right. split; [|reflexivity].
  intros [K|[K|K]]; congruence.
Qed.

(** The other direction: what makes a request of a known stage pass. *)
Lemma validateRequest_hair req x m :
  required_present req -> stage req = "hairstyle_extraction" ->
  List.filter (has_category "hair-ref") (input_images req) = [x] ->
  List.filter (has_category "hair-mannequin") (input_images req) = [m] ->
  validateRequest req = (None, set_input_images req [x; m]).
Proof.
  intros (Hk & Hm & Hs & Ha) Hst Hx Hmn. unfold validateRequest.
  rewrite (proj2 (falsy_false _) Hk), (proj2 (falsy_false _) Hm),
    (proj2 (falsy_false _) Hs), (proj2 (falsy_false _) Ha).
  cbv zeta. rewrite Hst, Hx, Hmn. reflexivity.
Qed.

Lemma validateRequest_assembly req h b c :
  required_present req -> stage req = "doll_assembly" ->
  List.filter (has_category "asm-hair") (input_images req) = [h] ->
  List.filter (has_category "asm-body") (input_images req) = [b] ->
  List.filter (has_category "asm-cloth") (input_images req) = [c] ->
  validateRequest req = (None, set_input_images req [h; b; c]).
Proof.
  intros (Hk & Hm & Hs & Ha) Hst Hh Hb Hc. unfold validateRequest.
  rewrite (proj2 (falsy_false _) Hk), (proj2 (falsy_false _) Hm),
    (proj2 (falsy_false _) Hs), (proj2 (falsy_false _) Ha).
  cbv zeta. rewrite Hst, Hh, Hb, Hc. reflexivity.
Qed.

Lemma validateRequest_replacement req x p :
  required_present req -> stage req = "doll_replacement" ->
  List.filter (has_category "rep-ref") (input_images req) = [x] ->
  List.filter (has_category "rep-prod") (input_images req) = [p] ->
  validateRequest req = (None, set_input_images req [x; p]).
Proof.
  intros (Hk & Hm & Hs & Ha) Hst Hx Hp. unfold validateRequest.
  rewrite (proj2 (falsy_false _) Hk), (proj2 (falsy_false _) Hm),
    (proj2 (falsy_false _) Hs), (proj2 (falsy_false _) Ha).
  cbv zeta. rewrite Hst, Hx, Hp. reflexivity.
Qed.

Lemma filter_head c (x : ImageItem) (l : list ImageItem) :
  List.filter (has_category c) l = [x] -> category x = Some c.
Proof.
  intros H. assert (Hin : In x (List.filter (has_category c) l)) by (rewrite H; now left).
  apply filter_In in Hin. destruct Hin as [_ Hc].
  unfold has_category in Hc. now apply bool_decide_eq_true in Hc.
Qed.

Lemma has_category_yes c x : category x = Some c -> has_category c x = true.
Proof. intros H. unfold has_category. now apply bool_decide_eq_true. Qed.

Lemma has_category_no c d x : category x = Some d -> d <> c -> has_category c x = false.
Proof. intros H Hd. unfold has_category. apply bool_decide_eq_false. congruence. Qed.

(** X9. Validation is idempotent: the request as validation leaves it
    passes validation again and is left as it is, so the order fixed at
    submission is the order any later check sees. *)
Theorem validateRequest_idempotent req r :
  validateRequest req = (None, r) -> validateRequest r = (None, r).
Proof.
  intros Hval.
  destruct (validateRequest_ok_shape _ _ Hval) as [Hreq Hshape].
  destruct Hshape as [(Hst & x & m & Hx & Hm & ->)
                     |[(Hst & h & b & c & Hh & Hb & Hc & ->)
                      |[(Hst & x & p & Hx & Hp & ->)|(_ & ->)]]];
    [| | |exact Hval].
  - pose proof (filter_head _ _ _ Hx) as Cx. pose proof (filter_head _ _ _ Hm) as Cm.
    rewrite (validateRequest_hair (set_input_images req [x; m]) x m);
      [reflexivity|exact Hreq|exact Hst| |]; simpl.
    + rewrite (has_category_yes _ _ Cx), (has_category_no _ _ _ Cm); [reflexivity|discriminate].
    + rewrite (has_category_no _ _ _ Cx), (has_category_yes _ _ Cm); [reflexivity|discriminate].
  - pose proof (filter_head _ _ _ Hh) as Ch. pose proof (filter_head _ _ _ Hb) as Cb.
    pose proof (filter_head _ _ _ Hc) as Cc.
    rewrite (validateRequest_assembly (set_input_images req [h; b; c]) h b c);
      [reflexivity|exact Hreq|exact Hst| | |]; simpl.
    + rewrite (has_category_yes _ _ Ch), (has_category_no _ _ _ Cb),
        (has_category_no _ _ _ Cc); [reflexivity|discriminate|discriminate].
    + rewrite (has_category_no _ _ _ Ch), (has_category_yes _ _ Cb),
        (has_category_no _ _ _ Cc); [reflexivity|discriminate|discriminate].
    + rewrite (has_category_no _ _ _ Ch), (has_category_no _ _ _ Cb),
        (has_category_yes _ _ Cc); [reflexivity|discriminate|discriminate].
  - pose proof (filter_head _ _ _ Hx) as Cx. pose proof (filter_head _ _ _ Hp) as Cp.
    rewrite (validateRequest_replacement (set_input_images req [x; p]) x p);
      [reflexivity|exact Hreq|exact Hst| |]; simpl.
    + rewrite (has_category_yes _ _ Cx), (has_category_no _ _ _ Cp); [reflexivity|discriminate].
    + rewrite (has_category_no _ _ _ Cx), (has_category_yes _ _ Cp); [reflexivity|discriminate].
Qed.

Lemma validateRequest_idempotent_witness :
  validateRequest reversed_request
  = (None, set_input_images reversed_request [img_ref; img_prod])
  /\ validateRequest (set_input_images reversed_request [img_ref; img_prod])
     = (None, set_input_images reversed_request [img_ref; img_prod]).
Proof.
  assert (H : validateRequest reversed_request
              = (None, set_input_images reversed_request [img_ref; img_prod]))
    by reflexivity.
  split; [exact H|]. exact (validateRequest_idempotent _ _ H).
Defined.

(** X10. Images that play no role in any stage do not count and are
    dropped: when a request of a known stage passes, the same request
    with such images added, anywhere in the list, passes with the same
    normalised request, so the stored task never lists them.  An image
    uploaded without a category is such an image. *)
Theorem foreign_images_dropped req r (extra imgs' : list ImageItem) :
  validateRequest req = (None, r) ->
  known_stage (stage req) ->
  Forall foreign extra ->
  Permutation (input_images req ++ extra) imgs' ->
  validateRequest (set_input_images req imgs') = (None, r)
  /\ (forall body_id now filename path name,
        foreign (uploaded_image body_id None now filename path name)).
Proof.
  intros Hval Hknown Hext HP. split.
  - destruct (validateRequest_ok_shape _ _ Hval) as [Hreq Hshape].
    destruct Hshape as [(Hst & x & m & Hx & Hm & ->)
                       |[(Hst & h & b & c & Hh & Hb & Hc & ->)
                        |[(Hst & x & p & Hx & Hp & ->)|(Hunk & _)]]];
      [| | |contradiction].
    + rewrite (validateRequest_hair (set_input_images req imgs') x m);
        [reflexivity|exact Hreq|exact Hst| |]; simpl.
      * rewrite (filter_with_foreign _ _ _ _ (or_introl eq_refl) Hext HP); rewrite Hx; reflexivity.
      * rewrite (filter_with_foreign _ (input_images req) extra); rewrite ?Hm; auto.
        simpl. auto.
    + rewrite (validateRequest_assembly (set_input_images req imgs') h b c);
        [reflexivity|exact Hreq|exact Hst| | |]; simpl.
      * rewrite (filter_with_foreign _ (input_images req) extra); rewrite ?Hh; auto.
        simpl. auto.
      * rewrite (filter_with_foreign _ (input_images req) extra); rewrite ?Hb; auto.
        simpl. auto 10.
      * rewrite (filter_with_foreign _ (input_images req) extra); rewrite ?Hc; auto.
        simpl. auto 10.
    + rewrite (validateRequest_replacement (set_input_images req imgs') x p);
        [reflexivity|exact Hreq|exact Hst| |]; simpl.
      * rewrite (filter_with_foreign _ (input_images req) extra); rewrite ?Hx; auto.
        simpl. auto 10.
      * rewrite (filter_with_foreign _ (input_images req) extra); rewrite ?Hp; auto.
        simpl. auto 10.
  - intros body_id now filename path name c Hc. simpl.
    unfold role_tags in Hc. simpl in Hc.
    repeat (destruct Hc as [<-|Hc]; [discriminate|]). contradiction.
Qed.

Lemma foreign_images_dropped_witness :
  validateRequest replacement_request = (None, replacement_request)
  /\ validateRequest
       (set_input_images replacement_request
          [sample_image "x.jpg" "uncategorized"; img_ref; img_prod])
     = (None, replacement_request).
Proof.
  assert (H : validateRequest replacement_request = (None, replacement_request))
    by reflexivity.
  split; [exact H|].
  apply (proj1 (foreign_images_dropped replacement_request replacement_request
                  [sample_image "x.jpg" "uncategorized"]
                  [sample_image "x.jpg" "uncategorized"; img_ref; img_prod] H
                  (or_intror (or_intror eq_refl))
                  ltac:(constructor; [|constructor];
                        intros c Hc; unfold role_tags in Hc; simpl in Hc;
                        repeat (destruct Hc as [<-|Hc]; [discriminate|]);
                        contradiction)
                  ltac:(simpl; symmetry; apply Permutation_cons_append
                        with (l := [img_ref; img_prod])))).
Defined.

(** ** Admission order *)

Lemma processQueue_order (e : Engine) :
  start_of (snd (processQueue e))
    ++ map (fun req => (_taskId req, req)) (queue (fst (processQueue e)))
  = map (fun req => (_taskId req, req)) (queue e).
Proof.
  destruct (processQueue_cases e) as [[-> _]|(req & rest & Hq & _ & ->)]; simpl.
  - reflexivity.
  - rewrite Hq. reflexivity.
Qed.

Lemma step_order (s s' : System) (ev : Event) :
  step s ev = Some s' ->
  step_starts s ev ++ waiting s' = waiting s ++ accepted [ev].
Proof.
  destruct ev as [env req|k|limit]; simpl.
  - unfold submitTask. destruct (validateRequest req) as [[err|] req1].
    + intros H. inversion H. simpl. now rewrite app_nil_r.
    + cbv zeta.
      match goal with |- context [processQueue ?e] => set (e1 := e) end.
      pose proof (processQueue_order e1) as Hpq.
      destruct (processQueue e1) as [e2 started]. intros H. inversion H.
      unfold waiting. simpl in *. rewrite Hpq. unfold e1. simpl.
      now rewrite map_app.
  - destruct (running s !! k); [|discriminate].
    unfold onSettled.
    match goal with |- context [processQueue ?e] => set (e1 := e) end.
    pose proof (processQueue_order e1) as Hpq.
    destruct (processQueue e1) as [e2 started]. intros H. inversion H.
    unfold waiting. simpl in *. rewrite Hpq. unfold e1. simpl.
    now rewrite app_nil_r.
  - unfold updateConcurrency.
    match goal with |- context [processQueue ?e] => set (e1 := e) end.
    pose proof (processQueue_order e1) as Hpq.
    destruct (processQueue e1) as [e2 started]. intros H. inversion H.
    unfold waiting. simpl in *. rewrite Hpq. unfold e1. simpl.
    now rewrite app_nil_r.
Qed.

Lemma accepted_cons ev evs : accepted (ev :: evs) = accepted [ev] ++ accepted evs.
Proof.
  destruct ev as [env req|k|limit]; simpl; try reflexivity.
  destruct (validateRequest req) as [[err|] req1]; reflexivity.
Qed.

(** X11. Admission is first in, first out, and loses nothing: after any
    run of submissions, settlements and changes of the limit, the
    pipelines started so far followed by the requests still queued are
    the queue of the beginning followed by the accepted submissions, in
    the order they were made, each normalised and carrying the id of its
    record.  From a start of the server, where the queue is empty, they
    are exactly the accepted submissions. *)
Theorem admission_is_fifo (s s' : System) (evs : list Event) :
  run s evs = Some s' ->
  run_starts s evs ++ waiting s' = waiting s ++ accepted evs
  /\ (queue (engine s) = [] -> run_starts s evs ++ waiting s' = accepted evs).
Proof.
  intros Hrun.
  assert (H : run_starts s evs ++ waiting s' = waiting s ++ accepted evs).
  { revert s Hrun. induction evs as [|ev evs IH]; intros s Hrun.
    - simpl in *. inversion Hrun. now rewrite app_nil_r.
    - simpl in Hrun. cbn [run_starts]. destruct (step s ev) as [s1|] eqn:Hstep; [|discriminate].
      rewrite <- app_assoc, (IH _ Hrun), app_assoc, (step_order _ _ _ Hstep).
      rewrite <- app_assoc, <- accepted_cons. reflexivity. }
  split; [exact H|].
  intros Hq. rewrite H. unfold waiting. rewrite Hq. reflexivity.
Qed.

Lemma admission_is_fifo_witness :
  run_starts (boot (settings_with_limit 1) None)
    [Submit (sample_env 1) replacement_request;
     Submit (sample_env 2) reversed_request;
     Submit (sample_env 3) (sample_request "doll_replacement" []);
     Settle 0]
  = accepted
      [Submit (sample_env 1) replacement_request;
       Submit (sample_env 2) reversed_request;
       Submit (sample_env 3) (sample_request "doll_replacement" []);
       Settle 0]
  /\ length (accepted
      [Submit (sample_env 1) replacement_request;
       Submit (sample_env 2) reversed_request;
       Submit (sample_env 3) (sample_request "doll_replacement" []);
       Settle 0]) = 2%nat.
Proof.
  split; [|reflexivity].
  pose proof (admission_is_fifo (boot (settings_with_limit 1) None)
    (default empty_system
       (run (boot (settings_with_limit 1) None)
          [Submit (sample_env 1) replacement_request;
           Submit (sample_env 2) reversed_request;
           Submit (sample_env 3) (sample_request "doll_replacement" []);
           Settle 0]))
    [Submit (sample_env 1) replacement_request;
     Submit (sample_env 2) reversed_request;
     Submit (sample_env 3) (sample_request "doll_replacement" []);
     Settle 0] eq_refl) as [H _].
  rewrite app_nil_r in H. exact H.
Defined.

(** ** The payload and the selectors of the front end *)

(** X12. Every aspect ratio other than [Auto] that the selectors offer
    for a model and a size reaches the remote service in exactly one
    place of the payload: the [aspect_ratio] field, a [--ratio]
    directive at the end of the prompt, or the pixel size of the 2K
    table (an entry exists for each offered ratio, so the fallback size
    is never used); the rest of the payload is that of [Auto].  The
    exception is the model [jimeng_t2i_v40]: the selectors offer it
    ratios, and the payload is the one of [Auto] whatever is chosen. *)
Theorem offered_ratio_routing (req : GenerateRequest) (links : list string) :
  offered (req_model req) (size req) (aspect_ratio req) ->
  aspect_ratio req <> "Auto" ->
  let p := constructPayload req links in
  let p0 := constructPayload (with_ratio req "Auto") links in
  p_model p = req_model req /\ p_image p = links
  /\ if str_eq (req_model req) "jimeng_t2i_v40" then p = p0
     else ratio_in_field (aspect_ratio req) p0 p
          \/ ratio_in_prompt (aspect_ratio req) p0 p
          \/ ratio_in_size (aspect_ratio req) p0 p.
Proof.
  intros (ratios & sizes & Hm & Hr & Hs) Hauto p p0.
  split; [|split].
  - unfold p, constructPayload. cbv zeta.
    repeat match goal with |- context [if ?c then _ else _] => destruct c end;
      reflexivity.
  - unfold p, constructPayload. cbv zeta.
    repeat match goal with |- context [if ?c then _ else _] => destruct c end;
      reflexivity.
  - unfold MODEL_CONFIGS in Hm. simpl in Hm.
    unfold p, p0, constructPayload, ratio_in_field, ratio_in_prompt, ratio_in_size.
    cbn [req_model size aspect_ratio stage settings with_ratio].
    repeat (destruct Hm as [Hm|Hm];
            [injection Hm as Hmodel Hrs Hss; subst ratios sizes|]);
      try contradiction;
      rewrite <- Hmodel; clear Hmodel;
      unfold DOUBAO_RATIOS, NANO_RATIOS in Hr; simpl in Hr, Hs;
      repeat (destruct Hr as [Hr|Hr];
              [first [exfalso; apply Hauto; symmetry; exact Hr
                     |rewrite <- Hr; clear Hr Hauto]|]);
      try contradiction;
      repeat (destruct Hs as [Hs|Hs]; [rewrite <- Hs; clear Hs|]);
      try contradiction;
      first [ reflexivity
            | left; repeat split; reflexivity
            | right; left; repeat split; reflexivity
            | right; right; repeat split; [discriminate|reflexivity..] ].
Qed.

Lemma offered_ratio_routing_witness :
  ratio_in_size "16:9"
    (constructPayload
       (with_ratio
          {| stage := "doll_assembly"; req_model := "doubao-seedream-4.5";
             size := "2K"; aspect_ratio := "16:9";
             input_images := [img_hair; img_body; img_cloth];
             settings := sample_settings; _taskId := None |} "Auto")
       ["https://oss/a.jpg"])
    (constructPayload
       {| stage := "doll_assembly"; req_model := "doubao-seedream-4.5";
          size := "2K"; aspect_ratio := "16:9";
          input_images := [img_hair; img_body; img_cloth];
          settings := sample_settings; _taskId := None |}
       ["https://oss/a.jpg"])
  /\ p_size (constructPayload
       {| stage := "doll_assembly"; req_model := "doubao-seedream-4.5";
          size := "2K"; aspect_ratio := "16:9";
          input_images := [img_hair; img_body; img_cloth];
          settings := sample_settings; _taskId := None |}
       ["https://oss/a.jpg"]) = Some "2560x1440".
Proof.
  split; [|reflexivity].
  destruct (offered_ratio_routing
    {| stage := "doll_assembly"; req_model := "doubao-seedream-4.5";
       size := "2K"; aspect_ratio := "16:9";
       input_images := [img_hair; img_body; img_cloth];
       settings := sample_settings; _taskId := None |}
    ["https://oss/a.jpg"]
    ltac:(exists DOUBAO_RATIOS, ["2K"; "4K"]; simpl; unfold DOUBAO_RATIOS; simpl; tauto)
    ltac:(discriminate)) as (_ & _ & [H|[H|H]]).
  - destruct H as [H _]. discriminate H.
  - destruct H as [_ [_ H]]. discriminate H.
  - exact H.
Defined.

(** ** Polling and download, in general *)















(** ** The pipeline and the history *)

Lemma grows_upload (I : TasksFile -> Prop) env images st taskId :
  grows I (uploadImagesToOSS env images st taskId).
Proof.
  unfold uploadImagesToOSS.
  destruct (falsy (ossAccessKeyId st) || falsy (ossBucketName st)).
  - eapply grows_runs_as. apply runs_as_throw.
  - destruct (upload_each_spec env st taskId images 0 []) as (r & t & H & _).
    eapply grows_runs_as. exact H.
Qed.

Lemma grows_callGeekAI (I : TasksFile -> Prop) env payload apiKey taskId :
  grows I (callGeekAI env payload apiKey taskId).
Proof.
  destruct (callGeekAI_spec env payload apiKey taskId) as (r & t & H & _).
  eapply grows_runs_as. exact H.
Qed.

Lemma grows_poll (I : TasksFile -> Prop) env fuel id apiKey taskId :
  grows I (pollGeekAIResult env fuel id apiKey taskId).
Proof.
  unfold pollGeekAIResult.
  destruct (poll_loop_total env ("https://geekai.co/api/v1/images/" +:+ id)
              apiKey taskId fuel 0) as (r & t & H).
  eapply grows_runs_as. exact H.
Qed.

Lemma grows_download (I : TasksFile -> Prop) env fuel url saveDir taskId :
  grows I (downloadImage env fuel url saveDir taskId).
Proof.
  unfold downloadImage. cbv zeta.
  match goal with
  | |- grows _ (download_loop ?e ?u ?f ?t ?fu ?n) =>
      destruct (download_loop_total e u f t fu n) as (r & tr & H)
  end.
  eapply grows_runs_as. exact H.
Qed.

(** Any property of the history that updates of the record of [taskId]
    keep, as long as they leave its identity alone, is kept by the whole
    of [executeTask]. *)
Lemma executeTask_grows (I : TasksFile -> Prop) env fuel taskId req :
  (forall u f, keeps_identity u -> I f -> I (updateTask taskId u f)) ->
  grows I (executeTask env fuel taskId req).
Proof.
  intros Hupd.
  assert (Hdb : forall u, keeps_identity u -> grows I (dbUpdateTask taskId u)).
  { intros u Hu. apply grows_dbUpdateTask. intros f Hf. now apply Hupd. }
  unfold executeTask. apply grows_try_catch.
  - unfold pipeline.
    apply grows_bind; [apply Hdb; repeat split|intros _].
    apply grows_bind; [apply grows_log|intros _].
    apply grows_bind; [apply grows_log|intros _].
    apply grows_bind; [apply grows_log|intros _].
    apply grows_bind; [apply grows_upload|intros links].
    unfold after_upload.
    apply grows_bind; [apply grows_log|intros _].
    apply grows_bind; [eapply grows_runs_as; apply log_links_run|intros _].
    apply grows_bind; [apply grows_log|intros _]. cbv zeta.
    apply grows_bind; [apply grows_log|intros _].
    apply grows_bind; [apply grows_log|intros _].
    apply grows_bind; [apply grows_log|intros _].
    unfold submit_and_wait.
    apply grows_bind; [apply grows_log|intros _].
    apply grows_bind; [apply grows_callGeekAI|intros id].
    apply grows_bind; [apply Hdb; repeat split|intros _].
    unfold wait_and_finish.
    apply grows_bind; [apply grows_log|intros _].
    apply grows_bind; [apply grows_log|intros _].
    apply grows_bind; [apply grows_poll|intros resultUrl].
    apply grows_bind; [apply grows_log|intros _].
    apply grows_bind; [apply grows_log|intros _].
    apply grows_bind; [apply grows_download|intros localPath].
    apply grows_bind; [apply grows_log|intros _]. cbv zeta.
    apply grows_bind; [apply grows_calculateDuration|intros duration].
    apply grows_bind; [apply Hdb; repeat split|intros _].
    apply grows_log.
  - intros e. unfold on_failure. cbv zeta.
    apply grows_bind; [apply grows_log|intros _].
    apply Hdb. repeat split.
Qed.

Lemma same_identity_refl t : same_identity t t.
Proof. repeat split. Qed.

Lemma only_touches_refl taskId (f : TasksFile) : only_touches taskId f f.
Proof.
  destruct f as [l|]; simpl; [|exact I].
  induction l as [|t l IH]; constructor; [|exact IH].
  split; [apply same_identity_refl|reflexivity].
Qed.

Lemma only_touches_update taskId u (f0 f : TasksFile) :
  keeps_identity u -> only_touches taskId f0 f ->
  only_touches taskId f0 (updateTask taskId u f).
Proof.
  intros (Hid & Hty & Hmo & Hin & Hst) H.
  destruct f0 as [l0|], f as [l|]; simpl in *; try contradiction; [|exact I].
  induction H as [|t0 t l0 l [Hsame Hother] Htail IH]; simpl; [constructor|].
  destruct (str_eq (task_id t) taskId) eqn:E.
  - constructor; [|exact Htail].
    destruct Hsame as (S1 & S2 & S3 & S4 & S5).
    split.
    + unfold same_identity, merge. simpl.
      rewrite Hid, Hty, Hmo, Hin, Hst. simpl. auto.
    + intros Hne. exfalso. apply Hne. apply str_eq_true in E. congruence.
  - constructor; [split; assumption|exact IH].
Qed.

(** X15. [executeTask] writes to the record of its own task only.  In
    the history it leaves, every record of another id is as it was and
    in its place, no record is added or removed, and the records with
    the id of the task keep their id, type, model, input images and
    start time.  This holds however the pipeline ends: completed,
    failed, or still waiting. *)
Theorem executeTask_touches_own_record env fuel taskId req m :
  only_touches taskId (tasks m) (tasks (snd (executeTask env fuel taskId req m)))
  /\ exists t, trace (snd (executeTask env fuel taskId req m)) = trace m ++ t.
Proof.
  apply (executeTask_grows (only_touches taskId (tasks m))).
  - intros u f Hu Hf. now apply only_touches_update.
  - apply only_touches_refl.
Qed.






(** ** The front end and the server *)

Lemma first_selected_in (l : list ImageItem) (x : ImageItem) (c : string) :
  Forall (fun i => category i = Some c) l ->
  first_selected l = Some x -> category x = Some c.
Proof.
  intros Hall Hfind. unfold first_selected in Hfind.
  apply find_some in Hfind. destruct Hfind as [Hin _].
  rewrite List.Forall_forall in Hall. now apply Hall.
Qed.

Lemma handleGenerate_some cs st stage model size ratio imgs req :
  handleGenerate cs st stage model size ratio imgs = Some req ->
  geekaiApiKey st <> ""
  /\ req = {| stage := stage; req_model := model; size := size;
              aspect_ratio := ratio; input_images := imgs;
              settings := st; _taskId := None |}.
Proof.
  unfold handleGenerate.
  destruct (bool_decide (cs = Disconnected)); [discriminate|].
  destruct (falsy (geekaiApiKey st)) eqn:Hk; [discriminate|].
  intros H. inversion H. split; [|reflexivity]. now apply falsy_false.
Qed.

Lemma mergePreservingSelection_category c (prev new : list ImageItem) :
  Forall (fun i => category i = Some c) new ->
  Forall (fun i => category i = Some c) (mergePreservingSelection prev new).
Proof.
  intros H. unfold mergePreservingSelection. cbv zeta.
  induction H as [|i l Hi _ IH]; simpl; constructor; [exact Hi|exact IH].
Qed.

Lemma filter_has_category c (l : list ImageItem) :
  Forall (fun i => category i = Some c) (List.filter (has_category c) l).
Proof.
  rewrite List.Forall_forall. intros i Hi. apply filter_In in Hi.
  destruct Hi as [_ Hc]. unfold has_category in Hc. now apply bool_decide_eq_true in Hc.
Qed.

Lemma refresh_grid_category c prev all :
  Forall (fun i => category i = Some c) (refresh_grid c prev all).
Proof. apply mergePreservingSelection_category, filter_has_category. Qed.

Lemma handleSelect_category c id (l : list ImageItem) :
  Forall (fun i => category i = Some c) l ->
  Forall (fun i => category i = Some c) (handleSelect id l).
Proof.
  intros H. unfold handleSelect.
  induction H as [|i l Hi _ IH]; simpl; constructor; [|exact IH].
  destruct (str_eq (img_id i) id); exact Hi.
Qed.

(** ** The selectors *)

Lemma currentConfig_in st cfg :
  currentConfig st = Some cfg -> In (sel_model st, cfg) MODEL_CONFIGS.
Proof.
  unfold currentConfig. destruct (List.find _ MODEL_CONFIGS) as [[m c]|] eqn:Hf;
    [|discriminate].
  simpl. intros H. inversion H; subst c.
  apply find_some in Hf. destruct Hf as [Hin Heq]. simpl in Heq.
  apply str_eq_true in Heq. now subst m.
Qed.

Lemma config_sizes m ratios sizes s :
  In (m, (ratios, sizes)) MODEL_CONFIGS -> In s sizes -> In s ["1K"; "2K"; "4K"].
Proof.
  unfold MODEL_CONFIGS. simpl.
  intros Hm Hs.
  repeat (destruct Hm as [Hm|Hm];
          [injection Hm as _ _ Hss; subst sizes; simpl in Hs; tauto|]).
  contradiction.
Qed.

Lemma config_ratios m ratios sizes r :
  In (m, (ratios, sizes)) MODEL_CONFIGS -> In r ratios -> In r NANO_RATIOS.
Proof.
  unfold MODEL_CONFIGS. simpl.
  intros Hm Hr.
  repeat (destruct Hm as [Hm|Hm];
          [injection Hm as _ Hrs _; subst ratios;
           unfold DOUBAO_RATIOS, NANO_RATIOS in *; simpl in *; tauto|]).
  contradiction.
Qed.

Lemma selectable_fields st :
  selectable st ->
  In (sel_model st) (map fst MODEL_CONFIGS)
  /\ In (sel_size st) ["1K"; "2K"; "4K"]
  /\ In (sel_ratio st) NANO_RATIOS.
Proof.
  intros Hsel. induction Hsel as [|st ev _ (IHm & IHs & IHr) Hev].
  - simpl. unfold NANO_RATIOS. simpl. tauto.
  - destruct ev as [m|s|r]; simpl in *.
    + auto.
    + destruct Hev as ([ratios sizes] & Hcfg & Hs).
      apply currentConfig_in in Hcfg.
      repeat split; [exact IHm| |exact IHr].
      eapply config_sizes; eassumption.
    + destruct Hev as ([ratios sizes] & Hcfg & Hr).
      apply currentConfig_in in Hcfg.
      repeat split; [exact IHm|exact IHs|].
      eapply config_ratios; eassumption.
Qed.

Lemma mixed_selection_selectable : selectable mixed_selection.
Proof.
  unfold mixed_selection.
  apply selectable_select; [|simpl; unfold MODEL_CONFIGS; simpl; tauto].
  apply selectable_select;
    [|eexists; split; [reflexivity|unfold NANO_RATIOS; simpl; tauto]].
  apply selectable_select; [|eexists; split; [reflexivity|simpl; tauto]].
  apply selectable_select; [|simpl; unfold MODEL_CONFIGS; simpl; tauto].
  apply selectable_initial.
Qed.

(** X17. The selectors bound each field, not the combination.  In
    every state a user can bring the selectors of a section to, the
    model is one of the six of the table, the size one of 1K, 2K and 4K
    and the ratio one of the eleven listed for the nano-banana models,
    so none of them is empty.  A change of the model keeps the size and
    the ratio chosen before, so the three need not be a combination the
    table offers: [doubao-seedream-4.5] with 2K and 4:5 can be
    selected, and its payload carries the fallback size. *)
Theorem selectors_bound_each_field (st : Selectors) :
  selectable st ->
  (In (sel_model st) (map fst MODEL_CONFIGS)
   /\ In (sel_size st) ["1K"; "2K"; "4K"]
   /\ In (sel_ratio st) NANO_RATIOS)
  /\ exists st',
       selectable st'
       /\ ~ offered (sel_model st') (sel_size st') (sel_ratio st')
       /\ forall req links,
            req_model req = sel_model st' -> size req = sel_size st' ->
            aspect_ratio req = sel_ratio st' ->
            p_size (constructPayload req links) = Some "2048x2048".
Proof.
  intros Hsel. split; [now apply selectable_fields|].
  exists mixed_selection. split; [exact mixed_selection_selectable|split].
  - intros (ratios & sizes & Hm & Hr & _).
    unfold MODEL_CONFIGS in Hm. simpl in Hm.
    repeat (destruct Hm as [Hm|Hm];
            [first [discriminate Hm
                   |injection Hm as Hrs _; subst ratios;
                    unfold DOUBAO_RATIOS in Hr; simpl in Hr;
                    intuition discriminate]|]).
    contradiction.
  - intros req links Hm Hs Hr. unfold constructPayload.
    rewrite Hm, Hs, Hr. reflexivity.
Qed.

Lemma selectors_bound_each_field_witness :
  In (sel_model mixed_selection) (map fst MODEL_CONFIGS)
  /\ In (sel_size mixed_selection) ["1K"; "2K"; "4K"]
  /\ In (sel_ratio mixed_selection) NANO_RATIOS.
Proof.
  apply (proj1 (selectors_bound_each_field mixed_selection mixed_selection_selectable)).
Defined.

Lemma selectable_nonempty st :
  selectable st -> sel_model st <> "" /\ sel_size st <> "" /\ sel_ratio st <> "".
Proof.
  intros Hsel.
  pose proof (selectable_fields st Hsel) as H.
  destruct H as (Hm & Hs & Hr).
  unfold MODEL_CONFIGS, NANO_RATIOS in *. simpl in *.
  repeat split; intros E; rewrite E in *; intuition discriminate.
Qed.

(** X18. What the three generate buttons post is what the server
    stores.  When every grid holds images of its own category, which is
    what a refresh puts there and what selection clicks keep, a request
    built by [onGenerateHair], [onGenerateAssembly] or
    [onGenerateReplace] for any state the selectors can be brought to
    passes the validation of the server, and is left as it is: the
    images are already in the order the server would put them in. *)
Theorem generate_buttons_pass_validation (a : AppState) (sel : Selectors)
    (req : GenerateRequest) :
  grids_by_category a ->
  selectable sel ->
  onGenerateHair a (sel_model sel) (sel_size sel) (sel_ratio sel) = Some req
  \/ onGenerateAssembly a (sel_model sel) (sel_size sel) (sel_ratio sel) = Some req
  \/ onGenerateReplace a (sel_model sel) (sel_size sel) (sel_ratio sel) = Some req ->
  validateRequest req = (None, req)
  /\ settings req = app_settings a /\ known_stage (stage req).
Proof.
  intros (G1 & G2 & G3 & G4 & G5 & G6 & G7) Hsel Hreq.
  destruct (selectable_nonempty _ Hsel) as (Hm & Hs & Hr).
  destruct Hreq as [H|[H|H]].
  - unfold onGenerateHair in H.
    destruct (first_selected (hairRefImages a)) as [x|] eqn:Hx; [|discriminate].
    destruct (first_selected (hairMannequinImages a)) as [y|] eqn:Hy; [|discriminate].
    apply handleGenerate_some in H. destruct H as [Hk ->].
    pose proof (first_selected_in _ _ _ G1 Hx) as Cx.
    pose proof (first_selected_in _ _ _ G2 Hy) as Cy.
    split; [|split; [reflexivity|left; reflexivity]].
    rewrite (validateRequest_hair _ x y); [reflexivity|repeat split; assumption
                                          |reflexivity| |]; simpl.
    + rewrite (has_category_yes _ _ Cx), (has_category_no _ _ _ Cy);
        [reflexivity|discriminate].
    + rewrite (has_category_no _ _ _ Cx), (has_category_yes _ _ Cy);
        [reflexivity|discriminate].
  - unfold onGenerateAssembly in H.
    destruct (first_selected (assemblyHairImages a)) as [x|] eqn:Hx; [|discriminate].
    destruct (first_selected (assemblyBodyImages a)) as [y|] eqn:Hy; [|discriminate].
    destruct (first_selected (assemblyClothImages a)) as [z|] eqn:Hz; [|discriminate].
    apply handleGenerate_some in H. destruct H as [Hk ->].
    pose proof (first_selected_in _ _ _ G3 Hx) as Cx.
    pose proof (first_selected_in _ _ _ G4 Hy) as Cy.
    pose proof (first_selected_in _ _ _ G5 Hz) as Cz.
    split; [|split; [reflexivity|right; left; reflexivity]].
    rewrite (validateRequest_assembly _ x y z); [reflexivity|repeat split; assumption
                                                |reflexivity| | |]; simpl.
    + rewrite (has_category_yes _ _ Cx), (has_category_no _ _ _ Cy),
        (has_category_no _ _ _ Cz); [reflexivity|discriminate|discriminate].
    + rewrite (has_category_no _ _ _ Cx), (has_category_yes _ _ Cy),
        (has_category_no _ _ _ Cz); [reflexivity|discriminate|discriminate].
    + rewrite (has_category_no _ _ _ Cx), (has_category_no _ _ _ Cy),
        (has_category_yes _ _ Cz); [reflexivity|discriminate|discriminate].
  - unfold onGenerateReplace in H.
    destruct (first_selected (replaceRefImages a)) as [x|] eqn:Hx; [|discriminate].
    destruct (first_selected (replaceProdImages a)) as [y|] eqn:Hy; [|discriminate].
    apply handleGenerate_some in H. destruct H as [Hk ->].
    pose proof (first_selected_in _ _ _ G6 Hx) as Cx.
    pose proof (first_selected_in _ _ _ G7 Hy) as Cy.
    split; [|split; [reflexivity|right; right; reflexivity]].
    rewrite (validateRequest_replacement _ x y); [reflexivity|repeat split; assumption
                                                 |reflexivity| |]; simpl.
    + rewrite (has_category_yes _ _ Cx), (has_category_no _ _ _ Cy);
        [reflexivity|discriminate].
    + rewrite (has_category_no _ _ _ Cx), (has_category_yes _ _ Cy);
        [reflexivity|discriminate].
Qed.

Lemma sample_app_grids : grids_by_category sample_app.
Proof.
  unfold grids_by_category, sample_app. cbn [hairRefImages hairMannequinImages
    assemblyHairImages assemblyBodyImages assemblyClothImages replaceRefImages
    replaceProdImages].
  repeat split; try apply handleSelect_category; apply refresh_grid_category.
Qed.

Lemma generate_buttons_pass_validation_witness :
  onGenerateReplace sample_app "doubao-seedream-4.5" "2K" "4:5"
  = Some {| stage := "doll_replacement"; req_model := "doubao-seedream-4.5";
            size := "2K"; aspect_ratio := "4:5";
            input_images :=
              [set_selected (sample_image "ref2.jpg" "rep-ref") true;
               set_selected img_prod true];
            settings := sample_settings; _taskId := None |}
  /\ validateRequest
       {| stage := "doll_replacement"; req_model := "doubao-seedream-4.5";
          size := "2K"; aspect_ratio := "4:5";
          input_images :=
            [set_selected (sample_image "ref2.jpg" "rep-ref") true;
             set_selected img_prod true];
          settings := sample_settings; _taskId := None |}
     = (None,
        {| stage := "doll_replacement"; req_model := "doubao-seedream-4.5";
           size := "2K"; aspect_ratio := "4:5";
           input_images :=
             [set_selected (sample_image "ref2.jpg" "rep-ref") true;
              set_selected img_prod true];
           settings := sample_settings; _taskId := None |}).
Proof.
  assert (H : onGenerateReplace sample_app (sel_model mixed_selection)
                (sel_size mixed_selection) (sel_ratio mixed_selection)
    = Some {| stage := "doll_replacement"; req_model := "doubao-seedream-4.5";
              size := "2K"; aspect_ratio := "4:5";
              input_images :=
                [set_selected (sample_image "ref2.jpg" "rep-ref") true;
                 set_selected img_prod true];
              settings := sample_settings; _taskId := None |})
    by (vm_compute; reflexivity).
  split; [exact H|].
  apply (proj1 (generate_buttons_pass_validation sample_app mixed_selection _
                  sample_app_grids mixed_selection_selectable
                  (or_intror (or_intror H)))).
Defined.

Lemma selected_ids_spec (prev : list ImageItem) (id : string) :
  id ∈ (list_to_set (map img_id (List.filter is_selected prev)) : gset string)
  <-> exists p, In p prev /\ is_selected p = true /\ img_id p = id.
Proof.
  rewrite elem_of_list_to_set, list_elem_of_In, in_map_iff.
  split.
  - intros (p & Hid & Hp). apply filter_In in Hp. destruct Hp as [Hin Hsel]. eauto.
  - intros (p & Hin & Hsel & Hid). exists p. split; [exact Hid|].
    apply filter_In. auto.
Qed.

(** X19. A refresh keeps the selection and nothing else of the old
    grid.  The refreshed grid of a category is the images of that
    category the server lists, in the order of the server and with all
    their fields but [selected]; an image is selected in it exactly when
    an image of the same id was selected before; and a second refresh
    from the same server list changes nothing. *)
Theorem refresh_keeps_selection (cat : string) (prev allImages : list ImageItem) :
  let grid := refresh_grid cat prev allImages in
  Forall (fun i => category i = Some cat) grid
  /\ map (fun i => set_selected i false) grid
     = map (fun i => set_selected i false) (List.filter (has_category cat) allImages)
  /\ (forall item, In item grid ->
        (is_selected item = true
         <-> exists p, In p prev /\ is_selected p = true /\ img_id p = img_id item))
  /\ refresh_grid cat grid allImages = grid.
Proof.
  intros grid.
  assert (Hsel : forall item, In item grid ->
            (is_selected item = true
             <-> exists p, In p prev /\ is_selected p = true /\ img_id p = img_id item)).
  { intros item Hin. unfold grid, refresh_grid, mergePreservingSelection in Hin.
    cbv zeta in Hin. apply in_map_iff in Hin. destruct Hin as (x & <- & _).
    unfold is_selected. simpl. rewrite bool_decide_eq_true.
    apply selected_ids_spec. }
  split; [apply refresh_grid_category|]. split; [|split; [exact Hsel|]].
  - unfold grid, refresh_grid, mergePreservingSelection. cbv zeta.
    rewrite map_map. reflexivity.
  - unfold refresh_grid at 1. unfold mergePreservingSelection at 1. cbv zeta.
    unfold grid at 2. unfold refresh_grid, mergePreservingSelection. cbv zeta.
    apply map_ext_in. intros x Hx. f_equal.
    apply bool_decide_ext.
    rewrite !selected_ids_spec. split.
    + intros (item & Hin & Hs & Hid).
      destruct (proj1 (Hsel item Hin) Hs) as (p & Hp & Hps & Hpid).
      exists p. repeat split; [exact Hp|exact Hps|congruence].
    + intros (p & Hp & Hps & Hpid).
      exists (set_selected x
                (bool_decide (img_id x ∈ (list_to_set
                   (map img_id (List.filter is_selected prev)) : gset string)))).
      split; [|split; [|reflexivity]].
      * unfold grid, refresh_grid, mergePreservingSelection. cbv zeta.
        apply in_map_iff. exists x. split; [reflexivity|exact Hx].
      * unfold is_selected. simpl. apply bool_decide_eq_true.
        apply selected_ids_spec. eauto.
Qed.

Lemma refresh_keeps_selection_witness :
  map is_selected
    (refresh_grid "rep-ref"
       [set_selected img_ref true; set_selected (sample_image "gone.jpg" "rep-ref") true]
       [img_prod; sample_image "ref2.jpg" "rep-ref"; img_ref])
  = [false; true]
  /\ (is_selected (set_selected img_ref true) = true
      <-> exists p,
            In p [set_selected img_ref true;
                  set_selected (sample_image "gone.jpg" "rep-ref") true]
            /\ is_selected p = true /\ img_id p = img_id (set_selected img_ref true)).
Proof.
  split; [vm_compute; reflexivity|].
  apply (proj1 (proj2 (proj2 (refresh_keeps_selection "rep-ref"
           [set_selected img_ref true; set_selected (sample_image "gone.jpg" "rep-ref") true]
           [img_prod; sample_image "ref2.jpg" "rep-ref"; img_ref])))).
  vm_compute. right. left. reflexivity.
Defined.

(** ** The output lists *)

Lemma distribute_from (tasks : list TaskItem) :
  forall acc,
    newHairOut (fold_left distribute_task tasks acc)
    = newHairOut acc ++ completed_of "HAIRSTYLE EXTRACTION" tasks
    /\ newAsmOut (fold_left distribute_task tasks acc)
       = newAsmOut acc ++ completed_of "DOLL ASSEMBLY" tasks
    /\ newRepOut (fold_left distribute_task tasks acc)
       = newRepOut acc ++ completed_of "DOLL REPLACEMENT" tasks.
Proof.
  unfold completed_of.
  induction tasks as [|t tasks IH]; intros acc; simpl.
  - rewrite !app_nil_r. auto.
  - destruct (IH (distribute_task acc t)) as (H1 & H2 & H3).
    rewrite H1, H2, H3. clear IH H1 H2 H3.
    unfold distribute_task.
    destruct (bool_decide (status t = completed)); simpl; [|auto].
    destruct (str_eq (type t) "HAIRSTYLE EXTRACTION") eqn:E1;
      destruct (str_eq (type t) "DOLL ASSEMBLY") eqn:E2;
      destruct (str_eq (type t) "DOLL REPLACEMENT") eqn:E3;
      try (apply str_eq_true in E1; rewrite E1 in *; discriminate);
      try (apply str_eq_true in E2; rewrite E2 in *; discriminate);
      simpl; rewrite <- ?app_assoc; auto.
Qed.

Lemma completed_of_resolved api label (tasks : list TaskItem) :
  completed_of label (map (resolve_task api) tasks)
  = map (resolveImg api) (completed_of label tasks).
Proof.
  unfold completed_of. induction tasks as [|t tasks IH]; simpl; [reflexivity|].
  destruct (bool_decide (status t = completed) && str_eq (type t) label); simpl.
  - rewrite map_app, IH. reflexivity.
  - exact IH.
Qed.

(** X20. The outputs of a task appear under the stage it was submitted
    for.  The output list the front end builds for one of the three
    stages holds the output images of the completed tasks whose stored
    type is the label [submitTask] derives from that stage, in the
    order of the history, with their URLs resolved; tasks that are
    pending, processing or failed and tasks of another type contribute
    nothing. *)
Theorem outputs_follow_stage (api : string) (tasks : list TaskItem) (stage : string) :
  known_stage stage ->
  outputs_of_stage stage (distribute (map (resolve_task api) tasks))
  = map (resolveImg api) (completed_of (stage_label stage) tasks).
Proof.
  intros Hst. rewrite <- completed_of_resolved.
  destruct (distribute_from (map (resolve_task api) tasks)
              {| newHairOut := []; newAsmOut := []; newRepOut := [] |})
    as (H1 & H2 & H3).
  simpl in H1, H2, H3. unfold distribute.
  destruct Hst as [->|[->| ->]].
  - change (stage_label "hairstyle_extraction") with "HAIRSTYLE EXTRACTION".
    exact H1.
  - change (stage_label "doll_assembly") with "DOLL ASSEMBLY". exact H2.
  - change (stage_label "doll_replacement") with "DOLL REPLACEMENT". exact H3.
Qed.

Lemma outputs_follow_stage_witness :
  outputs_of_stage "doll_replacement"
    (distribute (map (resolve_task "http://localhost:3001/api")
       [ stored_task "task-3" processing;
         merge (stored_task "task-2" completed)
           (set_completed "1/1/2026, 10:05:00 AM" "300.0s"
              [output_image sample_pipeline_env "/srv/output/gen_1_7.png"]) ]))
  = [ set_url (output_image sample_pipeline_env "/srv/output/gen_1_7.png")
        "http://localhost:3001/files/gen_1_7.png" ].
Proof.
  rewrite (outputs_follow_stage "http://localhost:3001/api" _ "doll_replacement"
             (or_intror (or_intror eq_refl))).
  vm_compute. reflexivity.
Defined.

(** ** Pages of a grid *)

Lemma pages_upto_take {A} (images : list A) (n : nat) :
  pages_upto images n = take (n * ITEMS_PER_PAGE) images.
Proof.
  induction n as [|n IH]; simpl pages_upto; [reflexivity|].
  rewrite IH. unfold currentImages, slice. cbv zeta.
  replace (S n - 1)%nat with n by lia.
  replace (n * ITEMS_PER_PAGE + ITEMS_PER_PAGE - n * ITEMS_PER_PAGE)%nat
    with ITEMS_PER_PAGE by lia.
  rewrite take_take_drop. f_equal. lia.
Qed.

Lemma totalPages_bounds {A} (images : list A) :
  (length images <= totalPages images * ITEMS_PER_PAGE)%nat
  /\ (totalPages images * ITEMS_PER_PAGE < length images + ITEMS_PER_PAGE)%nat.
Proof.
  unfold totalPages, ITEMS_PER_PAGE.
  pose proof (Nat.div_mod_eq (length images + (20 - 1)) 20) as Hd.
  pose proof (Nat.mod_upper_bound (length images + (20 - 1)) 20) as Hm.
  lia.
Qed.

(** X21. The pages of a grid partition its images.  Put one after the
    other, the pages 1 to [totalPages] are the images of the grid, each
    once and in order; each of these pages is not empty and has at most
    20 images, every page but the last has exactly 20, and a page after
    the last is empty. *)
Theorem pages_partition_images {A} (images : list A) :
  pages_upto images (totalPages images) = images
  /\ (forall p, (1 <= p <= totalPages images)%nat ->
        currentImages images p <> []
        /\ (length (currentImages images p) <= ITEMS_PER_PAGE)%nat
        /\ ((p < totalPages images)%nat ->
            length (currentImages images p) = ITEMS_PER_PAGE))
  /\ (forall p, (totalPages images < p)%nat -> currentImages images p = []).
Proof.
  destruct (totalPages_bounds images) as [Hlo Hhi].
  split; [|split].
  - rewrite pages_upto_take. now apply take_ge.
  - intros p Hp.
    assert (Hlen : length (currentImages images p)
                   = Nat.min ITEMS_PER_PAGE (length images - (p - 1) * ITEMS_PER_PAGE)).
    { unfold currentImages, slice. cbv zeta.
      rewrite length_take, length_drop. unfold ITEMS_PER_PAGE. lia. }
    assert (Hstart : ((p - 1) * ITEMS_PER_PAGE < length images)%nat).
    { unfold ITEMS_PER_PAGE in *. nia. }
    split; [|split].
    + intros Hnil. rewrite Hnil in Hlen. cbn [length] in Hlen.
      unfold ITEMS_PER_PAGE in *. lia.
    + lia.
    + intros Hlt. rewrite Hlen. unfold ITEMS_PER_PAGE in *. nia.
  - intros p Hp. unfold currentImages, slice. cbv zeta.
    rewrite drop_ge; [apply take_nil|]. unfold ITEMS_PER_PAGE in *. nia.
Qed.

Lemma pages_partition_images_witness :
  totalPages (seq 0 45) = 3%nat
  /\ currentImages (seq 0 45) 3 = [40; 41; 42; 43; 44]%nat
  /\ currentImages (seq 0 45) 3 <> []
  /\ length (currentImages (seq 0 45) 1) = ITEMS_PER_PAGE.
Proof.
  split; [reflexivity|]. split; [reflexivity|].
  pose proof (proj1 (proj2 (pages_partition_images (seq 0 45)))) as H.
  split.
  - apply (H 3%nat). vm_compute. split; apply le_n || (repeat constructor).
  - apply (H 1%nat); vm_compute; [split|]; repeat constructor.
Defined.

(** ** Selecting a whole page *)

Lemma currentImages_map {A B} (f : A -> B) (l : list A) (p : nat) :
  currentImages (map f l) p = map f (currentImages l p).
Proof.
  unfold currentImages, slice. cbv zeta.
  change (map f l) with (f <$> l).
  rewrite <- fmap_drop, <- fmap_take. reflexivity.
Qed.

Lemma existsb_self (page : list ImageItem) (x : ImageItem) :
  In x page -> existsb (fun c => str_eq (img_id c) (img_id x)) page = true.
Proof.
  intros H. apply existsb_exists. exists x. split; [exact H|].
  now apply str_eq_true.
Qed.

(** X22. [handleSelectAll] acts on the page shown.  After it, every
    image of that page is selected when some image of the page was not,
    and unselected when all were; nothing but [selected] changes in any
    image; and an image that shares its id with no image of the page is
    left as it is. *)
Theorem select_all_acts_on_page (images : list ImageItem) (p : nat) :
  let page := currentImages images p in
  let after := handleSelectAll page images in
  Forall (fun i => is_selected i = negb (forallb is_selected page))
         (currentImages after p)
  /\ map (fun i => set_selected i false) after
     = map (fun i => set_selected i false) images
  /\ (forall k img,
        images !! k = Some img ->
        (forall c, In c page -> img_id c <> img_id img) ->
        after !! k = Some img).
Proof.
  intros page after. split; [|split].
  - unfold after, handleSelectAll. cbv zeta.
    rewrite currentImages_map. fold page.
    rewrite List.Forall_forall. intros i Hi.
    apply in_map_iff in Hi. destruct Hi as (x & <- & Hx).
    rewrite (existsb_self page x Hx). reflexivity.
  - unfold after, handleSelectAll. cbv zeta. rewrite map_map.
    apply map_ext. intros x.
    destruct (existsb _ page); reflexivity.
  - intros k img Hk Hother. unfold after, handleSelectAll. cbv zeta.
    change (map ?f images) with (f <$> images).
    rewrite list_lookup_fmap, Hk. simpl.
    destruct (existsb (fun c => str_eq (img_id c) (img_id img)) page) eqn:E;
      [|reflexivity].
    apply existsb_exists in E. destruct E as (c & Hc & Heq).
    apply str_eq_true in Heq. exfalso. exact (Hother c Hc Heq).
Qed.

Lemma select_all_acts_on_page_witness :
  map is_selected
    (handleSelectAll (currentImages [set_selected img_ref true; img_prod; img_hair] 1)
       [set_selected img_ref true; img_prod; img_hair])
  = [true; true; true]
  /\ handleSelectAll (currentImages [img_ref] 2) [img_ref] !! 0%nat = Some img_ref.
Proof.
  split; [vm_compute; reflexivity|].
  apply (proj2 (proj2 (select_all_acts_on_page [img_ref] 2)) 0%nat img_ref eq_refl).
  intros c Hc. vm_compute in Hc. contradiction.
Defined.

(** ** From an upload to the grids *)

Lemma resolveImg_category api img : category (resolveImg api img) = category img.
Proof.
  unfold resolveImg. destruct (falsy (img_url img)); [reflexivity|].
  destruct (starts_with "http" (img_url img)); reflexivity.
Qed.

(** X23. An uploaded image shows up in the grid of the category it was
    uploaded with, and in no other.  After the upload handler has added
    its record, the next refresh of the grid of that category has the
    image first, unselected unless an image of the same id was selected
    before, followed by what the refresh would have listed without the
    upload; the refresh of a grid of any other category is what it
    would have been.  For an upload without a category the stored
    category is [uncategorized], which is the category of no grid. *)
Theorem upload_lands_in_its_grid (body_id body_category : option string)
    (now filename path name api cat : string) (prev : list ImageItem)
    (c : Catalogue) :
  let img := uploaded_image body_id body_category now filename path name in
  let before := refresh_grid cat prev (fetched_images api c) in
  let after := refresh_grid cat prev (fetched_images api (addImage img c)) in
  (or_else body_category "uncategorized" = cat ->
   after = set_selected (resolveImg api img)
             (bool_decide (img_id img ∈ (list_to_set
                (map img_id (List.filter is_selected prev)) : gset string)))
           :: before)
  /\ (or_else body_category "uncategorized" <> cat -> after = before)
  /\ (body_category = None -> In cat role_tags -> after = before).
Proof.
  intros img before after.
  assert (Hcat : category (resolveImg api img)
                 = Some (or_else body_category "uncategorized")).
  { rewrite resolveImg_category. reflexivity. }
  assert (Hid : img_id (resolveImg api img) = img_id img).
  { unfold resolveImg. destruct (falsy (img_url img)); [reflexivity|].
    destruct (starts_with "http" (img_url img)); reflexivity. }
  assert (Hyes : or_else body_category "uncategorized" = cat ->
            after = set_selected (resolveImg api img)
                      (bool_decide (img_id img ∈ (list_to_set
                         (map img_id (List.filter is_selected prev)) : gset string)))
                    :: before).
  { intros E. unfold after, before, refresh_grid, fetched_images, addImage, getImages.
    cbn [images_file default from_option id map List.filter].
    unfold has_category at 1. rewrite Hcat, E.
    rewrite bool_decide_eq_true_2 by reflexivity.
    unfold mergePreservingSelection. cbv zeta. cbn [map]. rewrite Hid. reflexivity. }
  assert (Hno : or_else body_category "uncategorized" <> cat -> after = before).
  { intros E. unfold after, before, refresh_grid, fetched_images, addImage, getImages.
    cbn [images_file default from_option id map List.filter].
    unfold has_category at 1. rewrite Hcat.
    rewrite bool_decide_eq_false_2 by congruence. reflexivity. }
  split; [exact Hyes|]. split; [exact Hno|].
  intros -> Hrole. apply Hno. simpl.
  unfold role_tags in Hrole. simpl in Hrole.
  intros <-. intuition discriminate.
Qed.

Lemma upload_lands_in_its_grid_witness :
  map img_id
    (refresh_grid "rep-ref" []
       (fetched_images "http://localhost:3001/api"
          (addImage (uploaded_image None (Some "rep-ref") "1767261900000"
                       "1767261900000-1.jpg" "/srv/data/inputs/1767261900000-1.jpg"
                       "ref.jpg")
             {| images_file := Some [img_prod; img_ref]; disk := ∅ |})))
  = ["1767261900000"; "ref.jpg"].
Proof.
  rewrite (proj1 (upload_lands_in_its_grid None (Some "rep-ref") "1767261900000"
                    "1767261900000-1.jpg" "/srv/data/inputs/1767261900000-1.jpg"
                    "ref.jpg" "http://localhost:3001/api" "rep-ref" []
                    {| images_file := Some [img_prod; img_ref]; disk := ∅ |})
             eq_refl).
  vm_compute. reflexivity.
Defined.

(** ** The record of a settled task *)

Lemma pipeline_ret_one env fuel taskId req m m' :
  pipeline env fuel taskId req m = (Ret tt, m') ->
  exists m0 duration localPath,
    tasks m' = updateTask taskId
                 (set_completed (env_localeNow env) duration
                    [output_image env localPath]) (tasks m0).
Proof.
  intros H.
  repeat (apply bind_ret_inv in H; destruct H as (? & ? & ? & H)).
  unfold addTaskLog, emit in H. inversion H; subst m'; clear H.
  match goal with
  | Hdb : dbUpdateTask _ (set_completed _ _ _) _ = (Ret _, _) |- _ =>
      unfold dbUpdateTask in Hdb; inversion Hdb; subst; clear Hdb
  end.
  simpl. unfold output_image. eauto.
Qed.

Lemma has_record_update taskId t0 u (f : TasksFile) :
  keeps_identity u -> has_record taskId t0 f ->
  has_record taskId t0 (updateTask taskId u f).
Proof.
  intros (Hid & Hty & Hmo & Hin & Hst) (t & Hfind & S1 & S2 & S3 & S4 & S5).
  exists (merge t u). split.
  - rewrite find_task_updateTask by exact Hid. rewrite Hfind. reflexivity.
  - unfold same_identity, merge. simpl.
    rewrite Hid, Hty, Hmo, Hin, Hst. simpl. auto.
Qed.

Lemma or_else_nonempty (x : option string) (fallback : string) :
  fallback <> "" -> or_else x fallback <> "".
Proof.
  intros Hf. unfold or_else. destruct x as [s|]; [|exact Hf].
  destruct (falsy s) eqn:E; [exact Hf|]. now apply falsy_false.
Qed.

(** X24. What a settled task looks like.  When the history has a
    record for the task, [executeTask] never rejects, and once it has
    fulfilled its promise the history still has that record, with the
    id, type, model, input images and start time it had, and it is
    either completed, with exactly one output image, an end time and a
    duration, or failed, with an end time and an error message that is
    not empty. *)
Theorem settled_record_is_complete env fuel taskId req (t0 : TaskItem) (m : Machine) :
  find_task taskId (default [] (tasks m)) = Some t0 ->
  (forall e, fst (executeTask env fuel taskId req m) <> Throw e)
  /\ (fst (executeTask env fuel taskId req m) = Ret tt ->
      exists t,
        find_task taskId
          (default [] (tasks (snd (executeTask env fuel taskId req m)))) = Some t
        /\ same_identity t0 t
        /\ (settled_completed env t \/ settled_failed env t)).
Proof.
  intros Hfind.
  assert (Hrec : has_record taskId t0 (tasks (snd (executeTask env fuel taskId req m)))).
  { apply (executeTask_grows (has_record taskId t0)).
    - intros u f Hu Hf. now apply has_record_update.
    - exists t0. split; [exact Hfind|apply same_identity_refl]. }
  revert Hrec. unfold executeTask, try_catch.
  destruct (pipeline env fuel taskId req m) as [[[]|e|] m1] eqn:Hp.
  - intros (t & Ht & Hsame). split; [discriminate|]. intros _.
    exists t. split; [exact Ht|]. split; [exact Hsame|]. left.
    destruct (pipeline_ret_one _ _ _ _ _ _ Hp) as (m0 & d & path & Htasks).
    cbn [snd] in Ht. rewrite Htasks in Ht.
    rewrite find_task_updateTask in Ht by reflexivity.
    destruct (find_task taskId (default [] (tasks m0))) as [t1|]; [|discriminate].
    simpl in Ht. inversion Ht. unfold settled_completed. simpl. eauto 10.
  - rewrite on_failure_run. intros (t & Ht & Hsame). split; [discriminate|].
    intros _. exists t. split; [exact Ht|]. split; [exact Hsame|]. right.
    cbn [snd tasks] in Ht.
    rewrite find_task_updateTask in Ht by reflexivity.
    destruct (find_task taskId (default [] (tasks m1))) as [t1|]; [|discriminate].
    simpl in Ht. inversion Ht. unfold settled_failed. simpl.
    split; [reflexivity|]. split; [reflexivity|].
    eexists. split; [reflexivity|].
    apply (or_else_nonempty (Some (message e)) "Unknown error"). discriminate.
  - intros _. split; discriminate.
Qed.

Lemma settled_record_is_complete_witness :
  exists t,
    find_task "task-1"
      (default [] (tasks (snd (executeTask failing_storage_env 3 "task-1"
                                 replacement_request
                                 (start_machine (Some stored_history)))))) = Some t
    /\ same_identity (stored_task "task-1" pending) t
    /\ (settled_completed failing_storage_env t \/ settled_failed failing_storage_env t).
Proof.
  apply (proj2 (settled_record_is_complete failing_storage_env 3 "task-1"
                  replacement_request (stored_task "task-1" pending)
                  (start_machine (Some stored_history)) eq_refl)).
  vm_compute. reflexivity.
Defined.
